(** * RNTupleSerialize: the RNTuple binary codec

    A shallow embedding of [tree/ntuple/v7/src/RNTupleSerialize.cxx] and of
    the [RContext] class of [ROOT/RNTupleSerialize.hxx].

    - C++ fixed-width integers are values of [Z]; every conversion between
      widths is written out ([to_uint], [to_int]).
    - A pointer is an address in [Z]; [nullptr] is address 0.  The heap is a
      finite map from allocated addresses to bytes; touching an address that
      is not allocated is undefined behaviour in C++ and is reported as the
      exception [invalid_memory_access].
    - Functions that write through a pointer or throw live in the monad [M]
      (heap state plus exceptions).  Reference out-parameters of the
      deserialisation routines are returned next to the byte count. *)

From Stdlib Require Import ZArith Lia List.
From stdpp Require Import base gmap list.

Local Open Scope Z_scope.

(** ** Fixed-width integers *)

Definition to_uint (w x : Z) : Z := x mod 2 ^ w.
Definition to_int (w x : Z) : Z := (x + 2 ^ (w - 1)) mod 2 ^ w - 2 ^ (w - 1).

Definition in_uint (w x : Z) : Prop := 0 <= x < 2 ^ w.
Definition in_int (w x : Z) : Prop := - 2 ^ (w - 1) <= x < 2 ^ (w - 1).

(** ** Pointers, heap, exceptions *)

Definition nullptr : Z := 0.

Abbreviation heap := (gmap Z Z).

(** One constructor per [R__FAIL] message of the source, in source order,
    then the two failures that are not [RException]s. *)
Inductive exception : Type :=
  | crc32_checksum_mismatch         (* "CRC32 checksum mismatch" *)
  | buffer_too_short                (* "buffer too short" *)
  | unexpected_column_type          (* "unexpected column type" *)
  | unexpected_on_disk_column_type  (* "unexpected on-disk column type" *)
  | unexpected_field_structure_type (* "unexpected field structure type" *)
  | unexpected_on_disk_field_structure_value
  | invalid_envelope_too_short      (* "invalid envelope, too short" *)
  | format_too_old                  (* "The RNTuple format is too old (version 0)" *)
  | format_too_new (version : Z)    (* "The RNTuple format is too new (version N)" *)
  | list_frame_too_large (nitems : Z) (* "list frame too large: N" *)
  | frame_too_large (size : Z)      (* "Frame too large: N" *)
  | frame_too_short_write (size : Z) (* "Frame too short: N" *)
  | frame_too_short                 (* "frame too short" *)
  | corrupt_frame_size              (* "corrupt frame size" *)
  | feature_flag_out_of_bounds      (* "feature flag out of bounds" *)
  | locator_too_large               (* "locator too large" *)
  | too_short_locator               (* "too short locator" *)
  | unsupported_locator_type (type : Z) (* "unsupported locator type: N" *)
  | too_short_cluster_summary       (* "too short cluster summary" *)
  | too_short_cluster_group         (* "too short cluster group" *)
  | std_out_of_range                (* thrown by std::map::at *)
  | invalid_memory_access.          (* access outside the allocated bytes *)

Inductive result (A : Type) : Type :=
  | Ok (a : A)
  | Throw (e : exception)
  | OutOfFuel.
Arguments Ok {A} a.
Arguments Throw {A} e.
Arguments OutOfFuel {A}.

Definition M (A : Type) : Type := heap -> result (A * heap).

Definition ret {A} (a : A) : M A := fun m => Ok (a, m).
Definition throw {A} (e : exception) : M A := fun _ => Throw e.
Definition bind {A B} (c : M A) (k : A -> M B) : M B :=
  fun m => match c m with
           | Ok (a, m') => k a m'
           | Throw e => Throw e
           | OutOfFuel => OutOfFuel
           end.

Notation "'do' x <- c ; k" := (bind c (fun x => k))
  (at level 10, x name, c at level 100, k at level 200).
Notation "'do' ' p <- c ; k" := (bind c (fun x => match x with p => k end))
  (at level 10, p pattern, c at level 100, k at level 200).
Notation "c ;; k" := (bind c (fun _ => k))
  (at level 100, k at level 200, right associativity).

(** [bytes[i]] as an rvalue and as an lvalue of type [unsigned char]. *)
Definition load (p : Z) : M Z :=
  fun m => match m !! p with
           | Some b => Ok (b, m)
           | None => Throw invalid_memory_access
           end.
Definition store (p v : Z) : M unit :=
  fun m => match m !! p with
           | Some _ => Ok (tt, <[p := to_uint 8 v]> m)
           | None => Throw invalid_memory_access
           end.

(** [memcpy] out of and into the heap; a [std::string] is its list of bytes. *)
Fixpoint load_bytes (p : Z) (n : nat) : M (list Z) :=
  match n with
  | O => ret []
  | S n' => do b <- load p; do bs <- load_bytes (p + 1) n'; ret (b :: bs)
  end.
Fixpoint store_bytes (p : Z) (bs : list Z) : M unit :=
  match bs with
  | [] => ret tt
  | b :: bs' => store p b;; store_bytes (p + 1) bs'
  end.

Definition allocated (m : heap) (p n : Z) : Prop :=
  forall a, p <= a < p + n -> is_Some (m !! a).

(** A zero-initialised buffer of [n] bytes at address [p]. *)
Definition calloc (p : Z) (n : nat) : heap :=
  list_to_map (map (fun i => (p + Z.of_nat i, 0)) (seq 0 n)).

(** The size-or-emit idiom of the source:
    [void **where = (buffer == nullptr) ? &buffer : (void** )&pos;]
    so that [*where] is [buffer] (null) in a size-only run and the moving
    cursor [pos] otherwise. *)
Definition where_ (buffer pos : Z) : Z :=
  if buffer =? nullptr then buffer else pos.

(** ** Primitive codec *)

Definition SerializeInt16 (val buffer : Z) : M Z :=
  (if negb (buffer =? nullptr) then
     let bytes := buffer in
     store (bytes + 0) (Z.land val 0x00FF);;
     store (bytes + 1) (Z.shiftr (Z.land val 0xFF00) 8)
   else ret tt);;
  ret 2.

Definition DeserializeInt16 (buffer : Z) : M (Z * Z) :=
  let bytes := buffer in
  do b0 <- load (bytes + 0);
  do b1 <- load (bytes + 1);
  ret (2, to_int 16 (b0 + Z.shiftl b1 8)).

Definition SerializeUInt16 (val buffer : Z) : M Z :=
  SerializeInt16 (to_int 16 val) buffer.

Definition DeserializeUInt16 (buffer : Z) : M (Z * Z) :=
  do '(n, val) <- DeserializeInt16 buffer;
  ret (n, to_uint 16 val).

Definition SerializeInt32 (val buffer : Z) : M Z :=
  (if negb (buffer =? nullptr) then
     let bytes := buffer in
     store (bytes + 0) (Z.land val 0x000000FF);;
     store (bytes + 1) (Z.shiftr (Z.land val 0x0000FF00) 8);;
     store (bytes + 2) (Z.shiftr (Z.land val 0x00FF0000) 16);;
     store (bytes + 3) (Z.shiftr (Z.land val 0xFF000000) 24)
   else ret tt);;
  ret 4.

Definition DeserializeInt32 (buffer : Z) : M (Z * Z) :=
  let bytes := buffer in
  do b0 <- load (bytes + 0);
  do b1 <- load (bytes + 1);
  do b2 <- load (bytes + 2);
  do b3 <- load (bytes + 3);
  ret (4, to_int 32 (b0 + Z.shiftl b1 8 + Z.shiftl b2 16 + Z.shiftl b3 24)).

Definition SerializeUInt32 (val buffer : Z) : M Z :=
  SerializeInt32 (to_int 32 val) buffer.

Definition DeserializeUInt32 (buffer : Z) : M (Z * Z) :=
  do '(n, val) <- DeserializeInt32 buffer;
  ret (n, to_uint 32 val).

Definition SerializeInt64 (val buffer : Z) : M Z :=
  (if negb (buffer =? nullptr) then
     let bytes := buffer in
     store (bytes + 0) (Z.land val 0x00000000000000FF);;
     store (bytes + 1) (Z.shiftr (Z.land val 0x000000000000FF00) 8);;
     store (bytes + 2) (Z.shiftr (Z.land val 0x0000000000FF0000) 16);;
     store (bytes + 3) (Z.shiftr (Z.land val 0x00000000FF000000) 24);;
     store (bytes + 4) (Z.shiftr (Z.land val 0x000000FF00000000) 32);;
     store (bytes + 5) (Z.shiftr (Z.land val 0x0000FF0000000000) 40);;
     store (bytes + 6) (Z.shiftr (Z.land val 0x00FF000000000000) 48);;
     store (bytes + 7) (Z.shiftr (Z.land val 0xFF00000000000000) 56)
   else ret tt);;
  ret 8.

Definition DeserializeInt64 (buffer : Z) : M (Z * Z) :=
  let bytes := buffer in
  do b0 <- load (bytes + 0);
  do b1 <- load (bytes + 1);
  do b2 <- load (bytes + 2);
  do b3 <- load (bytes + 3);
  do b4 <- load (bytes + 4);
  do b5 <- load (bytes + 5);
  do b6 <- load (bytes + 6);
  do b7 <- load (bytes + 7);
  ret (8, to_int 64 (b0 + Z.shiftl b1 8 + Z.shiftl b2 16 + Z.shiftl b3 24 +
                     Z.shiftl b4 32 + Z.shiftl b5 40 + Z.shiftl b6 48 +
                     Z.shiftl b7 56)).

Definition SerializeUInt64 (val buffer : Z) : M Z :=
  SerializeInt64 (to_int 64 val) buffer.

Definition DeserializeUInt64 (buffer : Z) : M (Z * Z) :=
  do '(n, val) <- DeserializeInt64 buffer;
  ret (n, to_uint 64 val).

(** [std::string] is its list of bytes; [val.length()] is a [size_t] and is
    narrowed to 32 bits where the source passes or returns it as such. *)
Definition SerializeString (val : list Z) (buffer : Z) : M Z :=
  let len := Z.of_nat (length val) in
  (if negb (buffer =? nullptr) then
     let pos := buffer in
     do n <- SerializeUInt32 (to_uint 32 len) pos;
     let pos := pos + n in
     store_bytes pos val
   else ret tt);;
  ret (to_uint 32 (4 + len)).

Definition DeserializeString (buffer size : Z) : M (Z * list Z) :=
  if size <? 4 then throw buffer_too_short else
  let size := size - 4 in
  let base := buffer in
  let bytes := base in
  do '(n, len) <- DeserializeUInt32 buffer;
  let bytes := bytes + n in
  if size <? len then throw buffer_too_short else
  do val <- load_bytes bytes (Z.to_nat len);
  ret (to_uint 32 (4 + len), val).

(** ** Enum codec

    The enum declarations live in headers that are not part of this file;
    the constructors are the enumerators the two switches name, plus one
    constructor for the [default:] branch. *)
Inductive EColumnType : Type :=
  | kIndex | kSwitch | kByte | kBit | kReal64 | kReal32 | kReal16
  | kInt64 | kInt32 | kInt16 | kUnknownColumnType.

Inductive ENTupleStructure : Type :=
  | kLeaf | kCollection | kRecord | kVariant | kReference
  | kUnknownStructure.

Definition SerializeColumnType (type : EColumnType) (buffer : Z) : M Z :=
  match type with
  | kIndex => SerializeUInt16 0x02 buffer
  | kSwitch => SerializeUInt16 0x03 buffer
  | kByte => SerializeUInt16 0x0D buffer
  | kBit => SerializeUInt16 0x06 buffer
  | kReal64 => SerializeUInt16 0x07 buffer
  | kReal32 => SerializeUInt16 0x08 buffer
  | kReal16 => SerializeUInt16 0x09 buffer
  | kInt64 => SerializeUInt16 0x0A buffer
  | kInt32 => SerializeUInt16 0x0B buffer
  | kInt16 => SerializeUInt16 0x0C buffer
  | kUnknownColumnType => throw unexpected_column_type
  end.

Definition SerializeFieldStructure (structure : ENTupleStructure) (buffer : Z)
    : M Z :=
  match structure with
  | kLeaf => SerializeUInt16 0x00 buffer
  | kCollection => SerializeUInt16 0x01 buffer
  | kRecord => SerializeUInt16 0x02 buffer
  | kVariant => SerializeUInt16 0x03 buffer
  | kReference => SerializeUInt16 0x04 buffer
  | kUnknownStructure => throw unexpected_field_structure_type
  end.

(** ** Constants of [RNTupleSerializer] *)

Definition kEnvelopeCurrentVersion : Z := 1.
Definition kEnvelopeMinVersion : Z := 1.
Definition kFlagRepetitiveField : Z := 0x01.
Definition kFlagSortAscColumn : Z := 0x01.
Definition kFlagNonNegativeColumn : Z := 0x04.

(** ** Frame codec *)

Definition SerializeRecordFramePreamble (buffer : Z) : M Z :=
  (* Marker: multiply the final size with 1 *)
  SerializeInt32 1 buffer.

Definition SerializeListFramePreamble (nitems buffer : Z) : M Z :=
  if nitems >=? Z.shiftl 1 28 then throw (list_frame_too_large nitems) else
  let base := buffer in
  let pos := base in
  (* Marker: multiply the final size with -1 *)
  do n <- SerializeInt32 (-1) (where_ buffer pos);
  let pos := pos + n in
  do n <- SerializeUInt32 nitems (where_ buffer pos);
  let pos := pos + n in
  ret (to_uint 32 (pos - base)).

(** [size] is a [std::int32_t]; callers narrow to it. *)
Definition SerializeFramePostscript (frame size : Z) : M Z :=
  if size <? 0 then throw (frame_too_large size) else
  if size <? 4 then throw (frame_too_short_write size) else
  (if negb (frame =? nullptr) then
     do '(_, marker) <- DeserializeInt32 frame;
     if (marker <? 0) && (size <? 2 * 4)
     then throw (frame_too_short_write size)
     else SerializeInt32 (to_int 32 (marker * size)) frame;; ret tt
   else ret tt);;
  ret 0.

(** Returns the number of header bytes read, [frameSize] and [nitems]. *)
Definition DeserializeFrame (buffer bufSize : Z) : M (Z * Z * Z) :=
  if bufSize <? 4 then throw frame_too_short else
  let bytes := buffer in
  do '(n, ssize) <- DeserializeInt32 bytes;
  let bytes := bytes + n in
  do '(bytes, ssize, nitems) <-
    (if ssize >=? 0 then
       (* Record frame *)
       let nitems := 1 in
       if to_uint 32 ssize <? 4 then throw corrupt_frame_size
       else ret (bytes, ssize, nitems)
     else
       (* List frame *)
       if bufSize <? 2 * 4 then throw frame_too_short else
       do '(n, nitems) <- DeserializeUInt32 bytes;
       let bytes := bytes + n in
       let nitems := Z.land nitems (Z.shiftl 2 28 - 1) in
       let ssize := to_int 32 (- ssize) in
       if to_uint 32 ssize <? 2 * 4 then throw corrupt_frame_size
       else ret (bytes, ssize, nitems));
  let frameSize := to_uint 32 ssize in
  if bufSize <? frameSize then throw frame_too_short else
  ret (to_uint 32 (bytes - buffer), frameSize, nitems).

(** The overload without [nitems]. *)
Definition DeserializeFrame' (buffer bufSize : Z) : M (Z * Z) :=
  do '(n, frameSize, _) <- DeserializeFrame buffer bufSize;
  ret (n, frameSize).

(** ** Feature flags *)

(** The [for] loop over [flags], [bytes] being the write cursor; the list
    is the part of the vector from index [i] on, so [i == flags.size() - 1]
    is "no element follows". *)
Fixpoint SerializeFeatureFlags_for (flags : list Z) (bytes : Z) : M unit :=
  match flags with
  | [] => ret tt
  | f :: rest =>
      if f <? 0 then throw feature_flag_out_of_bounds else
      match rest with
      | [] => SerializeInt64 f bytes;; ret tt
      | _ :: _ =>
          do n <- SerializeInt64 (- f) bytes;
          SerializeFeatureFlags_for rest (bytes + n)
      end
  end.

Definition SerializeFeatureFlags (flags : list Z) (buffer : Z) : M Z :=
  match flags with
  | [] => SerializeInt64 0 buffer
  | _ :: _ =>
      (if negb (buffer =? nullptr) then
         let bytes := buffer in
         SerializeFeatureFlags_for flags bytes
       else ret tt);;
      ret (to_uint 32 (Z.of_nat (length flags) * 8))
  end.

(** The [do ... while (f < 0)] loop.  Every iteration consumes 8 of the
    remaining [size] bytes, so [size / 8 + 1] iterations always suffice.
    The call [abs(f)] is unqualified and is the [int abs(int)] of the C
    library: the 64-bit word is narrowed to [int], and the [int] result is
    widened when it is appended to [flags].  For [INT_MIN] the negation
    wraps around. *)
Fixpoint DeserializeFeatureFlags_do (fuel : nat) (bytes size : Z)
    (flags : list Z) : M (list Z) :=
  match fuel with
  | O => fun _ => OutOfFuel
  | S fuel' =>
      if size <? 8 then throw buffer_too_short else
      do '(n, f) <- DeserializeInt64 bytes;
      let bytes := bytes + n in
      let size := size - 8 in
      let flags := flags ++ [to_int 32 (Z.abs (to_int 32 f))] in
      if f <? 0 then DeserializeFeatureFlags_do fuel' bytes size flags
      else ret flags
  end.

Definition DeserializeFeatureFlags (buffer size : Z) : M (Z * list Z) :=
  let bytes := buffer in
  do flags <- DeserializeFeatureFlags_do (Z.to_nat (size / 8) + 1) bytes size [];
  ret (to_uint 32 (Z.of_nat (length flags) * 8), flags).

(** ** Locator

    [RNTupleLocator] is declared in RNTupleUtil.hxx, which is not part of
    this file; its three fields are the ones the codec reads and writes,
    with the widths the codec uses for them. *)
Record RNTupleLocator : Type := {
  fPosition : Z;        (* std::uint64_t *)
  fBytesOnStorage : Z;  (* std::uint32_t *)
  fUrl : list Z;        (* std::string *)
}.

Definition SerializeLocator (locator : RNTupleLocator) (buffer : Z) : M Z :=
  let size := 0 in
  match fUrl locator with
  | _ :: _ =>
      let len := Z.of_nat (length (fUrl locator)) in
      if len >=? Z.shiftl 1 24 then throw locator_too_large else
      let head := to_int 32 len in
      let head := Z.lor head (Z.shiftl 0x02 24) in
      let head := to_int 32 (- head) in
      do n <- SerializeInt32 head buffer;
      let size := size + n in
      (if negb (buffer =? nullptr)
       then store_bytes (buffer + size) (fUrl locator) else ret tt);;
      let size := to_uint 32 (size + len) in
      ret size
  | [] =>
      if to_int 32 (fBytesOnStorage locator) <? 0
      then throw locator_too_large else
      do n <- SerializeUInt32 (fBytesOnStorage locator) buffer;
      let size := size + n in
      do n <- SerializeUInt64 (fPosition locator)
                (if negb (buffer =? nullptr) then buffer + size else nullptr);
      let size := size + n in
      ret size
  end.

Definition DeserializeLocator (buffer bufSize : Z) : M (Z * RNTupleLocator) :=
  if bufSize <? 4 then throw too_short_locator else
  let bytes := buffer in
  do '(n, head) <- DeserializeInt32 bytes;
  let bytes := bytes + n in
  let bufSize := bufSize - 4 in
  do '(bytes, locator) <-
    (if head <? 0 then
       let head := to_int 32 (- head) in
       let type := Z.shiftr head 24 in
       if negb (type =? 0x02) then throw (unsupported_locator_type type) else
       let locatorSize := Z.land (to_uint 32 head) 0x00FFFFFF in
       if bufSize <? locatorSize then throw too_short_locator else
       do url <- load_bytes bytes (Z.to_nat locatorSize);
       ret (bytes + locatorSize,
            {| fPosition := 0; fBytesOnStorage := 0; fUrl := url |})
     else
       if bufSize <? 8 then throw too_short_locator else
       do '(n, offset) <- DeserializeUInt64 bytes;
       ret (bytes + n,
            {| fPosition := offset; fBytesOnStorage := to_uint 32 head;
               fUrl := [] |}));
  ret (to_uint 32 (bytes - buffer), locator).

(** ** Cluster summary *)

Record RClusterSummary : Type := {
  fFirstEntry : Z;     (* std::uint64_t *)
  fNEntries : Z;       (* std::uint64_t *)
  fColumnGroupID : Z;  (* std::int32_t, -1 for "all columns" *)
}.

Definition SerializeClusterSummary (clusterSummary : RClusterSummary)
    (buffer : Z) : M Z :=
  let base := buffer in
  let pos := base in
  let frame := pos in
  do n <- SerializeRecordFramePreamble (where_ buffer pos);
  let pos := pos + n in
  do n <- SerializeUInt64 (fFirstEntry clusterSummary) (where_ buffer pos);
  let pos := pos + n in
  do pos <-
    (if fColumnGroupID clusterSummary >=? 0 then
       do n <- SerializeInt64
                 (to_int 64 (- to_int 64 (fNEntries clusterSummary)))
                 (where_ buffer pos);
       let pos := pos + n in
       do n <- SerializeUInt32 (to_uint 32 (fColumnGroupID clusterSummary))
                 (where_ buffer pos);
       ret (pos + n)
     else
       do n <- SerializeInt64 (to_int 64 (fNEntries clusterSummary))
                 (where_ buffer pos);
       ret (pos + n));
  let size := pos - frame in
  do n <- SerializeFramePostscript frame (to_int 32 size);
  let pos := pos + n in
  ret (to_uint 32 size).

Definition DeserializeClusterSummary (buffer bufSize : Z)
    : M (Z * RClusterSummary) :=
  let bytes := buffer in
  do '(frameHdrSize, frameSize) <- DeserializeFrame' bytes bufSize;
  let bytes := bytes + frameHdrSize in
  let bufSize := to_uint 32 (frameSize - frameHdrSize) in
  if bufSize <? 2 * 8 then throw too_short_cluster_summary else
  do '(n, firstEntry) <- DeserializeUInt64 bytes;
  let bytes := bytes + n in
  let bufSize := to_uint 32 (bufSize - 8) in
  do '(n, nEntries) <- DeserializeInt64 bytes;
  let bytes := bytes + n in
  let bufSize := to_uint 32 (bufSize - 8) in
  do clusterSummary <-
    (if nEntries <? 0 then
       if bufSize <? 4 then throw too_short_cluster_summary else
       do '(n, columnGroupID) <- DeserializeUInt32 bytes;
       ret {| fFirstEntry := firstEntry;
              fNEntries := to_uint 64 (- nEntries);
              fColumnGroupID := to_int 32 columnGroupID |}
     else
       ret {| fFirstEntry := firstEntry;
              fNEntries := to_uint 64 nEntries;
              fColumnGroupID := -1 |});
  ret (frameSize, clusterSummary).

(** ** Serialization context ([RNTupleSerializer::RContext]) *)

Record REnvelopeLink : Type := {
  fUnzippedSize : Z;
  fLocator : RNTupleLocator;
}.

Record RClusterGroup : Type := {
  fNClusters : Z;
  fPageListEnvelopeLink : REnvelopeLink;
}.

Record RContext : Type := {
  fHeaderSize : Z;
  fHeaderCrc32 : Z;
  fClusterGroups : list RClusterGroup;
  fMem2PhysFieldIDs : gmap Z Z;
  fMem2PhysColumnIDs : gmap Z Z;
  fMem2PhysClusterIDs : gmap Z Z;
  fPhys2MemFieldIDs : list Z;
  fPhys2MemColumnIDs : list Z;
  fPhys2MemClusterIDs : list Z;
}.

(** The default-constructed context. *)
Definition RContext_new : RContext :=
  {| fHeaderSize := 0; fHeaderCrc32 := 0; fClusterGroups := [];
     fMem2PhysFieldIDs := ∅; fMem2PhysColumnIDs := ∅;
     fMem2PhysClusterIDs := ∅;
     fPhys2MemFieldIDs := []; fPhys2MemColumnIDs := [];
     fPhys2MemClusterIDs := [] |}.

Definition SetHeaderSize (size : Z) (c : RContext) : RContext :=
  {| fHeaderSize := size; fHeaderCrc32 := fHeaderCrc32 c;
     fClusterGroups := fClusterGroups c;
     fMem2PhysFieldIDs := fMem2PhysFieldIDs c;
     fMem2PhysColumnIDs := fMem2PhysColumnIDs c;
     fMem2PhysClusterIDs := fMem2PhysClusterIDs c;
     fPhys2MemFieldIDs := fPhys2MemFieldIDs c;
     fPhys2MemColumnIDs := fPhys2MemColumnIDs c;
     fPhys2MemClusterIDs := fPhys2MemClusterIDs c |}.

Definition SetHeaderCRC32 (crc32 : Z) (c : RContext) : RContext :=
  {| fHeaderSize := fHeaderSize c; fHeaderCrc32 := crc32;
     fClusterGroups := fClusterGroups c;
     fMem2PhysFieldIDs := fMem2PhysFieldIDs c;
     fMem2PhysColumnIDs := fMem2PhysColumnIDs c;
     fMem2PhysClusterIDs := fMem2PhysClusterIDs c;
     fPhys2MemFieldIDs := fPhys2MemFieldIDs c;
     fPhys2MemColumnIDs := fPhys2MemColumnIDs c;
     fPhys2MemClusterIDs := fPhys2MemClusterIDs c |}.

(** [MapFieldId] returns the new physical ID and the updated context. *)
Definition MapFieldId (memId : Z) (c : RContext) : Z * RContext :=
  let physId := Z.of_nat (length (fPhys2MemFieldIDs c)) in
  (physId,
   {| fHeaderSize := fHeaderSize c; fHeaderCrc32 := fHeaderCrc32 c;
      fClusterGroups := fClusterGroups c;
      fMem2PhysFieldIDs := <[memId := physId]> (fMem2PhysFieldIDs c);
      fMem2PhysColumnIDs := fMem2PhysColumnIDs c;
      fMem2PhysClusterIDs := fMem2PhysClusterIDs c;
      fPhys2MemFieldIDs := fPhys2MemFieldIDs c ++ [memId];
      fPhys2MemColumnIDs := fPhys2MemColumnIDs c;
      fPhys2MemClusterIDs := fPhys2MemClusterIDs c |}).

Definition MapColumnId (memId : Z) (c : RContext) : Z * RContext :=
  let physId := Z.of_nat (length (fPhys2MemColumnIDs c)) in
  (physId,
   {| fHeaderSize := fHeaderSize c; fHeaderCrc32 := fHeaderCrc32 c;
      fClusterGroups := fClusterGroups c;
      fMem2PhysFieldIDs := fMem2PhysFieldIDs c;
      fMem2PhysColumnIDs := <[memId := physId]> (fMem2PhysColumnIDs c);
      fMem2PhysClusterIDs := fMem2PhysClusterIDs c;
      fPhys2MemFieldIDs := fPhys2MemFieldIDs c;
      fPhys2MemColumnIDs := fPhys2MemColumnIDs c ++ [memId];
      fPhys2MemClusterIDs := fPhys2MemClusterIDs c |}).

(** [std::map::at] throws [std::out_of_range] on a missing key. *)
Definition GetPhysFieldId (memId : Z) (c : RContext) : M Z :=
  match fMem2PhysFieldIDs c !! memId with
  | Some physId => ret physId
  | None => throw std_out_of_range
  end.

Definition GetPhysColumnId (memId : Z) (c : RContext) : M Z :=
  match fMem2PhysColumnIDs c !! memId with
  | Some physId => ret physId
  | None => throw std_out_of_range
  end.

(** ** The descriptor, as far as the header serializer reads it

    [RNTupleDescriptor], [RFieldDescriptor] and [RColumnDescriptor] are
    declared in RNTupleDescriptor.hxx, which is not part of this file.  The
    records hold the results of the accessors the serializer calls. *)
Record RFieldDescriptor : Type := {
  GetId : Z;                       (* DescriptorId_t *)
  GetFieldVersion : Z;             (* GetFieldVersion().GetVersionUse() *)
  GetTypeVersion : Z;              (* GetTypeVersion().GetVersionUse() *)
  GetStructure : ENTupleStructure;
  GetNRepetitions : Z;             (* std::uint64_t *)
  GetFieldName : list Z;
  GetTypeName : list Z;
  GetFieldDescription : list Z;
}.

Record RColumnDescriptor : Type := {
  GetColumnId : Z;                 (* c.GetId() *)
  GetType : EColumnType;           (* c.GetModel().GetType() *)
  GetIsSorted : bool;              (* c.GetModel().GetIsSorted() *)
  GetFieldId : Z;                  (* c.GetFieldId() *)
}.

Record RNTupleDescriptor : Type := {
  GetName : list Z;
  GetDescription : list Z;
  GetFieldZeroId : Z;
  GetNFields : Z;
  GetNColumns : Z;
  GetFieldIterable : Z -> list RFieldDescriptor;
  GetColumnIterable : Z -> list RColumnDescriptor;
}.

(** ** Header: fields *)

(** The body of the [for] loop of [SerializeFieldsV1] up to the frame
    postscript; returns the updated running [size]. *)
Definition SerializeFieldsV1_body (f : RFieldDescriptor)
    (physParentId buffer size : Z) : M Z :=
  let base := buffer in (* (buffer != nullptr) ? buffer : 0 *)
  let pos := base in
  do n <- SerializeRecordFramePreamble (where_ buffer pos);
  let pos := pos + n in
  do n <- SerializeUInt32 (GetFieldVersion f) (where_ buffer pos);
  let pos := pos + n in
  do n <- SerializeUInt32 (GetTypeVersion f) (where_ buffer pos);
  let pos := pos + n in
  do n <- SerializeUInt32 (to_uint 32 physParentId) (where_ buffer pos);
  let pos := pos + n in
  do n <- SerializeFieldStructure (GetStructure f) (where_ buffer pos);
  let pos := pos + n in
  do pos <-
    (if GetNRepetitions f >? 0 then
       do n <- SerializeUInt16 kFlagRepetitiveField (where_ buffer pos);
       let pos := pos + n in
       do n <- SerializeUInt64 (GetNRepetitions f) (where_ buffer pos);
       ret (pos + n)
     else
       do n <- SerializeUInt16 0 (where_ buffer pos);
       ret (pos + n));
  do n <- SerializeString (GetFieldName f) (where_ buffer pos);
  let pos := pos + n in
  do n <- SerializeString (GetTypeName f) (where_ buffer pos);
  let pos := pos + n in
  do n <- SerializeString [] (* type alias *) (where_ buffer pos);
  let pos := pos + n in
  do n <- SerializeString (GetFieldDescription f) (where_ buffer pos);
  let pos := pos + n in
  let size := to_uint 32 (size + (pos - base)) in
  do n <- SerializeFramePostscript base (to_int 32 size);
  let pos := pos + n in
  ret size.

Fixpoint SerializeFieldsV1_for (fs : list RFieldDescriptor)
    (physParentId buffer size : Z) (idQueue : list Z) : M (Z * list Z) :=
  match fs with
  | [] => ret (size, idQueue)
  | f :: fs' =>
      do size <- SerializeFieldsV1_body f physParentId buffer size;
      let idQueue := idQueue ++ [GetId f] in
      SerializeFieldsV1_for fs' physParentId buffer size idQueue
  end.

(** The [while (!idQueue.empty())] loop; one unit of [fuel] per dequeued
    field. *)
Fixpoint SerializeFieldsV1_while (fuel : nat) (desc : RNTupleDescriptor)
    (context : RContext) (buffer : Z) (idQueue : list Z) (size : Z)
    : M (Z * RContext) :=
  match idQueue with
  | [] => ret (size, context)
  | parentId :: idQueue =>
      match fuel with
      | O => fun _ => OutOfFuel
      | S fuel' =>
          let '(physParentId, context) := MapFieldId parentId context in
          do '(size, idQueue) <-
            SerializeFieldsV1_for (GetFieldIterable desc parentId)
              physParentId buffer size idQueue;
          SerializeFieldsV1_while fuel' desc context buffer idQueue size
      end
  end.

Definition SerializeFieldsV1 (fuel : nat) (desc : RNTupleDescriptor)
    (context : RContext) (buffer : Z) : M (Z * RContext) :=
  let idQueue := [GetFieldZeroId desc] in
  let size := 0 in
  SerializeFieldsV1_while fuel desc context buffer idQueue size.

(** ** Header: columns, envelope *)

Section External.

(** [RColumnElementBase::GetBitsOnStorage] and the checksum [R__crc32]
    ([unsigned long R__crc32(unsigned long, const unsigned char *, unsigned)],
    RZip.h) are not part of this file; the codec is parametric in them.
    [R__crc32 crc data] stands for the call on the bytes [data]. *)
Variable GetBitsOnStorage : EColumnType -> Z.
Variable R__crc32 : Z -> list Z -> Z.

Definition SerializeColumnsV1_body (c : RColumnDescriptor)
    (context : RContext) (buffer size : Z) : M (Z * RContext) :=
  let base := buffer in
  let pos := base in
  do n <- SerializeRecordFramePreamble (where_ buffer pos);
  let pos := pos + n in
  let type := GetType c in
  do n <- SerializeColumnType type (where_ buffer pos);
  let pos := pos + n in
  do n <- SerializeUInt16 (to_uint 16 (GetBitsOnStorage type))
            (where_ buffer pos);
  let pos := pos + n in
  do physId <- GetPhysColumnId (GetFieldId c) context;
  do n <- SerializeUInt32 (to_uint 32 physId) (where_ buffer pos);
  let pos := pos + n in
  let flags := 0 in
  let flags := if GetIsSorted c then Z.lor flags kFlagSortAscColumn
               else flags in
  let flags := match type with
               | kIndex => Z.lor flags kFlagNonNegativeColumn
               | _ => flags
               end in
  do n <- SerializeUInt32 flags (where_ buffer pos);
  let pos := pos + n in
  let size := to_uint 32 (size + (pos - base)) in
  do n <- SerializeFramePostscript base (to_int 32 size);
  let pos := pos + n in
  let '(_, context) := MapColumnId (GetColumnId c) context in
  ret (size, context).

Fixpoint SerializeColumnsV1_for (cs : list RColumnDescriptor)
    (context : RContext) (buffer size : Z) : M (Z * RContext) :=
  match cs with
  | [] => ret (size, context)
  | c :: cs' =>
      do '(size, context) <- SerializeColumnsV1_body c context buffer size;
      SerializeColumnsV1_for cs' context buffer size
  end.

Fixpoint SerializeColumnsV1_while (fuel : nat) (desc : RNTupleDescriptor)
    (context : RContext) (buffer : Z) (idQueue : list Z) (size : Z)
    : M (Z * RContext) :=
  match idQueue with
  | [] => ret (size, context)
  | parentId :: idQueue =>
      match fuel with
      | O => fun _ => OutOfFuel
      | S fuel' =>
          do '(size, context) <-
            SerializeColumnsV1_for (GetColumnIterable desc parentId)
              context buffer size;
          let idQueue :=
            idQueue ++ map GetId (GetFieldIterable desc parentId) in
          SerializeColumnsV1_while fuel' desc context buffer idQueue size
      end
  end.

Definition SerializeColumnsV1 (fuel : nat) (desc : RNTupleDescriptor)
    (context : RContext) (buffer : Z) : M (Z * RContext) :=
  let idQueue := [GetFieldZeroId desc] in
  let size := 0 in
  SerializeColumnsV1_while fuel desc context buffer idQueue size.

Definition SerializeCRC32 (data length buffer : Z) : M Z :=
  (if negb (buffer =? nullptr) then
     let checksum := R__crc32 0 [] in
     do bytes <- load_bytes data (Z.to_nat length);
     let checksum := R__crc32 checksum bytes in
     SerializeUInt32 (to_uint 32 checksum) buffer;; ret tt
   else ret tt);;
  ret 4.

Definition VerifyCRC32 (data length : Z) : M unit :=
  let checksumReal := R__crc32 0 [] in
  do bytes <- load_bytes data (Z.to_nat length);
  let checksumReal := R__crc32 checksumReal bytes in
  do '(_, checksumFound) <- DeserializeUInt32 (data + length);
  if negb (checksumFound =? checksumReal)
  then throw crc32_checksum_mismatch
  else ret tt.

Definition SerializeEnvelopePreamble (buffer : Z) : M Z :=
  let base := buffer in
  let pos := base in
  do n <- SerializeUInt16 kEnvelopeCurrentVersion (where_ buffer pos);
  let pos := pos + n in
  do n <- SerializeUInt16 kEnvelopeMinVersion (where_ buffer pos);
  let pos := pos + n in
  ret (to_uint 32 (pos - base)).

Definition SerializeEnvelopePostscript (envelope size buffer : Z) : M Z :=
  SerializeCRC32 envelope size buffer.

Definition DeserializeEnvelope (buffer bufSize : Z) : M Z :=
  if bufSize <? 2 * 2 + 4 then throw invalid_envelope_too_short else
  let bytes := buffer in
  VerifyCRC32 bytes (to_uint 32 (bufSize - 4));;
  do '(n, protocolVersionAtWrite) <- DeserializeUInt16 bytes;
  let bytes := bytes + n in
  (* RNTuple compatible back to version 1 (but not to version 0) *)
  if protocolVersionAtWrite <? 1 then throw format_too_old else
  do '(n, protocolVersionMinRequired) <- DeserializeUInt16 bytes;
  let bytes := bytes + n in
  if protocolVersionMinRequired >? kEnvelopeCurrentVersion
  then throw (format_too_new protocolVersionMinRequired)
  else ret (2 + 2).

Definition ExtractEnvelopeCRC32 (data bufSize : Z) : M Z :=
  if bufSize <? 2 * 2 + 4 then throw invalid_envelope_too_short else
  let bytes := data in
  do '(_, crc32) <- DeserializeUInt32 (bytes + bufSize - 4);
  ret crc32.

Definition SerializeHeaderV1 (fuel : nat) (buffer : Z)
    (desc : RNTupleDescriptor) : M RContext :=
  let context := RContext_new in
  let base := buffer in
  let pos := base in
  do n <- SerializeEnvelopePreamble (where_ buffer pos);
  let pos := pos + n in
  (* So far we don't make use of feature flags *)
  do n <- SerializeFeatureFlags [] (where_ buffer pos);
  let pos := pos + n in
  do n <- SerializeString (GetName desc) (where_ buffer pos);
  let pos := pos + n in
  do n <- SerializeString (GetDescription desc) (where_ buffer pos);
  let pos := pos + n in

  let frame := pos in
  do n <- SerializeListFramePreamble (to_uint 32 (GetNFields desc))
            (where_ buffer pos);
  let pos := pos + n in
  (* the byte count returned by SerializeFieldsV1 is dropped *)
  do '(_, context) <- SerializeFieldsV1 fuel desc context (where_ buffer pos);
  do n <- SerializeFramePostscript frame (to_int 32 (pos - frame));
  let pos := pos + n in

  let frame := pos in
  do n <- SerializeListFramePreamble (to_uint 32 (GetNColumns desc))
            (where_ buffer pos);
  let pos := pos + n in
  do '(n, context) <- SerializeColumnsV1 fuel desc context (where_ buffer pos);
  let pos := pos + n in
  do n <- SerializeFramePostscript frame (to_int 32 (pos - frame));
  let pos := pos + n in

  (* We don't use alias columns yet *)
  let frame := pos in
  do n <- SerializeListFramePreamble 0 (where_ buffer pos);
  let pos := pos + n in
  do n <- SerializeFramePostscript frame (to_int 32 (pos - frame));
  let pos := pos + n in

  let size := to_uint 32 (pos - base) in
  do n <- SerializeEnvelopePostscript base size (where_ buffer pos);
  let pos := pos + n in

  let context := SetHeaderSize size context in
  do context <-
    (if negb (buffer =? nullptr) then
       do crc <- ExtractEnvelopeCRC32 base size;
       ret (SetHeaderCRC32 crc context)
     else ret context);
  ret context.

End External.

(** The standard CRC-32 (reflected polynomial 0xEDB88320), to instantiate
    [R__crc32] in closed examples. *)
Definition crc32_bit (c : Z) : Z :=
  if Z.testbit c 0 then Z.lxor (Z.shiftr c 1) 0xEDB88320 else Z.shiftr c 1.
Definition crc32_byte (c b : Z) : Z :=
  Nat.iter 8 crc32_bit (Z.lxor c (Z.land b 0xFF)).
Definition crc32_ieee (crc : Z) (data : list Z) : Z :=
  Z.lxor (fold_left crc32_byte data (Z.lxor crc 0xFFFFFFFF)) 0xFFFFFFFF.

(** ** Reading and writing byte ranges: the algebra used by the proofs *)

Fixpoint peek (p : Z) (n : nat) (m : heap) : option (list Z) :=
  match n with
  | O => Some []
  | S n' => match m !! p with
            | Some b => option_map (cons b) (peek (p + 1) n' m)
            | None => None
            end
  end.

Fixpoint poke (p : Z) (bs : list Z) (m : heap) : heap :=
  match bs with
  | [] => m
  | b :: bs' => poke (p + 1) bs' (<[p := b]> m)
  end.

(** Little-endian digits of [v] and the value of a digit list. *)
Fixpoint le_bytes (n : nat) (v : Z) : list Z :=
  match n with
  | O => []
  | S n' => v mod 256 :: le_bytes n' (v / 256)
  end.
Fixpoint le_val (bs : list Z) : Z :=
  match bs with
  | [] => 0
  | b :: bs' => b + 256 * le_val bs'
  end.

(** Serialising [v], with a null and with a real buffer, reports [width]
    bytes, and deserialising the emitted bytes gives [v] back. *)
Definition int_round_trip (ser : Z -> Z -> M Z) (deser : Z -> M (Z * Z))
    (width v buffer : Z) (m : heap) : Prop :=
  ser v nullptr m = Ok (width, m) /\
  exists m', ser v buffer m = Ok (width, m') /\
             deser buffer m' = Ok ((width, v), m').

(** A boolean check of [allocated], for concrete heaps. *)
Definition allocated_b (m : heap) (p : Z) (n : nat) : bool :=
  forallb (fun i => bool_decide (is_Some (m !! (p + Z.of_nat i)))) (seq 0 n).

(** A list frame of 8 bytes whose [nitems] word has only bit 28 set. *)
Definition frame_nitems_bit28 : heap :=
  poke 100 [0xF8; 0xFF; 0xFF; 0xFF; 0x00; 0x00; 0x00; 0x10] ∅.

(** An envelope: preamble, a 4-byte zero payload, CRC-32 of those 8 bytes. *)
Definition envelope_bytes (atWrite minRequired : Z) : list Z :=
  let body := le_bytes 2 atWrite ++ le_bytes 2 minRequired ++ [0; 0; 0; 0] in
  body ++ le_bytes 4 (crc32_ieee (crc32_ieee 0 []) body).
Definition envelope_heap (atWrite minRequired : Z) : heap :=
  poke 100 (envelope_bytes atWrite minRequired) ∅.

(** The bytes of a feature-flag stream: every flag but the last negated. *)
Fixpoint flag_bytes (flags : list Z) : list Z :=
  match flags with
  | [] => []
  | f :: rest =>
      match rest with
      | [] => le_bytes 8 f
      | _ :: _ => le_bytes 8 (- f) ++ flag_bytes rest
      end
  end.

(** Flags that survive the sign-continuation stream and the [int]
    magnitude of the reader: values below [2^31], strictly positive in
    every position but the last. *)
Fixpoint continuable (flags : list Z) : Prop :=
  match flags with
  | [] => True
  | f :: rest =>
      match rest with
      | [] => 0 <= f < 2 ^ 31
      | _ :: _ => 0 < f < 2 ^ 31 /\ continuable rest
      end
  end.

(** The record frame of a cluster summary, in the words of the format:
    frame size, first entry, then the entry count negated and followed by
    the column group when there is one, and verbatim otherwise. *)
Definition cluster_summary_bytes (cs : RClusterSummary) : list Z :=
  if fColumnGroupID cs >=? 0
  then le_bytes 4 24 ++ le_bytes 8 (fFirstEntry cs)
       ++ le_bytes 8 (- fNEntries cs) ++ le_bytes 4 (fColumnGroupID cs)
  else le_bytes 4 20 ++ le_bytes 8 (fFirstEntry cs)
       ++ le_bytes 8 (fNEntries cs).

(** ** Sizes, in the words of the format *)

(** Bytes of one field record: frame head, field version, type version,
    parent ID, structure, flags (and repetition count), four strings. *)
Definition field_record_size (f : RFieldDescriptor) : Z :=
  4 + 4 + 4 + 4 + 2
  + (if GetNRepetitions f >? 0 then 2 + 8 else 2)
  + (4 + Z.of_nat (length (GetFieldName f)))
  + (4 + Z.of_nat (length (GetTypeName f)))
  + 4
  + (4 + Z.of_nat (length (GetFieldDescription f))).

(** Bytes of one column record: frame head, type, bits, field ID, flags. *)
Definition column_record_size : Z := 4 + 2 + 2 + 4 + 4.

Definition sum_list (l : list Z) : Z := foldr Z.add 0 l.

(** The length of the header envelope contents as the format describes
    them: preamble, feature flags, name, description, the list frame of the
    field records, the list frame of the column records, the empty list
    frame of alias columns. *)
Definition header_contents_size (desc : RNTupleDescriptor)
    (fields : list RFieldDescriptor) (columns : list RColumnDescriptor) : Z :=
  4 + 8
  + (4 + Z.of_nat (length (GetName desc)))
  + (4 + Z.of_nat (length (GetDescription desc)))
  + (8 + sum_list (map field_record_size fields))
  + (8 + column_record_size * Z.of_nat (length columns))
  + 8.

(** ** Small descriptors *)

Definition leaf_field (id : Z) (name : list Z) : RFieldDescriptor :=
  {| GetId := id; GetFieldVersion := 0; GetTypeVersion := 0;
     GetStructure := kLeaf; GetNRepetitions := 0;
     GetFieldName := name; GetTypeName := []; GetFieldDescription := [] |}.

(** Field zero (ID 0) with the single child "a" (ID 1); no columns. *)
Definition one_field_desc : RNTupleDescriptor :=
  {| GetName := [110]; GetDescription := [];
     GetFieldZeroId := 0; GetNFields := 2; GetNColumns := 0;
     GetFieldIterable := fun id =>
       if id =? 0 then [leaf_field 1 [97]] else [];
     GetColumnIterable := fun _ => [] |}.

(** Field zero (ID 0) with the children "a" (ID 1) and "bc" (ID 2). *)
Definition two_field_desc : RNTupleDescriptor :=
  {| GetName := [110]; GetDescription := [];
     GetFieldZeroId := 0; GetNFields := 3; GetNColumns := 0;
     GetFieldIterable := fun id =>
       if id =? 0 then [leaf_field 1 [97]; leaf_field 2 [98; 99]] else [];
     GetColumnIterable := fun _ => [] |}.

(** Field zero (ID 0) with the children "a" (ID 10) and "b" (ID 20); "a"
    has the child "c" (ID 30).  Depth-first order would visit 30 before
    20. *)
Definition three_level_desc : RNTupleDescriptor :=
  {| GetName := [110]; GetDescription := [];
     GetFieldZeroId := 0; GetNFields := 4; GetNColumns := 0;
     GetFieldIterable := fun id =>
       if id =? 0 then [leaf_field 10 [97]; leaf_field 20 [98]]
       else if id =? 10 then [leaf_field 30 [99]]
       else [];
     GetColumnIterable := fun _ => [] |}.

(** ** Breadth-first order, level by level *)

Definition child_ids (desc : RNTupleDescriptor) (id : Z) : list Z :=
  map GetId (GetFieldIterable desc id).

(** The fields [depth] levels below [level]. *)
Fixpoint nth_level (desc : RNTupleDescriptor) (depth : nat) (level : list Z)
    : list Z :=
  match depth with
  | O => level
  | S d => nth_level desc d (flat_map (child_ids desc) level)
  end.

(** The first [depth] levels, one after the other, each in descriptor
    order. *)
Fixpoint level_order (desc : RNTupleDescriptor) (depth : nat)
    (level : list Z) : list Z :=
  match depth with
  | O => []
  | S d => level ++ level_order desc d (flat_map (child_ids desc) level)
  end.

(** The traversal driven by a queue, on IDs alone. *)
Fixpoint queue_order (fuel : nat) (desc : RNTupleDescriptor)
    (idQueue : list Z) : option (list Z) :=
  match idQueue with
  | [] => Some []
  | parentId :: idQueue =>
      match fuel with
      | O => None
      | S fuel' =>
          option_map (cons parentId)
            (queue_order fuel' desc (idQueue ++ child_ids desc parentId))
      end
  end.

(** The context after mapping the fields [ids] one after the other. *)
Definition map_fields (context : RContext) (ids : list Z) : RContext :=
  foldl (fun c id => snd (MapFieldId id c)) context ids.

(** The fields whose records are emitted while visiting [ids]. *)
Definition emitted_fields (desc : RNTupleDescriptor) (ids : list Z)
    : list RFieldDescriptor :=
  flat_map (GetFieldIterable desc) ids.

(** [context] has given the fields [order] the physical IDs
    0, 1, ..., in this order, and nothing else. *)
Definition assigns (context : RContext) (order : list Z) : Prop :=
  fPhys2MemFieldIDs context = order /\
  forall (i : nat) (id : Z),
    order !! i = Some id ->
    fMem2PhysFieldIDs context !! id = Some (Z.of_nat i).

(** ** Enum codec, read path *)

Definition DeserializeColumnType (buffer : Z) : M (Z * EColumnType) :=
  do '(result, onDiskType) <- DeserializeUInt16 buffer;
  do type <-
    match onDiskType with
    | 0x02 => ret kIndex
    | 0x03 => ret kSwitch
    | 0x06 => ret kBit
    | 0x07 => ret kReal64
    | 0x08 => ret kReal32
    | 0x09 => ret kReal16
    | 0x0A => ret kInt64
    | 0x0B => ret kInt32
    | 0x0C => ret kInt16
    | 0x0D => ret kByte
    | _ => throw unexpected_on_disk_column_type
    end;
  ret (result, type).

Definition DeserializeFieldStructure (buffer : Z) : M (Z * ENTupleStructure) :=
  do '(result, onDiskValue) <- DeserializeUInt16 buffer;
  do structure <-
    match onDiskValue with
    | 0x00 => ret kLeaf
    | 0x01 => ret kCollection
    | 0x02 => ret kRecord
    | 0x03 => ret kVariant
    | 0x04 => ret kReference
    | _ => throw unexpected_on_disk_field_structure_value
    end;
  ret (result, structure).

(** The on-disk tags, as a table. *)
Definition column_type_tag (type : EColumnType) : option Z :=
  match type with
  | kIndex => Some 0x02 | kSwitch => Some 0x03 | kBit => Some 0x06
  | kReal64 => Some 0x07 | kReal32 => Some 0x08 | kReal16 => Some 0x09
  | kInt64 => Some 0x0A | kInt32 => Some 0x0B | kInt16 => Some 0x0C
  | kByte => Some 0x0D | kUnknownColumnType => None
  end.

Definition field_structure_tag (structure : ENTupleStructure) : option Z :=
  match structure with
  | kLeaf => Some 0x00 | kCollection => Some 0x01 | kRecord => Some 0x02
  | kVariant => Some 0x03 | kReference => Some 0x04
  | kUnknownStructure => None
  end.

(** ** Envelope links and cluster groups *)

Definition SerializeEnvelopeLink (envelopeLink : REnvelopeLink) (buffer : Z)
    : M Z :=
  do size <- SerializeUInt32 (fUnzippedSize envelopeLink) buffer;
  do n <- SerializeLocator (fLocator envelopeLink)
            (if negb (buffer =? nullptr) then buffer + size else nullptr);
  let size := to_uint 32 (size + n) in
  ret size.

Definition DeserializeEnvelopeLink (buffer bufSize : Z)
    : M (Z * REnvelopeLink) :=
  if bufSize <? 4 then throw too_short_locator else
  let bytes := buffer in
  do '(n, unzippedSize) <- DeserializeUInt32 bytes;
  let bytes := bytes + n in
  let bufSize := bufSize - 4 in
  do '(n, locator) <- DeserializeLocator bytes bufSize;
  let bytes := bytes + n in
  ret (to_uint 32 (bytes - buffer),
       {| fUnzippedSize := unzippedSize; fLocator := locator |}).

Definition SerializeClusterGroup (clusterGroup : RClusterGroup) (buffer : Z)
    : M Z :=
  let base := buffer in
  let pos := base in
  let frame := pos in
  do n <- SerializeRecordFramePreamble (where_ buffer pos);
  let pos := pos + n in
  do n <- SerializeUInt32 (fNClusters clusterGroup) (where_ buffer pos);
  let pos := pos + n in
  do n <- SerializeEnvelopeLink (fPageListEnvelopeLink clusterGroup)
            (where_ buffer pos);
  let pos := pos + n in
  let size := pos - frame in
  do n <- SerializeFramePostscript frame (to_int 32 size);
  let pos := pos + n in
  ret (to_uint 32 size).

Definition DeserializeClusterGroup (buffer bufSize : Z)
    : M (Z * RClusterGroup) :=
  let bytes := buffer in
  do '(frameHdrSize, frameSize) <- DeserializeFrame' bytes bufSize;
  let bytes := bytes + frameHdrSize in
  let bufSize := to_uint 32 (frameSize - frameHdrSize) in
  if bufSize <? 4 then throw too_short_cluster_group else
  do '(n, nClusters) <- DeserializeUInt32 bytes;
  let bytes := bytes + n in
  let bufSize := to_uint 32 (bufSize - 4) in
  do '(n, link) <- DeserializeEnvelopeLink bytes bufSize;
  ret (frameSize,
       {| fNClusters := nClusters; fPageListEnvelopeLink := link |}).

(** ** Serialization context: the remaining members *)

Definition GetHeaderCRC32 (c : RContext) : Z := fHeaderCrc32 c.

Definition AddClusterGroup (nClusters : Z) (pageListEnvelope : REnvelopeLink)
    (c : RContext) : RContext :=
  {| fHeaderSize := fHeaderSize c; fHeaderCrc32 := fHeaderCrc32 c;
     fClusterGroups :=
       fClusterGroups c
       ++ [{| fNClusters := nClusters;
              fPageListEnvelopeLink := pageListEnvelope |}];
     fMem2PhysFieldIDs := fMem2PhysFieldIDs c;
     fMem2PhysColumnIDs := fMem2PhysColumnIDs c;
     fMem2PhysClusterIDs := fMem2PhysClusterIDs c;
     fPhys2MemFieldIDs := fPhys2MemFieldIDs c;
     fPhys2MemColumnIDs := fPhys2MemColumnIDs c;
     fPhys2MemClusterIDs := fPhys2MemClusterIDs c |}.

Definition GetClusterGroups (c : RContext) : list RClusterGroup :=
  fClusterGroups c.

Definition MapClusterId (memId : Z) (c : RContext) : Z * RContext :=
  let physId := Z.of_nat (length (fPhys2MemClusterIDs c)) in
  (physId,
   {| fHeaderSize := fHeaderSize c; fHeaderCrc32 := fHeaderCrc32 c;
      fClusterGroups := fClusterGroups c;
      fMem2PhysFieldIDs := fMem2PhysFieldIDs c;
      fMem2PhysColumnIDs := fMem2PhysColumnIDs c;
      fMem2PhysClusterIDs := <[memId := physId]> (fMem2PhysClusterIDs c);
      fPhys2MemFieldIDs := fPhys2MemFieldIDs c;
      fPhys2MemColumnIDs := fPhys2MemColumnIDs c;
      fPhys2MemClusterIDs := fPhys2MemClusterIDs c ++ [memId] |}).

Definition GetPhysClusterId (memId : Z) (c : RContext) : M Z :=
  match fMem2PhysClusterIDs c !! memId with
  | Some physId => ret physId
  | None => throw std_out_of_range
  end.

(** [std::vector::operator[]] does not check its index; an index past the
    end is an access outside the vector's storage. *)
Definition GetMemFieldId (physId : Z) (c : RContext) : M Z :=
  match fPhys2MemFieldIDs c !! Z.to_nat physId with
  | Some memId => ret memId
  | None => throw invalid_memory_access
  end.

Definition GetMemColumnId (physId : Z) (c : RContext) : M Z :=
  match fPhys2MemColumnIDs c !! Z.to_nat physId with
  | Some memId => ret memId
  | None => throw invalid_memory_access
  end.

Definition GetMemClusterId (physId : Z) (c : RContext) : M Z :=
  match fPhys2MemClusterIDs c !! Z.to_nat physId with
  | Some memId => ret memId
  | None => throw invalid_memory_access
  end.

(** ** Vocabulary of the further properties *)

(** [m'] is [m] with the [w] low-order bytes of [v] stored at [p], least
    significant first, and nothing else changed. *)
Definition little_endian_at (w v p : Z) (m m' : heap) : Prop :=
  (forall i, 0 <= i < w ->
             m' !! (p + i) = Some ((v / 256 ^ i) mod 256)) /\
  (forall a, ~ (p <= a < p + w) -> m' !! a = m !! a).

Definition is_byte (b : Z) : Prop := 0 <= b < 256.

(** The bytes of a locator, an envelope link and a cluster group, in the
    words of the format. *)
Definition locator_bytes (locator : RNTupleLocator) : list Z :=
  match fUrl locator with
  | [] => le_bytes 4 (fBytesOnStorage locator)
          ++ le_bytes 8 (fPosition locator)
  | _ :: _ =>
      le_bytes 4 (- (2 ^ 25 + Z.of_nat (length (fUrl locator))))
      ++ fUrl locator
  end.

Definition envelope_link_bytes (link : REnvelopeLink) : list Z :=
  le_bytes 4 (fUnzippedSize link) ++ locator_bytes (fLocator link).

Definition cluster_group_bytes (group : RClusterGroup) : list Z :=
  let link := envelope_link_bytes (fPageListEnvelopeLink group) in
  le_bytes 4 (8 + Z.of_nat (length link))
  ++ le_bytes 4 (fNClusters group) ++ link.

(** Locators that the format can carry without loss: inline ones whose
    bytes-on-storage fits 31 bits, and URL ones (URL below [2^24] bytes)
    whose position and bytes-on-storage are 0. *)
Definition storable_locator (locator : RNTupleLocator) : Prop :=
  match fUrl locator with
  | [] => 0 <= fBytesOnStorage locator < 2 ^ 31 /\
          in_uint 64 (fPosition locator)
  | _ :: _ => Z.of_nat (length (fUrl locator)) < 2 ^ 24 /\
              Forall is_byte (fUrl locator) /\
              fPosition locator = 0 /\ fBytesOnStorage locator = 0
  end.

(** Locators that [SerializeLocator] accepts: inline ones whose
    bytes-on-storage is below [2^31], and URL ones whose URL is shorter
    than [2^24] bytes (its characters being bytes).  Position and
    bytes-on-storage of a URL locator are not looked at. *)
Definition writable_locator (locator : RNTupleLocator) : Prop :=
  match fUrl locator with
  | [] => 0 <= fBytesOnStorage locator < 2 ^ 31
  | _ :: _ => Z.of_nat (length (fUrl locator)) < 2 ^ 24 /\
              Forall is_byte (fUrl locator)
  end.

(** The context after mapping the clusters [ids] one after the other. *)
Definition map_clusters (context : RContext) (ids : list Z) : RContext :=
  foldl (fun c id => snd (MapClusterId id c)) context ids.


(** Field zero (ID 0) with the single child "a" (ID 1), which has one
    32-bit integer column (ID 0). *)
Definition one_column_desc : RNTupleDescriptor :=
  {| GetName := [110]; GetDescription := [];
     GetFieldZeroId := 0; GetNFields := 2; GetNColumns := 1;
     GetFieldIterable := fun id =>
       if id =? 0 then [leaf_field 1 [97]] else [];
     GetColumnIterable := fun id =>
       if id =? 1 then
         [{| GetColumnId := 0; GetType := kInt32; GetIsSorted := false;
             GetFieldId := 1 |}]
       else [] |}.

(** ** Footer *)

(** The members of [RClusterDescriptor::RPageRange::RPageInfo],
    [RClusterDescriptor::RPageRange] and [RClusterDescriptor] that the
    serializer reads. *)
Module RPageInfo.
Record t : Type := {
  fNElements : Z;             (* ClusterSize_t *)
  fLocator : RNTupleLocator;
}.
End RPageInfo.

Record RPageRange : Type := {
  fPageInfos : list RPageInfo.t;
}.

Record RClusterDescriptor : Type := {
  GetFirstEntryIndex : Z;           (* NTupleSize_t *)
  GetNEntries : Z;                  (* ClusterSize_t *)
  GetColumnIds : list Z;            (* in iteration order *)
  GetPageRange : Z -> RPageRange;
}.

(** [std::set<DescriptorId_t>] as the ascending list of its elements;
    [insert] keeps it ascending and free of duplicates. *)
Fixpoint set_insert (x : Z) (s : list Z) : list Z :=
  match s with
  | [] => [x]
  | y :: s' =>
      if x <? y then x :: s
      else if x =? y then s
      else y :: set_insert x s'
  end.

Section Footer.

(** [R__crc32] as above; [RNTupleDescriptor::GetNClusters] and
    [RNTupleDescriptor::GetClusterDescriptor] are declared outside this
    file, and the footer and the page list are parametric in them. *)
Variable R__crc32 : Z -> list Z -> Z.
Variable GetNClusters : RNTupleDescriptor -> Z.
Variable GetClusterDescriptor : RNTupleDescriptor -> Z -> RClusterDescriptor.

(** [for (unsigned int i = 0; i < nClusters; ++i)]: one unit of [fuel] per
    iteration; returns the cursor [pos]. *)
Fixpoint SerializeFooterV1_summaries (fuel : nat) (desc : RNTupleDescriptor)
    (context : RContext) (buffer nClusters i pos : Z) : M Z :=
  if i <? nClusters then
    match fuel with
    | O => fun _ => OutOfFuel
    | S fuel' =>
        do memId <- GetMemClusterId i context;
        let clusterDesc := GetClusterDescriptor desc memId in
        let summary :=
          {| fFirstEntry := GetFirstEntryIndex clusterDesc;
             fNEntries := GetNEntries clusterDesc;
             fColumnGroupID := -1 |} in
        do n <- SerializeClusterSummary summary (where_ buffer pos);
        let pos := pos + n in
        SerializeFooterV1_summaries fuel' desc context buffer nClusters
          (to_uint 32 (i + 1)) pos
    end
  else ret pos.

(** [for (unsigned int i = 0; i < nClusterGroups; ++i)] over
    [clusterGroups[i]]; returns the cursor [pos]. *)
Fixpoint SerializeFooterV1_groups (clusterGroups : list RClusterGroup)
    (buffer pos : Z) : M Z :=
  match clusterGroups with
  | [] => ret pos
  | clusterGroup :: rest =>
      do n <- SerializeClusterGroup clusterGroup (where_ buffer pos);
      let pos := pos + n in
      SerializeFooterV1_groups rest buffer pos
  end.

Definition SerializeFooterV1 (fuel : nat) (buffer : Z)
    (desc : RNTupleDescriptor) (context : RContext) : M unit :=
  let base := buffer in
  let pos := base in
  do n <- SerializeEnvelopePreamble (where_ buffer pos);
  let pos := pos + n in

  (* So far we don't make use of feature flags *)
  do n <- SerializeFeatureFlags [] (where_ buffer pos);
  let pos := pos + n in
  do n <- SerializeUInt32 (GetHeaderCRC32 context) (where_ buffer pos);
  let pos := pos + n in

  (* So far no support for extension headers *)
  let frame := pos in
  do n <- SerializeListFramePreamble 0 (where_ buffer pos);
  let pos := pos + n in
  do n <- SerializeFramePostscript frame (to_int 32 (pos - frame));
  let pos := pos + n in

  (* So far no support for shared clusters (no column groups) *)
  let frame := pos in
  do n <- SerializeListFramePreamble 0 (where_ buffer pos);
  let pos := pos + n in
  do n <- SerializeFramePostscript frame (to_int 32 (pos - frame));
  let pos := pos + n in

  (* Cluster summaries *)
  let nClusters := GetNClusters desc in
  let frame := pos in
  do n <- SerializeListFramePreamble (to_uint 32 nClusters)
            (where_ buffer pos);
  let pos := pos + n in
  do pos <- SerializeFooterV1_summaries fuel desc context buffer nClusters
              0 pos;
  do n <- SerializeFramePostscript frame (to_int 32 (pos - frame));
  let pos := pos + n in

  (* Cluster groups *)
  let clusterGroups := GetClusterGroups context in
  let nClusterGroups := Z.of_nat (length clusterGroups) in
  let frame := pos in
  do n <- SerializeListFramePreamble (to_uint 32 nClusterGroups)
            (where_ buffer pos);
  let pos := pos + n in
  do pos <- SerializeFooterV1_groups clusterGroups buffer pos;
  do n <- SerializeFramePostscript frame (to_int 32 (pos - frame));
  let pos := pos + n in

  (* So far no support for meta-data *)
  let frame := pos in
  do n <- SerializeListFramePreamble 0 (where_ buffer pos);
  let pos := pos + n in
  do n <- SerializeFramePostscript frame (to_int 32 (pos - frame));
  let pos := pos + n in

  let size := to_uint 32 (pos - base) in
  do n <- SerializeEnvelopePostscript R__crc32 base size (where_ buffer pos);
  let pos := pos + n in
  ret tt.

(** ** Clusters and page lists *)

(** [for (auto id : cluster.GetColumnIds())
       physColumnIds.insert(context.GetPhysClusterId(id));]
    in [SerializeClusterV1], and the same loop in [SerializePageListV1]. *)
Fixpoint InsertPhysColumnIds (columnIds : list Z) (context : RContext)
    (physColumnIds : list Z) : M (list Z) :=
  match columnIds with
  | [] => ret physColumnIds
  | id :: rest =>
      do physId <- GetPhysClusterId id context;
      InsertPhysColumnIds rest context (set_insert physId physColumnIds)
  end.

(** [for (const auto &pi : pageRange.fPageInfos)], in both functions;
    returns the cursor [pos]. *)
Fixpoint SerializePageInfos (pageInfos : list RPageInfo.t) (buffer pos : Z)
    : M Z :=
  match pageInfos with
  | [] => ret pos
  | pi :: rest =>
      do n <- SerializeUInt32 (to_uint 32 (RPageInfo.fNElements pi))
                (where_ buffer pos);
      let pos := pos + n in
      do n <- SerializeLocator (RPageInfo.fLocator pi) (where_ buffer pos);
      let pos := pos + n in
      SerializePageInfos rest buffer pos
  end.

(** [for (auto physId : physColumnIds)] of [SerializeClusterV1]. *)
Fixpoint SerializeClusterV1_for (physColumnIds : list Z)
    (cluster : RClusterDescriptor) (context : RContext) (buffer pos : Z)
    : M Z :=
  match physColumnIds with
  | [] => ret pos
  | physId :: rest =>
      do id <- GetMemClusterId physId context;
      let innerFrame := pos in
      do n <- SerializeListFramePreamble 0 (where_ buffer pos);
      let pos := pos + n in
      do pos <- SerializePageInfos (fPageInfos (GetPageRange cluster id))
                  buffer pos;
      do n <- SerializeFramePostscript innerFrame
                (to_int 32 (pos - innerFrame));
      let pos := pos + n in
      SerializeClusterV1_for rest cluster context buffer pos
  end.

Definition SerializeClusterV1 (buffer : Z) (cluster : RClusterDescriptor)
    (context : RContext) : M unit :=
  let base := buffer in
  let pos := base in
  do n <- SerializeEnvelopePreamble (where_ buffer pos);
  let pos := pos + n in
  let frame := pos in
  do n <- SerializeListFramePreamble 0 (where_ buffer pos);
  let pos := pos + n in

  (* Get an ordered set of physical column ids *)
  do physColumnIds <- InsertPhysColumnIds (GetColumnIds cluster) context [];
  do pos <- SerializeClusterV1_for physColumnIds cluster context buffer pos;

  do n <- SerializeFramePostscript frame (to_int 32 (pos - frame));
  let pos := pos + n in
  let size := to_uint 32 (pos - base) in
  do n <- SerializeEnvelopePostscript R__crc32 base size (where_ buffer pos);
  let pos := pos + n in
  ret tt.

(** [for (auto physId : physColumnIds)] of [SerializePageListV1]. *)
Fixpoint SerializePageListV1_columns (physColumnIds : list Z)
    (clusterDesc : RClusterDescriptor) (context : RContext) (buffer pos : Z)
    : M Z :=
  match physColumnIds with
  | [] => ret pos
  | physId :: rest =>
      do memId <- GetMemClusterId physId context;
      let innerFrame := pos in
      let pageRange := GetPageRange clusterDesc memId in
      do n <- SerializeListFramePreamble
                (to_uint 32 (Z.of_nat (length (fPageInfos pageRange))))
                (where_ buffer pos);
      let pos := pos + n in
      do pos <- SerializePageInfos (fPageInfos pageRange) buffer pos;
      do n <- SerializeFramePostscript innerFrame
                (to_int 32 (pos - innerFrame));
      let pos := pos + n in
      SerializePageListV1_columns rest clusterDesc context buffer pos
  end.

(** [for (auto clusterId : physClusterIDs)] of [SerializePageListV1]. *)
Fixpoint SerializePageListV1_clusters (physClusterIDs : list Z)
    (desc : RNTupleDescriptor) (context : RContext) (buffer pos : Z) : M Z :=
  match physClusterIDs with
  | [] => ret pos
  | clusterId :: rest =>
      do memId <- GetMemClusterId clusterId context;
      let clusterDesc := GetClusterDescriptor desc memId in
      (* Get an ordered set of physical column ids *)
      do physColumnIds <-
        InsertPhysColumnIds (GetColumnIds clusterDesc) context [];
      let outerFrame := pos in
      do n <- SerializeListFramePreamble
                (to_uint 32 (Z.of_nat (length physColumnIds)))
                (where_ buffer pos);
      let pos := pos + n in
      do pos <- SerializePageListV1_columns physColumnIds clusterDesc context
                  buffer pos;
      do n <- SerializeFramePostscript outerFrame
                (to_int 32 (pos - outerFrame));
      let pos := pos + n in
      SerializePageListV1_clusters rest desc context buffer pos
  end.

Definition SerializePageListV1 (buffer : Z) (desc : RNTupleDescriptor)
    (physClusterIDs : list Z) (context : RContext) : M unit :=
  let base := buffer in
  let pos := base in
  do n <- SerializeEnvelopePreamble (where_ buffer pos);
  let pos := pos + n in
  let topMostFrame := pos in
  do n <- SerializeListFramePreamble
            (to_uint 32 (Z.of_nat (length physClusterIDs)))
            (where_ buffer pos);
  let pos := pos + n in
  do pos <- SerializePageListV1_clusters physClusterIDs desc context buffer
              pos;
  do n <- SerializeFramePostscript topMostFrame
            (to_int 32 (pos - topMostFrame));
  let pos := pos + n in
  let size := to_uint 32 (pos - base) in
  do n <- SerializeEnvelopePostscript R__crc32 base size (where_ buffer pos);
  let pos := pos + n in
  ret tt.

(** The bytes of a closed list frame: negated size, item count, payload. *)
Definition closed_list_frame (nitems : Z) (payload : list Z) : list Z :=
  le_bytes 4 (- (8 + Z.of_nat (length payload)))
  ++ le_bytes 4 nitems ++ payload.

(** The cluster summaries of the footer: one per physical cluster ID below
    [GetNClusters], for all columns. *)
Definition footer_summaries (desc : RNTupleDescriptor) (context : RContext)
    : list RClusterSummary :=
  map (fun memId =>
         let clusterDesc := GetClusterDescriptor desc memId in
         {| fFirstEntry := GetFirstEntryIndex clusterDesc;
            fNEntries := GetNEntries clusterDesc;
            fColumnGroupID := -1 |})
      (take (Z.to_nat (GetNClusters desc)) (fPhys2MemClusterIDs context)).

(** The footer envelope without its checksum: preamble, feature flags,
    header checksum, then the list frames of extension headers (empty),
    column groups (empty), cluster summaries, cluster groups and meta-data
    (empty). *)
Definition footer_contents (desc : RNTupleDescriptor) (context : RContext)
    : list Z :=
  [1; 0; 1; 0] ++ le_bytes 8 0 ++ le_bytes 4 (fHeaderCrc32 context)
  ++ closed_list_frame 0 []
  ++ closed_list_frame 0 []
  ++ closed_list_frame (GetNClusters desc)
       (concat (map cluster_summary_bytes (footer_summaries desc context)))
  ++ closed_list_frame (Z.of_nat (length (fClusterGroups context)))
       (concat (map cluster_group_bytes (fClusterGroups context)))
  ++ closed_list_frame 0 [].

Definition footer_bytes (desc : RNTupleDescriptor) (context : RContext)
    : list Z :=
  footer_contents desc context
  ++ le_bytes 4 (R__crc32 (R__crc32 0 []) (footer_contents desc context)).

(** The bytes of one page (element count, locator) and of a page range. *)
Definition page_info_bytes (pi : RPageInfo.t) : list Z :=
  le_bytes 4 (RPageInfo.fNElements pi)
  ++ locator_bytes (RPageInfo.fLocator pi).

Definition page_range_bytes (pageRange : RPageRange) : list Z :=
  concat (map page_info_bytes (fPageInfos pageRange)).

(** The set that [InsertPhysColumnIds] builds: the column IDs looked up in
    the cluster-ID map, if all of them are keys of it. *)
Fixpoint phys_column_ids (context : RContext) (columnIds : list Z)
    (physColumnIds : list Z) : option (list Z) :=
  match columnIds with
  | [] => Some physColumnIds
  | id :: rest =>
      match fMem2PhysClusterIDs context !! id with
      | Some physId =>
          phys_column_ids context rest (set_insert physId physColumnIds)
      | None => None
      end
  end.

(** The entries of the cluster-ID vector at the indices [physIds], if all
    of them are in range. *)
Fixpoint mem_cluster_ids (context : RContext) (physIds : list Z)
    : option (list Z) :=
  match physIds with
  | [] => Some []
  | physId :: rest =>
      match fPhys2MemClusterIDs context !! Z.to_nat physId with
      | Some memId => option_map (cons memId) (mem_cluster_ids context rest)
      | None => None
      end
  end.

(** The cluster envelope without its checksum, for the page ranges [ids]:
    both levels of list frames carry the item count 0. *)
Definition cluster_contents (cluster : RClusterDescriptor) (ids : list Z)
    : list Z :=
  [1; 0; 1; 0]
  ++ closed_list_frame 0
       (concat (map (fun id =>
                       closed_list_frame 0
                         (page_range_bytes (GetPageRange cluster id)))
                    ids)).

Definition cluster_bytes (cluster : RClusterDescriptor) (ids : list Z)
    : list Z :=
  cluster_contents cluster ids
  ++ le_bytes 4 (R__crc32 (R__crc32 0 []) (cluster_contents cluster ids)).

(** The list frame of one cluster in the page list: one inner list frame
    per page range, with the item counts. *)
Definition page_list_columns (clusterDesc : RClusterDescriptor)
    (ids : list Z) : list Z :=
  closed_list_frame (Z.of_nat (length ids))
    (concat (map (fun id =>
                    closed_list_frame
                      (Z.of_nat
                         (length (fPageInfos (GetPageRange clusterDesc id))))
                      (page_range_bytes (GetPageRange clusterDesc id)))
                 ids)).

(** The frames of the clusters [physClusterIDs], if every lookup on the
    way succeeds. *)
Fixpoint page_list_clusters (desc : RNTupleDescriptor) (context : RContext)
    (physClusterIDs : list Z) : option (list Z) :=
  match physClusterIDs with
  | [] => Some []
  | clusterId :: rest =>
      match fPhys2MemClusterIDs context !! Z.to_nat clusterId with
      | Some memId =>
          let clusterDesc := GetClusterDescriptor desc memId in
          match phys_column_ids context (GetColumnIds clusterDesc) [] with
          | Some physColumnIds =>
              match mem_cluster_ids context physColumnIds with
              | Some ids =>
                  option_map (app (page_list_columns clusterDesc ids))
                    (page_list_clusters desc context rest)
              | None => None
              end
          | None => None
          end
      | None => None
      end
  end.

Definition page_list_contents (nClusters : nat) (clusters : list Z)
    : list Z :=
  [1; 0; 1; 0] ++ closed_list_frame (Z.of_nat nClusters) clusters.

Definition page_list_bytes (nClusters : nat) (clusters : list Z) : list Z :=
  page_list_contents nClusters clusters
  ++ le_bytes 4
       (R__crc32 (R__crc32 0 []) (page_list_contents nClusters clusters)).

End Footer.

(** A context with the clusters 7 and 9 mapped and one cluster group,
    whose page list is found through the URL "hi". *)
Definition two_cluster_context : RContext :=
  AddClusterGroup 2
    {| fUnzippedSize := 1000;
       fLocator := {| fPosition := 5; fBytesOnStorage := 9;
                      fUrl := [104; 105] |} |}
    (map_clusters RContext_new [7; 9]).

(** A cluster with the columns 9 and 7 (in this order); the page range of
    7 has one page, the one of 9 two, the second found through the URL
    "hi". *)
Definition two_column_cluster : RClusterDescriptor :=
  {| GetFirstEntryIndex := 0; GetNEntries := 10;
     GetColumnIds := [9; 7];
     GetPageRange := fun id =>
       if id =? 7 then
         {| fPageInfos :=
              [{| RPageInfo.fNElements := 10;
                  RPageInfo.fLocator :=
                    {| fPosition := 64; fBytesOnStorage := 40;
                       fUrl := [] |} |}] |}
       else
         {| fPageInfos :=
              [{| RPageInfo.fNElements := 6;
                  RPageInfo.fLocator :=
                    {| fPosition := 104; fBytesOnStorage := 24;
                       fUrl := [] |} |};
               {| RPageInfo.fNElements := 4;
                  RPageInfo.fLocator :=
                    {| fPosition := 5; fBytesOnStorage := 9;
                       fUrl := [104; 105] |} |}] |} |}.
(** * Proofs *)

Lemma lookup_poke (p : Z) (bs : list Z) (m : heap) (a : Z) :
  poke p bs m !! a =
  if decide (p <= a < p + Z.of_nat (length bs))
  then bs !! Z.to_nat (a - p) else m !! a.
Proof.
  revert p m. induction bs as [|b bs IH]; intros p m; simpl poke.
  - case_decide; [simpl in *; lia | done].
  - rewrite IH. cbn [length].
    destruct (decide (a = p)) as [->|Hne].
    + rewrite decide_False by lia. rewrite decide_True by lia.
      rewrite lookup_insert_eq. by replace (p - p) with 0 by lia.
    + rewrite lookup_insert_ne by done.
      repeat case_decide; try lia; try done.
      replace (Z.to_nat (a - p)) with (S (Z.to_nat (a - (p + 1)))) by lia.
      done.
Qed.

Lemma peek_length p n m bs : peek p n m = Some bs -> length bs = n.
Proof.
  revert p bs. induction n as [|n IH]; intros p bs; simpl.
  - by intros [= <-].
  - destruct (m !! p); [|done].
    destruct (peek (p + 1) n m) eqn:E; simpl; [|done].
    intros [= <-]. simpl. f_equal. eauto.
Qed.

Lemma peek_intro p m bs :
  (forall i : nat, (i < length bs)%nat -> m !! (p + Z.of_nat i) = bs !! i) ->
  peek p (length bs) m = Some bs.
Proof.
  revert p. induction bs as [|b bs IH]; intros p H; simpl; [done|].
  specialize (H 0%nat) as H0. simpl in H0. rewrite Z.add_0_r in H0.
  rewrite H0 by lia. rewrite IH; [done|].
  intros i Hi. specialize (H (S i)). simpl in H.
  rewrite <- H by lia. f_equal. lia.
Qed.

Lemma peek_poke p k n bs m :
  0 <= k -> k + n <= Z.of_nat (length bs) -> 0 <= n ->
  peek (p + k) (Z.to_nat n) (poke p bs m)
  = Some (take (Z.to_nat n) (drop (Z.to_nat k) bs)).
Proof.
  intros Hk Hn Hn0.
  set (r := take (Z.to_nat n) (drop (Z.to_nat k) bs)).
  assert (Hl : length r = Z.to_nat n).
  { unfold r. rewrite length_take, length_drop. lia. }
  rewrite <- Hl. apply peek_intro. intros i Hi.
  rewrite lookup_poke, decide_True by lia.
  unfold r. rewrite lookup_take_lt by lia. rewrite lookup_drop.
  f_equal. lia.
Qed.

Lemma peek_poke_disjoint p bs q n m :
  q + Z.of_nat n <= p \/ p + Z.of_nat (length bs) <= q ->
  peek q n (poke p bs m) = peek q n m.
Proof.
  revert q. induction n as [|n IH]; intros q H; simpl; [done|].
  rewrite lookup_poke, decide_False by lia.
  destruct (m !! q); [|done]. rewrite IH by lia. done.
Qed.

Lemma allocated_poke p bs m q n :
  allocated m q n -> allocated (poke p bs m) q n.
Proof.
  intros H a Ha. rewrite lookup_poke. case_decide; [|by apply H].
  apply lookup_lt_is_Some. lia.
Qed.

Lemma allocated_weaken m p n q k :
  allocated m p n -> p <= q -> q + k <= p + n -> allocated m q k.
Proof. intros H ? ? a Ha. apply H. lia. Qed.

Lemma poke_app p bs1 bs2 m :
  poke p (bs1 ++ bs2) m = poke (p + Z.of_nat (length bs1)) bs2 (poke p bs1 m).
Proof.
  revert p m. induction bs1 as [|b bs1 IH]; intros p m; cbn [poke app length].
  - by rewrite Z.add_0_r.
  - rewrite IH. f_equal. lia.
Qed.

Lemma load_bytes_peek p n m :
  load_bytes p n m = match peek p n m with
                     | Some bs => Ok (bs, m)
                     | None => Throw invalid_memory_access
                     end.
Proof.
  revert p. induction n as [|n IH]; intros p; simpl; [done|].
  unfold bind, load. destruct (m !! p); [|done].
  rewrite IH. by destruct (peek (p + 1) n m).
Qed.

Lemma store_bytes_poke p bs m :
  allocated m p (Z.of_nat (length bs)) ->
  store_bytes p bs m = Ok (tt, poke p (map (to_uint 8) bs) m).
Proof.
  revert p m. induction bs as [|b bs IH]; intros p m H; simpl; [done|].
  unfold bind, store. destruct (H p) as [x ->]; [cbn [length]; lia|].
  apply IH. intros a Ha. cbn [length] in H.
  destruct (decide (a = p)) as [->|Hne].
  - rewrite lookup_insert_eq. eauto.
  - rewrite lookup_insert_ne by done. apply H. lia.
Qed.

(** ** Fixed-width arithmetic *)

Lemma le_val_le_bytes n v : le_val (le_bytes n v) = v mod 256 ^ Z.of_nat n.
Proof.
  revert v. induction n as [|n IH]; intros v.
  - simpl. by rewrite Z.mod_1_r.
  - cbn [le_bytes le_val]. rewrite IH.
    replace (Z.of_nat (S n)) with (1 + Z.of_nat n) by lia.
    rewrite Z.pow_add_r, Z.pow_1_r by lia.
    rewrite Z.rem_mul_r by lia. done.
Qed.

Lemma length_le_bytes n v : length (le_bytes n v) = n.
Proof. revert v. induction n as [|n IH]; intros v; simpl; [done|]. by rewrite IH. Qed.

Lemma le_bytes_mod n v : le_bytes n (v mod 256 ^ Z.of_nat n) = le_bytes n v.
Proof.
  revert v. induction n as [|n IH]; intros v; [done|].
  cbn [le_bytes].
  replace (Z.of_nat (S n)) with (1 + Z.of_nat n) by lia.
  rewrite Z.pow_add_r, Z.pow_1_r by lia.
  assert (H256 : 0 < 256 ^ Z.of_nat n) by (apply Z.pow_pos_nonneg; lia).
  f_equal.
  - rewrite Z.rem_mul_r by lia.
    rewrite (Z.mul_comm 256), Z.mod_add by lia.
    apply Z.mod_mod. lia.
  - rewrite Z.rem_mul_r by lia.
    rewrite (Z.mul_comm 256), Z.div_add by lia.
    rewrite (Z.div_small (v mod 256)) by (apply Z.mod_pos_bound; lia).
    rewrite Z.add_0_l. apply IH.
Qed.

Lemma byte_of_mask v k :
  0 <= k ->
  to_uint 8 (Z.shiftr (Z.land v (Z.shiftl 255 k)) k) = (v / 2 ^ k) mod 256.
Proof.
  intros Hk. unfold to_uint.
  rewrite Z.shiftr_land, Z.shiftr_shiftl_l, Z.sub_diag, Z.shiftl_0_r by lia.
  change 255 with (Z.ones 8). rewrite Z.land_ones by lia.
  rewrite Z.shiftr_div_pow2 by lia.
  change (2 ^ 8) with 256. apply Z.mod_mod. lia.
Qed.

Lemma byte_of_mask0 v : to_uint 8 (Z.land v 255) = v mod 256.
Proof.
  unfold to_uint. change 255 with (Z.ones 8). rewrite Z.land_ones by lia.
  change (2 ^ 8) with 256. apply Z.mod_mod. lia.
Qed.

Lemma to_int_mod w x : 0 < w -> to_int w (x mod 2 ^ w) = to_int w x.
Proof.
  intros Hw. unfold to_int. f_equal.
  rewrite Z.add_mod_idemp_l; [done|]. apply Z.pow_nonzero; lia.
Qed.

Lemma to_int_id w x : 0 < w -> in_int w x -> to_int w x = x.
Proof.
  intros Hw [Hlo Hhi]. unfold to_int.
  assert (E : 2 ^ w = 2 * 2 ^ (w - 1)).
  { rewrite <- (Z.pow_succ_r 2 (w - 1)) by lia. f_equal. lia. }
  rewrite Z.mod_small by lia. lia.
Qed.

Lemma to_uint_to_int w x : 0 < w -> to_uint w (to_int w x) = to_uint w x.
Proof.
  intros Hw. unfold to_uint, to_int.
  assert (E : 2 ^ w = 2 * 2 ^ (w - 1)).
  { rewrite <- (Z.pow_succ_r 2 (w - 1)) by lia. f_equal. lia. }
  assert (Hp : 0 < 2 ^ (w - 1)) by (apply Z.pow_pos_nonneg; lia).
  rewrite <- Zminus_mod_idemp_l.
  rewrite Z.mod_mod by lia.
  rewrite Zminus_mod_idemp_l. f_equal. lia.
Qed.

Lemma to_uint_id w x : in_uint w x -> to_uint w x = x.
Proof. intros H. unfold to_uint. apply Z.mod_small. exact H. Qed.

Lemma to_uint_range w x : 0 <= w -> in_uint w (to_uint w x).
Proof. intros. apply Z.mod_pos_bound. by apply Z.pow_pos_nonneg. Qed.

Lemma to_int_range w x : 0 < w -> in_int w (to_int w x).
Proof.
  intros Hw. unfold in_int, to_int.
  assert (E : 2 ^ w = 2 * 2 ^ (w - 1)).
  { rewrite <- (Z.pow_succ_r 2 (w - 1)) by lia. f_equal. lia. }
  assert (Hp : 0 < 2 ^ (w - 1)) by (apply Z.pow_pos_nonneg; lia).
  pose proof (Z.mod_pos_bound (x + 2 ^ (w - 1)) (2 ^ w)). lia.
Qed.

(** ** Primitive codec: emitted bytes and decoded values *)

Lemma store_ok p v m :
  is_Some (m !! p) -> store p v m = Ok (tt, <[p := to_uint 8 v]> m).
Proof. intros [x Hx]. unfold store. by rewrite Hx. Qed.

Lemma is_Some_insert_mono (m : heap) p v a :
  is_Some (m !! a) -> is_Some (<[p := v]> m !! a).
Proof.
  intros H. destruct (decide (p = a)) as [->|Hne].
  - rewrite lookup_insert_eq. eauto.
  - by rewrite lookup_insert_ne.
Qed.

Ltac store_steps Ha :=
  unfold bind;
  repeat (rewrite store_ok by (repeat apply is_Some_insert_mono; apply Ha; lia));
  unfold ret.

Lemma nonnull_eqb p : p <> nullptr -> (p =? nullptr) = false.
Proof. intros. by apply Z.eqb_neq. Qed.

Lemma SerializeInt16_null v m : SerializeInt16 v nullptr m = Ok (2, m).
Proof. reflexivity. Qed.
Lemma SerializeInt32_null v m : SerializeInt32 v nullptr m = Ok (4, m).
Proof. reflexivity. Qed.
Lemma SerializeInt64_null v m : SerializeInt64 v nullptr m = Ok (8, m).
Proof. reflexivity. Qed.

Lemma SerializeInt16_poke v p m :
  p <> nullptr -> allocated m p 2 ->
  SerializeInt16 v p m = Ok (2, poke p (le_bytes 2 v) m).
Proof.
  intros Hp Ha. unfold SerializeInt16. rewrite nonnull_eqb by done.
  cbn [negb]. store_steps Ha.
  change 0x00FF with 255. change 0xFF00 with (Z.shiftl 255 8).
  rewrite byte_of_mask0, !byte_of_mask by lia.
  cbn [le_bytes poke]. rewrite Z.add_0_r. reflexivity.
Qed.

Lemma SerializeInt32_poke v p m :
  p <> nullptr -> allocated m p 4 ->
  SerializeInt32 v p m = Ok (4, poke p (le_bytes 4 v) m).
Proof.
  intros Hp Ha. unfold SerializeInt32. rewrite nonnull_eqb by done.
  cbn [negb]. store_steps Ha.
  change 0x000000FF with 255. change 0x0000FF00 with (Z.shiftl 255 8).
  change 0x00FF0000 with (Z.shiftl 255 16).
  change 0xFF000000 with (Z.shiftl 255 24).
  rewrite byte_of_mask0, !byte_of_mask by lia.
  cbn [le_bytes poke]. rewrite Z.add_0_r, <- !Z.add_assoc.
  rewrite !Z.div_div by lia. reflexivity.
Qed.

Lemma SerializeInt64_poke v p m :
  p <> nullptr -> allocated m p 8 ->
  SerializeInt64 v p m = Ok (8, poke p (le_bytes 8 v) m).
Proof.
  intros Hp Ha. unfold SerializeInt64. rewrite nonnull_eqb by done.
  cbn [negb]. store_steps Ha.
  change 0x00000000000000FF with 255.
  change 0x000000000000FF00 with (Z.shiftl 255 8).
  change 0x0000000000FF0000 with (Z.shiftl 255 16).
  change 0x00000000FF000000 with (Z.shiftl 255 24).
  change 0x000000FF00000000 with (Z.shiftl 255 32).
  change 0x0000FF0000000000 with (Z.shiftl 255 40).
  change 0x00FF000000000000 with (Z.shiftl 255 48).
  change 0xFF00000000000000 with (Z.shiftl 255 56).
  rewrite byte_of_mask0, !byte_of_mask by lia.
  cbn [le_bytes poke]. rewrite Z.add_0_r, <- !Z.add_assoc.
  rewrite !Z.div_div by lia. reflexivity.
Qed.

Lemma load_lookup p m :
  load p m = match m !! p with
             | Some b => Ok (b, m)
             | None => Throw invalid_memory_access
             end.
Proof. reflexivity. Qed.

Ltac norm_addr :=
  rewrite ?Z.add_0_r;
  repeat match goal with
         | |- context [?a + Zpos ?x + Zpos ?y] =>
             let s := eval compute in (Zpos x + Zpos y) in
             replace (a + Zpos x + Zpos y) with (a + s) by lia
         end.

Ltac peek_cases :=
  unfold bind; cbn [peek]; rewrite ?load_lookup; norm_addr;
  repeat match goal with
         | |- context [?m !! ?a] =>
             destruct (m !! a); cbn [option_map];
             [rewrite ?load_lookup | reflexivity]
         end.

Ltac to_int_arith :=
  match goal with
  | |- Ok (_, to_int ?w ?a, _) = Ok (_, to_int ?w ?b, _) =>
      replace a with b by lia; reflexivity
  end.

Lemma DeserializeInt16_peek p m :
  DeserializeInt16 p m =
  match peek p 2 m with
  | Some bs => Ok ((2, to_int 16 (le_val bs)), m)
  | None => Throw invalid_memory_access
  end.
Proof.
  unfold DeserializeInt16. peek_cases. unfold ret. cbn [le_val].
  rewrite !Z.shiftl_mul_pow2 by lia. to_int_arith.
Qed.

Lemma DeserializeInt32_peek p m :
  DeserializeInt32 p m =
  match peek p 4 m with
  | Some bs => Ok ((4, to_int 32 (le_val bs)), m)
  | None => Throw invalid_memory_access
  end.
Proof.
  unfold DeserializeInt32. peek_cases. unfold ret. cbn [le_val].
  rewrite !Z.shiftl_mul_pow2 by lia. to_int_arith.
Qed.

Lemma DeserializeInt64_peek p m :
  DeserializeInt64 p m =
  match peek p 8 m with
  | Some bs => Ok ((8, to_int 64 (le_val bs)), m)
  | None => Throw invalid_memory_access
  end.
Proof.
  unfold DeserializeInt64. peek_cases. unfold ret. cbn [le_val].
  rewrite !Z.shiftl_mul_pow2 by lia. to_int_arith.
Qed.

Lemma peek_poke_same p bs m : peek p (length bs) (poke p bs m) = Some bs.
Proof.
  apply peek_intro. intros i Hi.
  rewrite lookup_poke, decide_True by lia. f_equal. lia.
Qed.

Lemma peek_poke_le p n v m :
  peek p n (poke p (le_bytes n v) m) = Some (le_bytes n v).
Proof.
  pose proof (peek_poke_same p (le_bytes n v) m) as H.
  by rewrite length_le_bytes in H.
Qed.

Lemma to_int_le n v :
  (0 < n)%nat ->
  to_int (8 * Z.of_nat n) (le_val (le_bytes n v)) = to_int (8 * Z.of_nat n) v.
Proof.
  intros Hn. rewrite le_val_le_bytes.
  change 256 with (2 ^ 8). rewrite <- Z.pow_mul_r by lia.
  apply to_int_mod. lia.
Qed.

Lemma DeserializeInt16_poke v p m :
  DeserializeInt16 p (poke p (le_bytes 2 v) m)
  = Ok ((2, to_int 16 v), poke p (le_bytes 2 v) m).
Proof.
  rewrite DeserializeInt16_peek, peek_poke_le.
  pose proof (to_int_le 2 v ltac:(lia)) as E.
  change (8 * Z.of_nat 2) with 16 in E. by rewrite E.
Qed.

Lemma DeserializeInt32_poke v p m :
  DeserializeInt32 p (poke p (le_bytes 4 v) m)
  = Ok ((4, to_int 32 v), poke p (le_bytes 4 v) m).
Proof.
  rewrite DeserializeInt32_peek, peek_poke_le.
  pose proof (to_int_le 4 v ltac:(lia)) as E.
  change (8 * Z.of_nat 4) with 32 in E. by rewrite E.
Qed.

Lemma DeserializeInt64_poke v p m :
  DeserializeInt64 p (poke p (le_bytes 8 v) m)
  = Ok ((8, to_int 64 v), poke p (le_bytes 8 v) m).
Proof.
  rewrite DeserializeInt64_peek, peek_poke_le.
  pose proof (to_int_le 8 v ltac:(lia)) as E.
  change (8 * Z.of_nat 8) with 64 in E. by rewrite E.
Qed.

(** C9: the six integer codecs round-trip every value of their type and
    report their fixed width, with a null buffer as with a real one. *)
Theorem integer_round_trip (v buffer : Z) (m : heap) :
  buffer <> nullptr ->
  (in_int 16 v -> allocated m buffer 2 ->
   int_round_trip SerializeInt16 DeserializeInt16 2 v buffer m) /\
  (in_uint 16 v -> allocated m buffer 2 ->
   int_round_trip SerializeUInt16 DeserializeUInt16 2 v buffer m) /\
  (in_int 32 v -> allocated m buffer 4 ->
   int_round_trip SerializeInt32 DeserializeInt32 4 v buffer m) /\
  (in_uint 32 v -> allocated m buffer 4 ->
   int_round_trip SerializeUInt32 DeserializeUInt32 4 v buffer m) /\
  (in_int 64 v -> allocated m buffer 8 ->
   int_round_trip SerializeInt64 DeserializeInt64 8 v buffer m) /\
  (in_uint 64 v -> allocated m buffer 8 ->
   int_round_trip SerializeUInt64 DeserializeUInt64 8 v buffer m).
Proof.
  intros Hp.
  repeat split; try reflexivity.
  - eexists. split; [by apply SerializeInt16_poke|].
    rewrite DeserializeInt16_poke. by rewrite to_int_id.
  - eexists. split; [by apply SerializeInt16_poke|].
    unfold DeserializeUInt16, bind. rewrite DeserializeInt16_poke. unfold ret.
    rewrite !to_uint_to_int by lia. by rewrite to_uint_id.
  - eexists. split; [by apply SerializeInt32_poke|].
    rewrite DeserializeInt32_poke. by rewrite to_int_id.
  - eexists. split; [by apply SerializeInt32_poke|].
    unfold DeserializeUInt32, bind. rewrite DeserializeInt32_poke. unfold ret.
    rewrite !to_uint_to_int by lia. by rewrite to_uint_id.
  - eexists. split; [by apply SerializeInt64_poke|].
    rewrite DeserializeInt64_poke. by rewrite to_int_id.
  - eexists. split; [by apply SerializeInt64_poke|].
    unfold DeserializeUInt64, bind. rewrite DeserializeInt64_poke. unfold ret.
    rewrite !to_uint_to_int by lia. by rewrite to_uint_id.
Qed.

Lemma allocated_b_correct m p n :
  allocated_b m p n = true -> allocated m p (Z.of_nat n).
Proof.
  unfold allocated_b. rewrite forallb_forall. intros H a Ha.
  specialize (H (Z.to_nat (a - p))).
  rewrite bool_decide_eq_true in H.
  replace (p + Z.of_nat (Z.to_nat (a - p))) with a in H by lia.
  apply H. apply in_seq. lia.
Qed.

Lemma integer_round_trip_witness :
  int_round_trip SerializeInt16 DeserializeInt16 2 300 100 (calloc 100 8) /\
  int_round_trip SerializeUInt16 DeserializeUInt16 2 300 100 (calloc 100 8) /\
  int_round_trip SerializeInt32 DeserializeInt32 4 300 100 (calloc 100 8) /\
  int_round_trip SerializeUInt32 DeserializeUInt32 4 300 100 (calloc 100 8) /\
  int_round_trip SerializeInt64 DeserializeInt64 8 300 100 (calloc 100 8) /\
  int_round_trip SerializeUInt64 DeserializeUInt64 8 300 100 (calloc 100 8).
Proof.
  destruct (integer_round_trip 300 100 (calloc 100 8))
    as (H1 & H2 & H3 & H4 & H5 & H6).
  - unfold nullptr. lia.
  - refine (conj (H1 _ _) (conj (H2 _ _) (conj (H3 _ _)
              (conj (H4 _ _) (conj (H5 _ _) (H6 _ _))))));
      first [ unfold in_int, in_uint; lia
            | apply (allocated_b_correct _ _ 2); vm_compute; reflexivity
            | apply (allocated_b_correct _ _ 4); vm_compute; reflexivity
            | apply (allocated_b_correct _ _ 8); vm_compute; reflexivity ].
Defined.

(** ** Worked byte sequences *)

Example crc32_check_value :
  crc32_ieee (crc32_ieee 0 []) [49; 50; 51; 52; 53; 54; 55; 56; 57]
  = 0xCBF43926.
Proof. vm_compute. reflexivity. Qed.

Example serialize_uint32_bytes :
  (SerializeUInt32 0x0A0B0C0D 100;; load_bytes 100 4) (calloc 100 4)
  = Ok ([0x0D; 0x0C; 0x0B; 0x0A], poke 100 [0x0D; 0x0C; 0x0B; 0x0A] ∅).
Proof. vm_compute. reflexivity. Qed.

Example serialize_string_hi :
  (do n <- SerializeString [0x68; 0x69] 100;
   do bs <- load_bytes 100 6; ret (n, bs)) (calloc 100 6)
  = Ok ((6, [2; 0; 0; 0; 0x68; 0x69]), poke 100 [2; 0; 0; 0; 0x68; 0x69] ∅).
Proof. vm_compute. reflexivity. Qed.

Example record_frame_bytes :
  (SerializeRecordFramePreamble 100;; SerializeUInt32 0 104;;
   SerializeFramePostscript 100 8;; load_bytes 100 8) (calloc 100 8)
  = Ok ([8; 0; 0; 0; 0; 0; 0; 0], poke 100 [8] (calloc 100 8)).
Proof. vm_compute. reflexivity. Qed.

Example list_frame_bytes :
  (SerializeListFramePreamble 2 100;;
   SerializeFramePostscript 100 8;; load_bytes 100 8) (calloc 100 8)
  = Ok ([0xF8; 0xFF; 0xFF; 0xFF; 2; 0; 0; 0],
        poke 100 [0xF8; 0xFF; 0xFF; 0xFF; 2; 0; 0; 0] ∅).
Proof. vm_compute. reflexivity. Qed.

Example inline_locator_bytes :
  (SerializeLocator {| fPosition := 0x0102030405060708;
                       fBytesOnStorage := 42; fUrl := [] |} 100;;
   load_bytes 100 12) (calloc 100 12)
  = Ok ([0x2A; 0; 0; 0; 8; 7; 6; 5; 4; 3; 2; 1],
        poke 100 [0x2A; 0; 0; 0; 8; 7; 6; 5; 4; 3; 2; 1] ∅).
Proof. vm_compute. reflexivity. Qed.

Example list_frame_nitems_bounds :
  SerializeListFramePreamble (2 ^ 28 - 1) nullptr ∅ = Ok (8, ∅) /\
  SerializeListFramePreamble (2 ^ 28) nullptr ∅
  = Throw (list_frame_too_large (2 ^ 28)).
Proof. split; reflexivity. Qed.

Example inline_locator_bounds :
  SerializeLocator {| fPosition := 0; fBytesOnStorage := 2 ^ 31 - 1;
                      fUrl := [] |} nullptr ∅ = Ok (12, ∅) /\
  SerializeLocator {| fPosition := 0; fBytesOnStorage := 2 ^ 31;
                      fUrl := [] |} nullptr ∅ = Throw locator_too_large.
Proof. split; reflexivity. Qed.

Example url_locator_round_trip :
  (SerializeLocator {| fPosition := 0; fBytesOnStorage := 0;
                       fUrl := [0x68; 0x69] |} 100;;
   DeserializeLocator 100 6) (calloc 100 6)
  = Ok ((6, {| fPosition := 0; fBytesOnStorage := 0; fUrl := [0x68; 0x69] |}),
        poke 100 [0xFE; 0xFF; 0xFF; 0xFD; 0x68; 0x69] ∅).
Proof. vm_compute. reflexivity. Qed.

Example envelope_round_trip :
  (SerializeEnvelopePreamble 100;; SerializeUInt32 0 104;;
   SerializeEnvelopePostscript crc32_ieee 100 8 108;;
   DeserializeEnvelope crc32_ieee 100 12) (calloc 100 12)
  = Ok (4, envelope_heap 1 1).
Proof. vm_compute. reflexivity. Qed.

(** ** Monadic inversion *)

Lemma bind_Ok {A B} (c : M A) (k : A -> M B) m r :
  bind c k m = Ok r -> exists a m', c m = Ok (a, m') /\ k a m' = Ok r.
Proof.
  unfold bind. destruct (c m) as [[a m']| |]; [eauto|done|done].
Qed.

Lemma if_throw_Ok {A} (b : bool) e (k : M A) m r :
  (if b then throw e else k) m = Ok r -> b = false /\ k m = Ok r.
Proof. destruct b; [done|eauto]. Qed.

(** ** Frames on the read path *)

Lemma DeserializeFrame_nitems_lt_2_29 buffer bufSize m n frameSize nitems m' :
  DeserializeFrame buffer bufSize m = Ok ((n, frameSize, nitems), m') ->
  0 <= nitems < 2 ^ 29.
Proof.
  unfold DeserializeFrame. intros H.
  apply if_throw_Ok in H as [_ H].
  apply bind_Ok in H as ([n1 ssize] & m1 & _ & H).
  apply bind_Ok in H as ([[bytes ssize'] nitems'] & m2 & H1 & H).
  apply if_throw_Ok in H as [_ H]. injection H as <- <- <- <-.
  destruct (ssize >=? 0).
  - apply if_throw_Ok in H1 as [_ H1]. injection H1 as <- <- <- <-. lia.
  - apply if_throw_Ok in H1 as [_ H1].
    apply bind_Ok in H1 as ([n2 raw] & m3 & _ & H1).
    apply if_throw_Ok in H1 as [_ H1]. injection H1 as <- <- <- <-.
    change (Z.shiftl 2 28 - 1) with (Z.ones 29).
    rewrite Z.land_ones by lia. apply Z.mod_pos_bound. lia.
Qed.

(** C3 (the code departs from the claim): the list frame
    [F8 FF FF FF 00 00 00 10] decodes successfully with [nitems = 2^28],
    which is not below [2^28]; the read mask [(2 << 28) - 1] keeps 29 bits. *)
Theorem DeserializeFrame_nitems_2_28 :
  DeserializeFrame 100 8 frame_nitems_bit28
  = Ok ((8, 8, 2 ^ 28), frame_nitems_bit28).
Proof. vm_compute. reflexivity. Qed.

(** ** Envelope version gates *)

Lemma DeserializeEnvelope_run R__crc32 buffer bufSize m atWrite minRequired :
  8 <= bufSize < 2 ^ 32 ->
  VerifyCRC32 R__crc32 buffer (bufSize - 4) m = Ok (tt, m) ->
  DeserializeUInt16 buffer m = Ok ((2, atWrite), m) ->
  DeserializeUInt16 (buffer + 2) m = Ok ((2, minRequired), m) ->
  DeserializeEnvelope R__crc32 buffer bufSize m =
  if atWrite <? 1 then Throw format_too_old
  else if minRequired >? kEnvelopeCurrentVersion
       then Throw (format_too_new minRequired)
       else Ok (4, m).
Proof.
  intros Hsz Hcrc Ha Hm. unfold DeserializeEnvelope.
  replace (bufSize <? 2 * 2 + 4) with false by lia.
  unfold to_uint. rewrite Z.mod_small by lia.
  unfold bind at 1. rewrite Hcrc.
  unfold bind at 1. rewrite Ha.
  destruct (atWrite <? 1); [done|].
  unfold bind at 1. rewrite Hm.
  by destruct (minRequired >? kEnvelopeCurrentVersion).
Qed.

(** C8, as the code has it: a buffer shorter than 8 bytes is rejected as
    too short; with a valid trailing CRC the envelope is too old exactly
    when [version_at_write < 1], too new exactly when
    [version_at_write >= 1] and [version_min_required > 1], and is accepted,
    returning 4, exactly in the remaining case. *)
Theorem DeserializeEnvelope_gates R__crc32 buffer bufSize m atWrite minRequired :
  0 <= bufSize < 2 ^ 32 ->
  (bufSize < 8 ->
   DeserializeEnvelope R__crc32 buffer bufSize m
   = Throw invalid_envelope_too_short) /\
  (8 <= bufSize ->
   VerifyCRC32 R__crc32 buffer (bufSize - 4) m = Ok (tt, m) ->
   DeserializeUInt16 buffer m = Ok ((2, atWrite), m) ->
   DeserializeUInt16 (buffer + 2) m = Ok ((2, minRequired), m) ->
   (DeserializeEnvelope R__crc32 buffer bufSize m = Throw format_too_old
    <-> atWrite < 1) /\
   (DeserializeEnvelope R__crc32 buffer bufSize m
    = Throw (format_too_new minRequired)
    <-> 1 <= atWrite /\ minRequired > kEnvelopeCurrentVersion) /\
   (DeserializeEnvelope R__crc32 buffer bufSize m = Ok (4, m)
    <-> 1 <= atWrite /\ minRequired <= kEnvelopeCurrentVersion) /\
   (forall r m', DeserializeEnvelope R__crc32 buffer bufSize m = Ok (r, m') ->
                 r = 4)).
Proof.
  intros Hsz. split.
  - intros Hlt. unfold DeserializeEnvelope.
    by replace (bufSize <? 2 * 2 + 4) with true by lia.
  - intros Hge Hcrc Ha Hm.
    rewrite (DeserializeEnvelope_run R__crc32 buffer bufSize m atWrite
               minRequired) by (done || lia).
    destruct (Z.ltb_spec atWrite 1);
      [|destruct (Z.gtb_spec minRequired kEnvelopeCurrentVersion)];
      (repeat split; try done; try lia; try (intros [? ?]; lia)).
    all: try (intros r m' [= <- _]; done).
Qed.

(** C8, counterexample to the claim as stated: this envelope has a valid
    CRC and [version_min_required = 2 > 1], yet it is not rejected as too
    new but as too old, since [version_at_write = 0] is tested first. *)
Lemma DeserializeEnvelope_too_old_first :
  VerifyCRC32 crc32_ieee 100 (12 - 4) (envelope_heap 0 2)
    = Ok (tt, envelope_heap 0 2) /\
  DeserializeUInt16 (100 + 2) (envelope_heap 0 2)
    = Ok ((2, 2), envelope_heap 0 2) /\
  2 > kEnvelopeCurrentVersion /\
  DeserializeEnvelope crc32_ieee 100 12 (envelope_heap 0 2)
    = Throw format_too_old /\
  DeserializeEnvelope crc32_ieee 100 12 (envelope_heap 0 2)
    <> Throw (format_too_new 2).
Proof. vm_compute. repeat split; done. Qed.

Lemma DeserializeEnvelope_gates_witness :
  DeserializeEnvelope crc32_ieee 100 12 (envelope_heap 1 1)
  = Ok (4, envelope_heap 1 1).
Proof.
  apply (DeserializeEnvelope_gates crc32_ieee 100 12 (envelope_heap 1 1) 1 1).
  - lia.
  - lia.
  - vm_compute. reflexivity.
  - vm_compute. reflexivity.
  - vm_compute. reflexivity.
  - unfold kEnvelopeCurrentVersion. lia.
Defined.

(** ** Feature flags *)

Lemma length_flag_bytes flags :
  Z.of_nat (length (flag_bytes flags)) = 8 * Z.of_nat (length flags).
Proof.
  induction flags as [|f rest IH]; [done|].
  destruct rest as [|g rest]; [done|].
  change (flag_bytes (f :: g :: rest))
    with (le_bytes 8 (- f) ++ flag_bytes (g :: rest)).
  rewrite length_app, length_le_bytes.
  rewrite Nat2Z.inj_add, IH. cbn [length]. lia.
Qed.

Lemma SerializeFeatureFlags_for_negative flags p m :
  Exists (fun f => f < 0) flags ->
  0 < p -> allocated m p (8 * Z.of_nat (length flags)) ->
  SerializeFeatureFlags_for flags p m = Throw feature_flag_out_of_bounds.
Proof.
  revert p m. induction flags as [|f rest IH]; intros p m Hex Hp Ha.
  - by apply Exists_nil in Hex.
  - cbn [SerializeFeatureFlags_for].
    destruct (Z.ltb_spec f 0) as [Hf|Hf]; [done|].
    apply Exists_cons in Hex as [Hex|Hex]; [lia|].
    destruct rest as [|g rest]; [by apply Exists_nil in Hex|].
    unfold bind. rewrite SerializeInt64_poke.
    + apply IH; [done|lia|].
      apply allocated_poke. cbn [length] in Ha |- *.
      apply (allocated_weaken _ _ _ _ _ Ha); lia.
    + unfold nullptr. lia.
    + cbn [length] in Ha. apply (allocated_weaken _ _ _ _ _ Ha); lia.
Qed.

(** C5, as the code has it: a flag list with a negative entry is rejected
    with "feature flag out of bounds" when written into a real buffer; the
    size-only run (null buffer) does not look at the flags and returns the
    byte count. *)
Theorem SerializeFeatureFlags_negative flags buffer m :
  Exists (fun f => f < 0) flags ->
  SerializeFeatureFlags flags nullptr m
    = Ok (to_uint 32 (Z.of_nat (length flags) * 8), m) /\
  (0 < buffer -> allocated m buffer (8 * Z.of_nat (length flags)) ->
   SerializeFeatureFlags flags buffer m = Throw feature_flag_out_of_bounds).
Proof.
  intros Hex. destruct flags as [|f rest]; [by apply Exists_nil in Hex|].
  split; [reflexivity|]. intros Hp Ha.
  unfold SerializeFeatureFlags.
  replace (buffer =? nullptr) with false by (unfold nullptr; lia).
  cbn [negb]. unfold bind at 1.
  by rewrite SerializeFeatureFlags_for_negative.
Qed.

(** C5, counterexample to the claim as stated: the size-only run on the
    list [-1] returns 8 and does not fail. *)
Lemma SerializeFeatureFlags_negative_null :
  Exists (fun f => f < 0) [-1] /\
  SerializeFeatureFlags [-1] nullptr ∅ = Ok (8, ∅).
Proof. split; [apply Exists_cons_hd; lia | reflexivity]. Qed.

Lemma SerializeFeatureFlags_negative_witness :
  SerializeFeatureFlags [3; -1] nullptr (calloc 100 16) = Ok (16, calloc 100 16) /\
  SerializeFeatureFlags [3; -1] 100 (calloc 100 16)
    = Throw feature_flag_out_of_bounds.
Proof.
  destruct (SerializeFeatureFlags_negative [3; -1] 100 (calloc 100 16))
    as [H1 H2].
  - apply Exists_cons_tl, Exists_cons_hd. lia.
  - split; [exact H1|]. apply H2; [lia|].
    apply (allocated_b_correct _ _ 16). vm_compute. reflexivity.
Defined.

Lemma peek_lookup p n m bs :
  peek p n m = Some bs ->
  forall i : nat, (i < n)%nat -> m !! (p + Z.of_nat i) = bs !! i.
Proof.
  revert p bs. induction n as [|n IH]; intros p bs H i Hi; [lia|].
  cbn [peek] in H. destruct (m !! p) as [b|] eqn:Hb; [|done].
  destruct (peek (p + 1) n m) as [bs'|] eqn:Hbs; [|done].
  injection H as <-. destruct i as [|i].
  - by rewrite Z.add_0_r.
  - replace (p + Z.of_nat (S i)) with (p + 1 + Z.of_nat i) by lia.
    apply (IH _ _ Hbs i). lia.
Qed.

Lemma peek_app p a b m :
  peek p (length a + length b) m = Some (a ++ b) ->
  peek p (length a) m = Some a /\
  peek (p + Z.of_nat (length a)) (length b) m = Some b.
Proof.
  intros H. pose proof (peek_lookup _ _ _ _ H) as L. split.
  - apply peek_intro. intros i Hi. rewrite L by lia.
    by rewrite lookup_app_l.
  - apply peek_intro. intros i Hi.
    replace (p + Z.of_nat (length a) + Z.of_nat i)
      with (p + Z.of_nat (length a + i)) by lia.
    rewrite L by lia. rewrite lookup_app_r by lia. f_equal. lia.
Qed.

Lemma continuable_nonneg flags : continuable flags -> Forall (fun f => 0 <= f) flags.
Proof.
  induction flags as [|f rest IH]; intros H; [constructor|].
  destruct rest as [|g rest].
  - constructor; [cbn in H; lia|constructor].
  - destruct H as [Hf Hr]. constructor; [lia|by apply IH].
Qed.

Lemma SerializeFeatureFlags_for_poke flags p m :
  Forall (fun f => 0 <= f) flags ->
  0 < p -> allocated m p (8 * Z.of_nat (length flags)) ->
  SerializeFeatureFlags_for flags p m = Ok (tt, poke p (flag_bytes flags) m).
Proof.
  revert p m. induction flags as [|f rest IH]; intros p m Hnn Hp Ha; [done|].
  apply Forall_cons in Hnn as [Hf Hnn].
  cbn [SerializeFeatureFlags_for].
  replace (f <? 0) with false by lia.
  assert (Ha8 : allocated m p 8).
  { cbn [length] in Ha. apply (allocated_weaken _ _ _ _ _ Ha); lia. }
  assert (Hp0 : p <> nullptr) by (unfold nullptr; lia).
  destruct rest as [|g rest].
  - unfold bind. by rewrite SerializeInt64_poke.
  - unfold bind. rewrite SerializeInt64_poke by done.
    rewrite IH; [|done|lia|].
    + change (flag_bytes (f :: g :: rest))
        with (le_bytes 8 (- f) ++ flag_bytes (g :: rest)).
      by rewrite poke_app, length_le_bytes.
    + apply allocated_poke. cbn [length] in Ha |- *.
      apply (allocated_weaken _ _ _ _ _ Ha); lia.
Qed.

Lemma DeserializeFeatureFlags_do_stream flags fuel p size acc m :
  continuable flags -> flags <> [] ->
  peek p (length (flag_bytes flags)) m = Some (flag_bytes flags) ->
  8 * Z.of_nat (length flags) <= size ->
  (length flags <= fuel)%nat ->
  DeserializeFeatureFlags_do fuel p size acc m = Ok (acc ++ flags, m).
Proof.
  revert fuel p size acc.
  induction flags as [|f rest IH]; intros fuel p size acc Hc Hne Hpk Hsz Hfuel;
    [done|].
  destruct fuel as [|fuel]; [cbn [length] in Hfuel; lia|].
  cbn [DeserializeFeatureFlags_do].
  replace (size <? 8) with false by (cbn [length] in Hsz; lia).
  destruct rest as [|g rest].
  - cbn [flag_bytes] in Hpk. rewrite length_le_bytes in Hpk.
    unfold bind. rewrite DeserializeInt64_peek, Hpk.
    pose proof (to_int_le 8 f ltac:(lia)) as E.
    change (8 * Z.of_nat 8) with 64 in E. rewrite E.
    cbn in Hc. rewrite (to_int_id 64 f) by (unfold in_int; lia).
    replace (f <? 0) with false by lia.
    rewrite (to_int_id 32 f) by (unfold in_int; lia).
    rewrite Z.abs_eq by lia.
    by rewrite (to_int_id 32 f) by (unfold in_int; lia).
  - destruct Hc as [Hf Hc].
    change (flag_bytes (f :: g :: rest))
      with (le_bytes 8 (- f) ++ flag_bytes (g :: rest)) in Hpk.
    rewrite length_app in Hpk. apply peek_app in Hpk as [Hhd Htl].
    rewrite length_le_bytes in Hhd, Htl.
    unfold bind. rewrite DeserializeInt64_peek, Hhd.
    pose proof (to_int_le 8 (- f) ltac:(lia)) as E.
    change (8 * Z.of_nat 8) with 64 in E. rewrite E.
    rewrite (to_int_id 64 (- f)) by (unfold in_int; lia).
    replace (- f <? 0) with true by lia.
    rewrite (to_int_id 32 (- f)) by (unfold in_int; lia).
    rewrite Z.abs_neq by lia. rewrite Z.opp_involutive.
    rewrite (to_int_id 32 f) by (unfold in_int; lia).
    rewrite (IH fuel (p + 8) (size - 8) (acc ++ [f])); try done.
    + by rewrite <- app_assoc.
    + cbn [length] in Hsz |- *. lia.
    + cbn [length] in Hfuel |- *. lia.
Qed.

(** The [do ... while] loop never exhausts the iterations it is given. *)
Lemma DeserializeFeatureFlags_do_fuel fuel p size acc m :
  0 <= size -> (Z.to_nat (size / 8) < fuel)%nat ->
  DeserializeFeatureFlags_do fuel p size acc m <> OutOfFuel.
Proof.
  revert p size acc. induction fuel as [|fuel IH]; intros p size acc Hs Hf;
    [lia|].
  cbn [DeserializeFeatureFlags_do].
  destruct (Z.ltb_spec size 8) as [Hlt|Hge]; [done|].
  unfold bind. rewrite DeserializeInt64_peek.
  destruct (peek p 8 m) as [bs|]; [|done].
  destruct (to_int 64 (le_val bs) <? 0); [|done].
  apply IH; [lia|].
  replace size with (size - 8 + 1 * 8) in Hf by lia.
  rewrite Z.div_add in Hf by lia.
  assert (0 <= (size - 8) / 8) by (apply Z.div_pos; lia). lia.
Qed.

Lemma DeserializeFeatureFlags_returns buffer size m :
  0 <= size -> DeserializeFeatureFlags buffer size m <> OutOfFuel.
Proof.
  intros Hs. unfold DeserializeFeatureFlags, bind.
  pose proof (DeserializeFeatureFlags_do_fuel
                (Z.to_nat (size / 8) + 1) buffer size [] m Hs ltac:(lia)) as H.
  by destruct (DeserializeFeatureFlags_do _ _ _ _ _) as [[? ?]| |].
Qed.

(** C4, as the code has it: a non-empty list of flags below [2^31] whose
    entries are strictly positive in every position but the last is read
    back unchanged; the empty list is read back as [0]. *)
Theorem feature_flags_round_trip flags buffer size m :
  continuable flags ->
  0 < buffer ->
  allocated m buffer (8 * Z.max 1 (Z.of_nat (length flags))) ->
  8 * Z.max 1 (Z.of_nat (length flags)) <= size < 2 ^ 32 ->
  exists m',
    SerializeFeatureFlags flags buffer m
      = Ok (8 * Z.max 1 (Z.of_nat (length flags)), m') /\
    DeserializeFeatureFlags buffer size m'
      = Ok ((8 * Z.max 1 (Z.of_nat (length flags)),
             match flags with [] => [0] | _ :: _ => flags end), m').
Proof.
  intros Hc Hp Ha Hsz.
  assert (Hp0 : buffer <> nullptr) by (unfold nullptr; lia).
  assert (Hfuel : forall n : nat, 8 * Z.of_nat n <= size ->
                    (n <= Z.to_nat (size / 8) + 1)%nat).
  { intros n Hn. assert (Z.of_nat n <= size / 8); [|lia].
    apply Z.div_le_lower_bound; lia. }
  destruct flags as [|f rest].
  - cbn [length] in *. change (Z.max 1 (Z.of_nat 0)) with 1 in *.
    eexists. split.
    + unfold SerializeFeatureFlags. by rewrite SerializeInt64_poke.
    + unfold DeserializeFeatureFlags, bind.
      rewrite (DeserializeFeatureFlags_do_stream [0]);
        [reflexivity
        |cbn; lia
        |done
        |apply (peek_poke_le buffer 8 0)
        |cbn [length]; lia
        |apply (Hfuel 1%nat); lia].
  - rewrite Z.max_r in * by (cbn [length]; lia).
    eexists. split.
    + unfold SerializeFeatureFlags. rewrite nonnull_eqb by done. cbn [negb].
      unfold bind at 1. rewrite SerializeFeatureFlags_for_poke;
        [|by apply continuable_nonneg|done|done].
      unfold ret, to_uint. rewrite Z.mod_small by lia.
      rewrite Z.mul_comm. reflexivity.
    + unfold DeserializeFeatureFlags, bind.
      rewrite (DeserializeFeatureFlags_do_stream (f :: rest));
        [|done|done|apply peek_poke_same|lia|apply Hfuel; lia].
      unfold ret, to_uint. cbn [app]. rewrite Z.mod_small by lia.
      rewrite Z.mul_comm. reflexivity.
Qed.

(** C4, counterexamples to the claim as stated.  The non-negative list
    [0; 1] is written as the words 0 and 1; the reader stops at the first
    non-negative word and returns [0].  The list
    [2^32 + 5; 2^32 + 2] is written as the words [-(2^32 + 5)] and
    [2^32 + 2]; the reader takes the magnitude of each word as an [int]
    and returns [5; 2]. *)
Lemma feature_flags_not_read_back :
  Forall (fun f => 0 <= f < 2 ^ 63) [0; 1] /\
  (SerializeFeatureFlags [0; 1] 100;; DeserializeFeatureFlags 100 16)
    (calloc 100 16)
  = Ok ((8, [0]), poke 100 (flag_bytes [0; 1]) ∅) /\
  [0] <> [0; 1] /\
  Forall (fun f => 0 < f < 2 ^ 63) [4294967301; 4294967298] /\
  (SerializeFeatureFlags [4294967301; 4294967298] 100;;
   DeserializeFeatureFlags 100 16) (calloc 100 16)
  = Ok ((16, [5; 2]),
        poke 100 (flag_bytes [4294967301; 4294967298]) ∅) /\
  [5; 2] <> [4294967301; 4294967298].
Proof.
  split; [repeat constructor; lia|].
  split; [vm_compute; reflexivity|]. split; [done|].
  split; [repeat constructor; lia|].
  split; [vm_compute; reflexivity|done].
Qed.

Lemma feature_flags_round_trip_witness :
  exists m',
    SerializeFeatureFlags [5; 0] 100 (calloc 100 16) = Ok (16, m') /\
    DeserializeFeatureFlags 100 16 m' = Ok ((16, [5; 0]), m').
Proof.
  apply (feature_flags_round_trip [5; 0] 100 16 (calloc 100 16)).
  - cbn. lia.
  - lia.
  - apply (allocated_b_correct _ _ 16). vm_compute. reflexivity.
  - cbn. lia.
Defined.

(** ** Rules for the primitive codec on symbolic heaps *)

Lemma le_bytes_to_int n v :
  (0 < n)%nat -> le_bytes n (to_int (8 * Z.of_nat n) v) = le_bytes n v.
Proof.
  intros Hn. rewrite <- (le_bytes_mod n (to_int _ _)), <- (le_bytes_mod n v).
  f_equal. change 256 with (2 ^ 8). rewrite <- Z.pow_mul_r by lia.
  apply to_uint_to_int. lia.
Qed.

Lemma le_bytes_to_int16 v : le_bytes 2 (to_int 16 v) = le_bytes 2 v.
Proof. exact (le_bytes_to_int 2 v ltac:(lia)). Qed.
Lemma le_bytes_to_int32 v : le_bytes 4 (to_int 32 v) = le_bytes 4 v.
Proof. exact (le_bytes_to_int 4 v ltac:(lia)). Qed.
Lemma le_bytes_to_int64 v : le_bytes 8 (to_int 64 v) = le_bytes 8 v.
Proof. exact (le_bytes_to_int 8 v ltac:(lia)). Qed.

Lemma SerializeUInt16_poke v p m :
  p <> nullptr -> allocated m p 2 ->
  SerializeUInt16 v p m = Ok (2, poke p (le_bytes 2 v) m).
Proof.
  intros. unfold SerializeUInt16. rewrite SerializeInt16_poke by done.
  by rewrite le_bytes_to_int16.
Qed.

Lemma SerializeUInt32_poke v p m :
  p <> nullptr -> allocated m p 4 ->
  SerializeUInt32 v p m = Ok (4, poke p (le_bytes 4 v) m).
Proof.
  intros. unfold SerializeUInt32. rewrite SerializeInt32_poke by done.
  by rewrite le_bytes_to_int32.
Qed.

Lemma SerializeUInt64_poke v p m :
  p <> nullptr -> allocated m p 8 ->
  SerializeUInt64 v p m = Ok (8, poke p (le_bytes 8 v) m).
Proof.
  intros. unfold SerializeUInt64. rewrite SerializeInt64_poke by done.
  by rewrite le_bytes_to_int64.
Qed.

Lemma DeserializeInt32_bytes v p m :
  peek p 4 m = Some (le_bytes 4 v) ->
  DeserializeInt32 p m = Ok ((4, to_int 32 v), m).
Proof.
  intros H. rewrite DeserializeInt32_peek, H.
  pose proof (to_int_le 4 v ltac:(lia)) as E.
  change (8 * Z.of_nat 4) with 32 in E. by rewrite E.
Qed.

Lemma DeserializeInt64_bytes v p m :
  peek p 8 m = Some (le_bytes 8 v) ->
  DeserializeInt64 p m = Ok ((8, to_int 64 v), m).
Proof.
  intros H. rewrite DeserializeInt64_peek, H.
  pose proof (to_int_le 8 v ltac:(lia)) as E.
  change (8 * Z.of_nat 8) with 64 in E. by rewrite E.
Qed.

Lemma DeserializeUInt32_bytes v p m :
  peek p 4 m = Some (le_bytes 4 v) ->
  DeserializeUInt32 p m = Ok ((4, to_uint 32 v), m).
Proof.
  intros H. unfold DeserializeUInt32, bind.
  rewrite (DeserializeInt32_bytes v) by done.
  unfold ret. by rewrite to_uint_to_int.
Qed.

Lemma DeserializeUInt64_bytes v p m :
  peek p 8 m = Some (le_bytes 8 v) ->
  DeserializeUInt64 p m = Ok ((8, to_uint 64 v), m).
Proof.
  intros H. unfold DeserializeUInt64, bind.
  rewrite (DeserializeInt64_bytes v) by done.
  unfold ret. by rewrite to_uint_to_int.
Qed.

Lemma where_real buffer pos : 0 < buffer -> where_ buffer pos = pos.
Proof. intros. unfold where_. by replace (buffer =? nullptr) with false by (unfold nullptr; lia). Qed.

Lemma peek_app_intro p a b m :
  peek p (length a) m = Some a ->
  peek (p + Z.of_nat (length a)) (length b) m = Some b ->
  peek p (length (a ++ b)) m = Some (a ++ b).
Proof.
  intros Ha Hb. apply peek_intro. intros i Hi. rewrite length_app in Hi.
  destruct (decide (i < length a)%nat) as [Hlt|Hge].
  - rewrite lookup_app_l by done. by apply (peek_lookup _ _ _ _ Ha).
  - rewrite lookup_app_r by lia.
    rewrite <- (peek_lookup _ _ _ _ Hb) by lia. f_equal. lia.
Qed.

Ltac alloc_solve Ha :=
  repeat apply allocated_poke; apply (allocated_weaken _ _ _ _ _ Ha); lia.

Ltac peek_solve :=
  repeat first
    [ rewrite peek_poke_le
    | rewrite peek_poke_disjoint
        by (rewrite ?length_le_bytes; cbn [length]; lia) ].

Ltac side Ha := first [unfold nullptr; lia | alloc_solve Ha].

Ltac sym_exec Ha :=
  unfold bind;
  repeat first
    [ rewrite where_real by done
    | rewrite SerializeInt16_poke by side Ha
    | rewrite SerializeUInt16_poke by side Ha
    | rewrite SerializeInt32_poke by side Ha
    | rewrite SerializeUInt32_poke by side Ha
    | rewrite SerializeInt64_poke by side Ha
    | rewrite SerializeUInt64_poke by side Ha
    | progress cbv beta iota ].

(** ** Locators *)

(** C10, as the code has it: a locator with an empty URL is written in the
    12-byte inline form (bytes-on-storage, then position) and read back as
    the same inline locator with an empty URL, provided its
    bytes-on-storage fits a signed 32-bit integer; otherwise
    [SerializeLocator] fails with "locator too large". *)
Theorem SerializeLocator_empty_url locator buffer bufSize m :
  fUrl locator = [] ->
  in_uint 64 (fPosition locator) ->
  in_uint 32 (fBytesOnStorage locator) ->
  0 < buffer -> allocated m buffer 12 -> 12 <= bufSize ->
  (2 ^ 31 <= fBytesOnStorage locator ->
   SerializeLocator locator nullptr m = Throw locator_too_large /\
   SerializeLocator locator buffer m = Throw locator_too_large) /\
  (fBytesOnStorage locator < 2 ^ 31 ->
   SerializeLocator locator nullptr m = Ok (12, m) /\
   exists m',
     SerializeLocator locator buffer m = Ok (12, m') /\
     peek buffer 12 m'
       = Some (le_bytes 4 (fBytesOnStorage locator)
               ++ le_bytes 8 (fPosition locator)) /\
     DeserializeLocator buffer bufSize m' = Ok ((12, locator), m')).
Proof.
  destruct locator as [position bytesOnStorage url]. cbn [fUrl fPosition fBytesOnStorage].
  intros -> Hpos Hbytes Hp Ha Hsz.
  assert (Hp0 : buffer <> nullptr) by (unfold nullptr; lia).
  unfold in_uint in *. unfold SerializeLocator. cbn [fUrl fPosition fBytesOnStorage].
  split; intros Hb.
  - assert (E : to_int 32 bytesOnStorage = bytesOnStorage - 2 ^ 32).
    { unfold to_int.
      replace (bytesOnStorage + 2 ^ (32 - 1))
        with (bytesOnStorage - 2 ^ 31 + 1 * 2 ^ 32) by lia.
      rewrite Z.mod_add by lia. rewrite Z.mod_small by lia. lia. }
    rewrite E. by replace (bytesOnStorage - 2 ^ 32 <? 0) with true by lia.
  - rewrite (to_int_id 32 bytesOnStorage) by (unfold in_int; lia).
    replace (bytesOnStorage <? 0) with false by lia.
    split; [reflexivity|].
    rewrite nonnull_eqb by done. cbn [negb].
    unfold bind. rewrite SerializeUInt32_poke by (done || alloc_solve Ha).
    rewrite SerializeUInt64_poke by (unfold nullptr; lia || alloc_solve Ha).
    eexists. split; [reflexivity|].
    set (m' := poke (buffer + (0 + 4)) _ _).
    assert (H4 : peek buffer 4 m' = Some (le_bytes 4 bytesOnStorage)).
    { unfold m'. by peek_solve. }
    assert (H8 : peek (buffer + 4) 8 m' = Some (le_bytes 8 position)).
    { unfold m'. change (0 + 4) with 4. by peek_solve. }
    split.
    + apply (peek_app_intro buffer (le_bytes 4 bytesOnStorage)
               (le_bytes 8 position)); by rewrite length_le_bytes.
    + unfold DeserializeLocator.
      replace (bufSize <? 4) with false by lia.
      unfold bind. rewrite (DeserializeInt32_bytes bytesOnStorage) by done.
      rewrite (to_int_id 32 bytesOnStorage) by (unfold in_int; lia).
      replace (bytesOnStorage <? 0) with false by lia.
      replace (bufSize - 4 <? 8) with false by lia.
      rewrite (DeserializeUInt64_bytes position) by done.
      unfold ret. rewrite !to_uint_id by (unfold in_uint; lia).
      do 3 f_equal. unfold to_uint. replace (buffer + 4 + 8 - buffer) with 12 by lia.
      done.
Qed.

(** C10, counterexample to the claim as stated: with an empty URL and
    bytes-on-storage [2^31] nothing is emitted; the call fails. *)
Lemma SerializeLocator_empty_url_too_large :
  SerializeLocator {| fPosition := 0; fBytesOnStorage := 2 ^ 31; fUrl := [] |}
    100 (calloc 100 12)
  = Throw locator_too_large /\
  SerializeLocator {| fPosition := 0; fBytesOnStorage := 2 ^ 31; fUrl := [] |}
    nullptr (calloc 100 12)
  = Throw locator_too_large.
Proof. split; vm_compute; reflexivity. Qed.

Lemma SerializeLocator_empty_url_witness :
  exists m',
    SerializeLocator {| fPosition := 7; fBytesOnStorage := 42; fUrl := [] |}
      100 (calloc 100 12) = Ok (12, m') /\
    peek 100 12 m' = Some (le_bytes 4 42 ++ le_bytes 8 7) /\
    DeserializeLocator 100 12 m'
      = Ok ((12, {| fPosition := 7; fBytesOnStorage := 42; fUrl := [] |}), m').
Proof.
  apply (SerializeLocator_empty_url
           {| fPosition := 7; fBytesOnStorage := 42; fUrl := [] |}
           100 12 (calloc 100 12)).
  - reflexivity.
  - unfold in_uint. cbn. lia.
  - unfold in_uint. cbn. lia.
  - lia.
  - apply (allocated_b_correct _ _ 12). vm_compute. reflexivity.
  - lia.
  - cbn. lia.
Defined.

(** ** Frames on the write path *)

Lemma peek_allocated p n m bs : peek p n m = Some bs -> allocated m p (Z.of_nat n).
Proof.
  intros H a Ha. pose proof (peek_lookup _ _ _ _ H (Z.to_nat (a - p))) as L.
  replace (p + Z.of_nat (Z.to_nat (a - p))) with a in L by lia.
  rewrite L by lia. apply lookup_lt_is_Some.
  rewrite (peek_length _ _ _ _ H). lia.
Qed.

Lemma SerializeFramePostscript_record frame size m :
  0 < frame -> 4 <= size < 2 ^ 31 ->
  peek frame 4 m = Some (le_bytes 4 1) ->
  SerializeFramePostscript frame size m
  = Ok (0, poke frame (le_bytes 4 size) m).
Proof.
  intros Hp Hsz Hpk. unfold SerializeFramePostscript.
  replace (size <? 0) with false by lia.
  replace (size <? 4) with false by lia.
  replace (frame =? nullptr) with false by (unfold nullptr; lia).
  cbn [negb]. unfold bind.
  rewrite (DeserializeInt32_bytes 1) by done.
  change (to_int 32 1) with 1. cbn [Z.ltb Z.compare andb].
  rewrite Z.mul_1_l.
  rewrite SerializeInt32_poke;
    [by rewrite le_bytes_to_int32|unfold nullptr; lia|].
  by apply (peek_allocated _ 4 _ _ Hpk).
Qed.

Lemma SerializeFramePostscript_list frame size m :
  0 < frame -> 8 <= size < 2 ^ 31 ->
  peek frame 4 m = Some (le_bytes 4 (-1)) ->
  SerializeFramePostscript frame size m
  = Ok (0, poke frame (le_bytes 4 (- size)) m).
Proof.
  intros Hp Hsz Hpk. unfold SerializeFramePostscript.
  replace (size <? 0) with false by lia.
  replace (size <? 4) with false by lia.
  replace (frame =? nullptr) with false by (unfold nullptr; lia).
  cbn [negb]. unfold bind.
  rewrite (DeserializeInt32_bytes (-1)) by done.
  change (to_int 32 (-1)) with (-1).
  replace (size <? 2 * 4) with false by lia. cbn [Z.ltb Z.compare andb].
  replace (-1 * size) with (- size) by lia.
  rewrite SerializeInt32_poke;
    [by rewrite le_bytes_to_int32|unfold nullptr; lia|].
  by apply (peek_allocated _ 4 _ _ Hpk).
Qed.

Lemma SerializeListFramePreamble_poke nitems frame m :
  0 < frame -> 0 <= nitems < 2 ^ 28 -> allocated m frame 8 ->
  SerializeListFramePreamble nitems frame m
  = Ok (8, poke (frame + 4) (le_bytes 4 nitems)
             (poke frame (le_bytes 4 (-1)) m)).
Proof.
  intros Hp Hn Ha. unfold SerializeListFramePreamble.
  replace (nitems >=? Z.shiftl 1 28) with false
    by (change (Z.shiftl 1 28) with (2 ^ 28); lia).
  sym_exec Ha.
  unfold ret, to_uint. replace (frame + 4 + 4 - frame) with 8 by lia.
  done.
Qed.

(** Every record frame completed by [SerializeFramePostscript] with its
    own size has that size in its head. *)
Lemma record_frame_head frame size m :
  0 < frame -> 4 <= size < 2 ^ 31 ->
  peek frame 4 m = Some (le_bytes 4 1) ->
  exists m', SerializeFramePostscript frame size m = Ok (0, m') /\
             DeserializeInt32 frame m' = Ok ((4, size), m').
Proof.
  intros Hp Hsz Hpk. eexists. split.
  - by apply SerializeFramePostscript_record.
  - rewrite DeserializeInt32_poke. by rewrite to_int_id by (unfold in_int; lia).
Qed.

Lemma SerializeListFramePreamble_bytes nitems frame m :
  0 < frame -> 0 <= nitems < 2 ^ 28 -> allocated m frame 8 ->
  exists m', SerializeListFramePreamble nitems frame m = Ok (8, m') /\
             peek frame 8 m' = Some (le_bytes 4 (-1) ++ le_bytes 4 nitems).
Proof.
  intros Hp Hn Ha. eexists. split.
  - by apply SerializeListFramePreamble_poke.
  - apply (peek_app_intro frame (le_bytes 4 (-1)) (le_bytes 4 nitems));
      by peek_solve.
Qed.

(** Every list frame of [n < 2^28] items completed with its own size has
    the negated size in its head and [n] in the following word. *)
Lemma list_frame_head nitems frame size m :
  0 < frame -> 0 <= nitems < 2 ^ 28 -> 8 <= size < 2 ^ 31 ->
  peek frame 8 m = Some (le_bytes 4 (-1) ++ le_bytes 4 nitems) ->
  exists m', SerializeFramePostscript frame size m = Ok (0, m') /\
             DeserializeInt32 frame m' = Ok ((4, - size), m') /\
             DeserializeUInt32 (frame + 4) m' = Ok ((4, nitems), m').
Proof.
  intros Hp Hn Hsz H8.
  apply (peek_app frame (le_bytes 4 (-1)) (le_bytes 4 nitems)) in H8
    as [H4 H4'].
  rewrite length_le_bytes in H4, H4'.
  eexists. split; [by apply SerializeFramePostscript_list|]. split.
  - rewrite DeserializeInt32_poke. by rewrite to_int_id by (unfold in_int; lia).
  - rewrite (DeserializeUInt32_bytes nitems).
    + by rewrite to_uint_id by (unfold in_uint; lia).
    + by peek_solve.
Qed.

(** ** Cluster summaries *)

Lemma DeserializeFrame_record buffer bufSize size m :
  peek buffer 4 m = Some (le_bytes 4 size) ->
  4 <= size < 2 ^ 31 -> size <= bufSize ->
  DeserializeFrame buffer bufSize m = Ok ((4, size, 1), m).
Proof.
  intros Hpk Hsz Hbuf. unfold DeserializeFrame.
  replace (bufSize <? 4) with false by lia.
  unfold bind. rewrite (DeserializeInt32_bytes size) by done.
  rewrite (to_int_id 32 size) by (unfold in_int; lia).
  replace (size >=? 0) with true by lia.
  rewrite (to_uint_id 32 size) by (unfold in_uint; lia).
  replace (size <? 4) with false by lia. unfold ret. cbv beta iota.
  rewrite !(to_uint_id 32 size) by (unfold in_uint; lia).
  replace (bufSize <? size) with false by lia.
  replace (buffer + 4 - buffer) with 4 by lia. reflexivity.
Qed.

Lemma peek_4_8_8_4 p a b c d m :
  length a = 4%nat -> length b = 8%nat -> length c = 8%nat ->
  length d = 4%nat ->
  peek p 4 m = Some a -> peek (p + 4) 8 m = Some b ->
  peek (p + 4 + 8) 8 m = Some c -> peek (p + 4 + 8 + 8) 4 m = Some d ->
  peek p 24 m = Some (a ++ b ++ c ++ d).
Proof.
  intros La Lb Lc Ld Ha Hb Hc Hd.
  assert (L : length (a ++ b ++ c ++ d) = 24%nat)
    by (rewrite !length_app; lia).
  rewrite <- L. rewrite <- La in Ha. rewrite <- Lb in Hb.
  rewrite <- Lc in Hc. rewrite <- Ld in Hd.
  apply peek_app_intro; [done|]. rewrite La.
  apply peek_app_intro; [done|]. rewrite Lb.
  apply peek_app_intro; [done|]. rewrite Lc. done.
Qed.

Lemma peek_4_8_8 p a b c m :
  length a = 4%nat -> length b = 8%nat -> length c = 8%nat ->
  peek p 4 m = Some a -> peek (p + 4) 8 m = Some b ->
  peek (p + 4 + 8) 8 m = Some c ->
  peek p 20 m = Some (a ++ b ++ c).
Proof.
  intros La Lb Lc Ha Hb Hc.
  assert (L : length (a ++ b ++ c) = 20%nat) by (rewrite !length_app; lia).
  rewrite <- L. rewrite <- La in Ha. rewrite <- Lb in Hb.
  rewrite <- Lc in Hc.
  apply peek_app_intro; [done|]. rewrite La.
  apply peek_app_intro; [done|]. rewrite Lb. done.
Qed.

(** C7, as the code has it: a cluster summary whose entry count is below
    [2^63] and whose column group is at least -1 is read back unchanged,
    provided the entry count is not zero when a column group is given.  The
    emitted frame holds the entry count negated and followed by the column
    group exactly when the column group is non-negative, and the entry
    count verbatim otherwise (decoded with column group -1). *)
Theorem cluster_summary_round_trip cs buffer bufSize m :
  in_uint 64 (fFirstEntry cs) ->
  0 <= fNEntries cs < 2 ^ 63 ->
  -1 <= fColumnGroupID cs < 2 ^ 31 ->
  (0 <= fColumnGroupID cs -> 0 < fNEntries cs) ->
  0 < buffer -> allocated m buffer 24 -> 24 <= bufSize < 2 ^ 32 ->
  exists m',
    SerializeClusterSummary cs buffer m
      = Ok (Z.of_nat (length (cluster_summary_bytes cs)), m') /\
    peek buffer (length (cluster_summary_bytes cs)) m'
      = Some (cluster_summary_bytes cs) /\
    DeserializeClusterSummary buffer bufSize m'
      = Ok ((Z.of_nat (length (cluster_summary_bytes cs)), cs), m').
Proof.
  destruct cs as [first n group].
  unfold cluster_summary_bytes, SerializeClusterSummary.
  cbn [fFirstEntry fNEntries fColumnGroupID].
  intros Hfirst Hn Hg Hpos Hp Ha Hsz. unfold in_uint in Hfirst.
  destruct (Z.geb_spec group 0) as [Hge|Hlt].
  - unfold SerializeRecordFramePreamble.
    rewrite (to_int_id 64 n) by (unfold in_int; lia).
    rewrite (to_int_id 64 (- n)) by (unfold in_int; lia).
    rewrite (to_uint_id 32 group) by (unfold in_uint; lia).
    sym_exec Ha.
    unfold ret. sym_exec Ha.
    replace (buffer + 4 + 8 + 8 + 4 - buffer) with 24 by lia.
    change (to_int 32 24) with 24.
    rewrite SerializeFramePostscript_record; [|done|lia|by peek_solve].
    cbv beta iota.
    eexists. split; [reflexivity|].
    set (m' := poke buffer (le_bytes 4 24) _).
    assert (H0 : peek buffer 4 m' = Some (le_bytes 4 24))
      by (unfold m'; by peek_solve).
    assert (H1 : peek (buffer + 4) 8 m' = Some (le_bytes 8 first))
      by (unfold m'; by peek_solve).
    assert (H2 : peek (buffer + 4 + 8) 8 m' = Some (le_bytes 8 (- n)))
      by (unfold m'; by peek_solve).
    assert (H3 : peek (buffer + 4 + 8 + 8) 4 m' = Some (le_bytes 4 group))
      by (unfold m'; by peek_solve).
    split; [by apply peek_4_8_8_4|].
    unfold DeserializeClusterSummary, DeserializeFrame', bind.
    rewrite (DeserializeFrame_record buffer bufSize 24) by (done || lia).
    unfold ret. cbv beta iota.
    change (to_uint 32 (24 - 4) <? 2 * 8) with false. cbv beta iota.
    rewrite (DeserializeUInt64_bytes first) by done.
    rewrite (DeserializeInt64_bytes (- n)) by done.
    rewrite (to_int_id 64 (- n)) by (unfold in_int; lia).
    replace (- n <? 0) with true by lia.
    change (to_uint 32 (to_uint 32 (to_uint 32 (24 - 4) - 8) - 8) <? 4)
      with false. cbv beta iota.
    rewrite (DeserializeUInt32_bytes group) by done.
    rewrite Z.opp_involutive.
    rewrite (to_uint_id 64 first), (to_uint_id 64 n), (to_uint_id 32 group)
      by (unfold in_uint; lia).
    rewrite (to_int_id 32 group) by (unfold in_int; lia).
    reflexivity.
  - unfold SerializeRecordFramePreamble.
    rewrite (to_int_id 64 n) by (unfold in_int; lia).
    sym_exec Ha. unfold ret. sym_exec Ha.
    replace (buffer + 4 + 8 + 8 - buffer) with 20 by lia.
    change (to_int 32 20) with 20.
    rewrite SerializeFramePostscript_record; [|done|lia|by peek_solve].
    cbv beta iota.
    eexists. split; [reflexivity|].
    set (m' := poke buffer (le_bytes 4 20) _).
    assert (H0 : peek buffer 4 m' = Some (le_bytes 4 20))
      by (unfold m'; by peek_solve).
    assert (H1 : peek (buffer + 4) 8 m' = Some (le_bytes 8 first))
      by (unfold m'; by peek_solve).
    assert (H2 : peek (buffer + 4 + 8) 8 m' = Some (le_bytes 8 n))
      by (unfold m'; by peek_solve).
    split; [by apply peek_4_8_8|].
    unfold DeserializeClusterSummary, DeserializeFrame', bind.
    rewrite (DeserializeFrame_record buffer bufSize 20) by (done || lia).
    unfold ret. cbv beta iota.
    change (to_uint 32 (20 - 4) <? 2 * 8) with false. cbv beta iota.
    rewrite (DeserializeUInt64_bytes first) by done.
    rewrite (DeserializeInt64_bytes n) by done.
    rewrite (to_int_id 64 n) by (unfold in_int; lia).
    replace (n <? 0) with false by lia.
    rewrite (to_uint_id 64 first), (to_uint_id 64 n) by (unfold in_uint; lia).
    replace group with (-1) by lia.
    reflexivity.
Qed.

(** C7, counterexample to the claim as stated: the summary with zero
    entries and column group 0 satisfies the claim's bounds, is written with
    the entry count [-0 = 0], and is read back with column group -1. *)
Lemma cluster_summary_zero_entries :
  (SerializeClusterSummary
     {| fFirstEntry := 0; fNEntries := 0; fColumnGroupID := 0 |} 100;;
   DeserializeClusterSummary 100 24) (calloc 100 24)
  = Ok ((24, {| fFirstEntry := 0; fNEntries := 0; fColumnGroupID := -1 |}),
        poke 100 [24] (calloc 100 24)) /\
  {| fFirstEntry := 0; fNEntries := 0; fColumnGroupID := -1 |}
  <> {| fFirstEntry := 0; fNEntries := 0; fColumnGroupID := 0 |}.
Proof. split; [vm_compute; reflexivity|done]. Qed.

Lemma cluster_summary_round_trip_witness :
  exists m',
    SerializeClusterSummary
      {| fFirstEntry := 10; fNEntries := 5; fColumnGroupID := 3 |} 100
      (calloc 100 24) = Ok (24, m') /\
    peek 100 24 m'
      = Some (le_bytes 4 24 ++ le_bytes 8 10 ++ le_bytes 8 (-5)
              ++ le_bytes 4 3) /\
    DeserializeClusterSummary 100 24 m'
      = Ok ((24, {| fFirstEntry := 10; fNEntries := 5;
                    fColumnGroupID := 3 |}), m').
Proof.
  apply (cluster_summary_round_trip
           {| fFirstEntry := 10; fNEntries := 5; fColumnGroupID := 3 |}
           100 24 (calloc 100 24)).
  - unfold in_uint. cbn. lia.
  - cbn. lia.
  - cbn. lia.
  - cbn. lia.
  - lia.
  - apply (allocated_b_correct _ _ 24). vm_compute. reflexivity.
  - lia.
Defined.


(** ** Header serialization on small descriptors *)

(** C2 (the code departs from the claim): the record frame of the second
    field, "bc", is 38 bytes long, but its head holds 75, the running total
    of both field records, because [SerializeFieldsV1] hands the
    accumulated [size] to [SerializeFramePostscript].  (Both records are
    written at the same address; the frame read here is the one of "bc".) *)
Theorem field_frame_head_is_running_total :
  exists context m',
    SerializeFieldsV1 3 two_field_desc RContext_new 100 (calloc 100 40)
      = Ok ((75, context), m') /\
    field_record_size (leaf_field 2 [98; 99]) = 38 /\
    DeserializeString (100 + 20) 20 m' = Ok ((6, [98; 99]), m') /\
    DeserializeInt32 100 m' = Ok ((4, 75), m').
Proof.
  do 2 eexists. split; [vm_compute; reflexivity|].
  repeat split; vm_compute; reflexivity.
Qed.

(** The size-only run of the header: the frame cursor is a small non-null
    address, so [SerializeFramePostscript] reads its marker through it. *)
Example header_size_only_run GetBitsOnStorage R__crc32 :
  SerializeHeaderV1 GetBitsOnStorage R__crc32 2 nullptr one_field_desc ∅
  = Throw invalid_memory_access.
Proof. vm_compute. reflexivity. Qed.

(** C1 (the code departs from the claim): for the descriptor with the
    single field "a" the header contents are 82 bytes by the format, 37 of
    them the field record; [SerializeHeaderV1] stores 45, because it does
    not add the byte count returned by [SerializeFieldsV1]. *)
Theorem header_size_omits_field_records GetBitsOnStorage :
  exists context m',
    SerializeHeaderV1 GetBitsOnStorage crc32_ieee 2 100 one_field_desc
      (calloc 100 90) = Ok (context, m') /\
    fHeaderSize context = 45 /\
    header_contents_size one_field_desc [leaf_field 1 [97]] [] = 82 /\
    field_record_size (leaf_field 1 [97]) = 37.
Proof.
  do 2 eexists. split; [vm_compute; reflexivity|].
  repeat split; vm_compute; reflexivity.
Qed.

(** ** Physical field IDs *)

Section Fields.

Variable desc : RNTupleDescriptor.

Lemma queue_order_level l acc fuel :
  queue_order (length l + fuel) desc (l ++ acc)
  = option_map (app l)
      (queue_order fuel desc (acc ++ flat_map (child_ids desc) l)).
Proof.
  revert acc. induction l as [|p l IH]; intros acc.
  - cbn [length app flat_map Nat.add]. rewrite app_nil_r.
    by destruct (queue_order fuel desc acc).
  - cbn [length app Nat.add queue_order flat_map].
    rewrite <- app_assoc. rewrite IH. rewrite <- app_assoc.
    by destruct (queue_order fuel desc _).
Qed.

Lemma queue_order_fuel fuel fuel' q order :
  queue_order fuel desc q = Some order -> (fuel <= fuel')%nat ->
  queue_order fuel' desc q = Some order.
Proof.
  revert fuel' q order. induction fuel as [|fuel IH]; intros fuel' q order H Hle.
  - destruct q; [|done]. by destruct fuel'.
  - destruct q as [|p q]; [by destruct fuel'|].
    destruct fuel' as [|fuel']; [lia|]. cbn [queue_order] in *.
    destruct (queue_order fuel desc _) as [o|] eqn:E; [|done].
    by rewrite (IH fuel' _ o E) by lia.
Qed.

Lemma queue_order_levels depth level :
  nth_level desc depth level = [] ->
  queue_order (length (level_order desc depth level)) desc level
  = Some (level_order desc depth level).
Proof.
  revert level. induction depth as [|depth IH]; intros level H.
  - cbn in H. by subst level.
  - cbn [nth_level] in H. cbn [level_order].
    rewrite length_app.
    pose proof (queue_order_level level []
                  (length (level_order desc depth
                             (flat_map (child_ids desc) level)))) as E.
    rewrite app_nil_r in E. cbn [app] in E. rewrite E.
    by rewrite IH.
Qed.

Lemma map_fields_snoc c ids id :
  map_fields c (ids ++ [id]) = snd (MapFieldId id (map_fields c ids)).
Proof. unfold map_fields. by rewrite foldl_app. Qed.

Lemma map_fields_phys2mem c ids :
  fPhys2MemFieldIDs (map_fields c ids) = fPhys2MemFieldIDs c ++ ids.
Proof.
  induction ids as [|id ids IH] using rev_ind.
  - by rewrite app_nil_r.
  - rewrite map_fields_snoc. cbn [MapFieldId snd fPhys2MemFieldIDs].
    by rewrite IH, app_assoc.
Qed.

Lemma map_fields_other c ids (id : Z) :
  id ∉ ids ->
  fMem2PhysFieldIDs (map_fields c ids) !! id = fMem2PhysFieldIDs c !! id.
Proof.
  induction ids as [|x ids IH] using rev_ind; intros Hni; [done|].
  rewrite map_fields_snoc. cbn [MapFieldId snd fMem2PhysFieldIDs].
  rewrite not_elem_of_app, list_elem_of_singleton in Hni.
  destruct Hni as [Hni Hne].
  rewrite lookup_insert_ne by done. by apply IH.
Qed.

Lemma map_fields_mem2phys c ids (i : nat) (id : Z) :
  NoDup ids -> ids !! i = Some id ->
  fMem2PhysFieldIDs (map_fields c ids) !! id
  = Some (Z.of_nat (length (fPhys2MemFieldIDs c) + i)).
Proof.
  revert i. induction ids as [|x ids IH] using rev_ind; intros i Hnd Hi;
    [done|].
  rewrite map_fields_snoc. cbn [MapFieldId snd fMem2PhysFieldIDs].
  apply NoDup_app in Hnd as (Hnd & Hdisj & _).
  destruct (decide (i < length ids)%nat) as [Hlt|Hge].
  - rewrite lookup_app_l in Hi by done.
    assert (id ∈ ids) by (by eapply list_elem_of_lookup_2).
    assert (x <> id).
    { intros ->. apply (Hdisj id); [done|]. by apply list_elem_of_singleton. }
    rewrite lookup_insert_ne by done. by apply IH.
  - apply lookup_lt_Some in Hi as Hi'. rewrite length_app in Hi'.
    cbn [length] in Hi'. assert (i = length ids) as -> by lia.
    rewrite list_lookup_middle in Hi by done. injection Hi as ->.
    rewrite lookup_insert_eq, map_fields_phys2mem, length_app. done.
Qed.

(** What [MapFieldId] leaves alone: the physical-to-memory vector only
    grows, and the entry of every other field stays. *)
Lemma MapFieldId_stable memId c :
  let c' := snd (MapFieldId memId c) in
  fst (MapFieldId memId c) = Z.of_nat (length (fPhys2MemFieldIDs c)) /\
  (forall (i : nat) id, fPhys2MemFieldIDs c !! i = Some id ->
                        fPhys2MemFieldIDs c' !! i = Some id) /\
  (forall id physId, id <> memId ->
                     fMem2PhysFieldIDs c !! id = Some physId ->
                     fMem2PhysFieldIDs c' !! id = Some physId).
Proof.
  cbn [MapFieldId fst snd fPhys2MemFieldIDs fMem2PhysFieldIDs].
  split; [done|]. split.
  - intros i id H. by apply lookup_app_l_Some.
  - intros id physId Hne H. by rewrite lookup_insert_ne.
Qed.

Lemma SerializeFieldsV1_for_queue fs phys buffer size q m size' q' m' :
  SerializeFieldsV1_for fs phys buffer size q m = Ok ((size', q'), m') ->
  q' = q ++ map GetId fs.
Proof.
  revert size q m. induction fs as [|f fs IH]; intros size q m H.
  - injection H as <- <- <-. by rewrite app_nil_r.
  - cbn [SerializeFieldsV1_for] in H.
    apply bind_Ok in H as (size1 & m1 & _ & H).
    apply IH in H. rewrite H, <- app_assoc. done.
Qed.

Lemma SerializeFieldsV1_while_context fuel c buffer q size m size' c' m' :
  SerializeFieldsV1_while fuel desc c buffer q size m = Ok ((size', c'), m') ->
  exists order, queue_order fuel desc q = Some order /\
                c' = map_fields c order.
Proof.
  revert c q size m. induction fuel as [|fuel IH]; intros c q size m H.
  - destruct q as [|p q]; [|done]. injection H as <- <- <-. by exists [].
  - destruct q as [|p q]; [injection H as <- <- <-; by exists []|].
    cbn [SerializeFieldsV1_while] in H.
    destruct (MapFieldId p c) as [phys c1] eqn:Emap.
    apply bind_Ok in H as ([size1 q1] & m1 & Hfor & H).
    apply SerializeFieldsV1_for_queue in Hfor as ->.
    apply IH in H as (order & Hq & ->).
    exists (p :: order). cbn [queue_order]. unfold child_ids. rewrite Hq.
    split; [done|]. unfold map_fields. cbn [foldl]. by rewrite Emap.
Qed.

(** *** The size-only run *)

Lemma where_null pos : where_ nullptr pos = nullptr.
Proof. reflexivity. Qed.

Lemma SerializeUInt16_null v m : SerializeUInt16 v nullptr m = Ok (2, m).
Proof. reflexivity. Qed.
Lemma SerializeUInt32_null v m : SerializeUInt32 v nullptr m = Ok (4, m).
Proof. reflexivity. Qed.
Lemma SerializeUInt64_null v m : SerializeUInt64 v nullptr m = Ok (8, m).
Proof. reflexivity. Qed.

Lemma SerializeString_null s m :
  Z.of_nat (length s) < 2 ^ 31 ->
  SerializeString s nullptr m = Ok (4 + Z.of_nat (length s), m).
Proof.
  intros H. unfold SerializeString. cbn [Z.eqb nullptr negb]. unfold bind, ret.
  by rewrite to_uint_id by (unfold in_uint; lia).
Qed.

Lemma SerializeFieldStructure_null s m :
  s <> kUnknownStructure -> SerializeFieldStructure s nullptr m = Ok (2, m).
Proof. by destruct s. Qed.

Lemma SerializeFramePostscript_null size m :
  4 <= size -> SerializeFramePostscript nullptr size m = Ok (0, m).
Proof.
  intros H. unfold SerializeFramePostscript.
  replace (size <? 0) with false by lia.
  by replace (size <? 4) with false by lia.
Qed.

Lemma field_record_size_lower f : 36 <= field_record_size f.
Proof. unfold field_record_size. destruct (GetNRepetitions f >? 0); lia. Qed.

Lemma SerializeFieldsV1_body_null f phys size m :
  GetStructure f <> kUnknownStructure ->
  0 <= size -> size + field_record_size f < 2 ^ 31 ->
  SerializeFieldsV1_body f phys nullptr size m
  = Ok (size + field_record_size f, m).
Proof.
  intros Hs Hsz Hlt. pose proof (field_record_size_lower f) as Hlo.
  unfold field_record_size in *. unfold SerializeFieldsV1_body.
  unfold SerializeRecordFramePreamble, bind.
  rewrite !where_null, SerializeInt32_null. cbv beta iota.
  rewrite !SerializeUInt32_null. cbv beta iota.
  rewrite SerializeFieldStructure_null by done. cbv beta iota.
  destruct (GetNRepetitions f >? 0).
  - rewrite SerializeUInt16_null. cbv beta iota.
    rewrite SerializeUInt64_null. unfold ret. cbv beta iota.
    rewrite !SerializeString_null by (cbn [length]; lia). cbv beta iota.
    cbn [length Z.of_nat].
    match goal with
    | |- context [to_uint 32 ?x] =>
        replace x with (size + (4 + 4 + 4 + 4 + 2 + (2 + 8)
          + (4 + Z.of_nat (length (GetFieldName f)))
          + (4 + Z.of_nat (length (GetTypeName f))) + 4
          + (4 + Z.of_nat (length (GetFieldDescription f))))) by lia
    end.
    rewrite to_uint_id by (unfold in_uint; lia).
    rewrite to_int_id by (unfold in_int; lia).
    rewrite SerializeFramePostscript_null by lia. done.
  - rewrite SerializeUInt16_null. unfold ret. cbv beta iota.
    rewrite !SerializeString_null by (cbn [length]; lia). cbv beta iota.
    cbn [length Z.of_nat].
    match goal with
    | |- context [to_uint 32 ?x] =>
        replace x with (size + (4 + 4 + 4 + 4 + 2 + 2
          + (4 + Z.of_nat (length (GetFieldName f)))
          + (4 + Z.of_nat (length (GetTypeName f))) + 4
          + (4 + Z.of_nat (length (GetFieldDescription f))))) by lia
    end.
    rewrite to_uint_id by (unfold in_uint; lia).
    rewrite to_int_id by (unfold in_int; lia).
    rewrite SerializeFramePostscript_null by lia. done.
Qed.

Lemma sum_list_app l1 l2 : sum_list (l1 ++ l2) = sum_list l1 + sum_list l2.
Proof.
  unfold sum_list. induction l1 as [|x l1 IH]; cbn [app foldr]; lia.
Qed.

Lemma sum_field_sizes_nonneg fs : 0 <= sum_list (map field_record_size fs).
Proof.
  induction fs as [|f fs IH]; [done|]. cbn [map].
  change (sum_list (?x :: ?l)) with (x + sum_list l).
  pose proof (field_record_size_lower f). lia.
Qed.

Lemma SerializeFieldsV1_for_null fs phys size q m :
  Forall (fun f => GetStructure f <> kUnknownStructure) fs ->
  0 <= size -> size + sum_list (map field_record_size fs) < 2 ^ 31 ->
  SerializeFieldsV1_for fs phys nullptr size q m
  = Ok ((size + sum_list (map field_record_size fs), q ++ map GetId fs), m).
Proof.
  revert size q. induction fs as [|f fs IH]; intros size q Hv Hsz Hlt.
  - cbn. by rewrite Z.add_0_r, app_nil_r.
  - apply Forall_cons in Hv as [Hf Hv]. cbn [map] in *.
    change (sum_list (?x :: ?l)) with (x + sum_list l) in *.
    pose proof (field_record_size_lower f).
    pose proof (sum_field_sizes_nonneg fs).
    cbn [SerializeFieldsV1_for]. unfold bind.
    rewrite SerializeFieldsV1_body_null by (done || lia).
    rewrite IH by (done || lia).
    rewrite <- app_assoc. do 3 f_equal. lia.
Qed.

Lemma SerializeFieldsV1_while_null fuel c q size m order :
  queue_order fuel desc q = Some order ->
  Forall (fun f => GetStructure f <> kUnknownStructure)
    (emitted_fields desc order) ->
  0 <= size ->
  size + sum_list (map field_record_size (emitted_fields desc order))
    < 2 ^ 31 ->
  SerializeFieldsV1_while fuel desc c nullptr q size m
  = Ok ((size + sum_list (map field_record_size (emitted_fields desc order)),
         map_fields c order), m).
Proof.
  revert c q size order.
  induction fuel as [|fuel IH]; intros c q size order Hq Hv Hsz Hlt.
  - destruct q; [|done]. injection Hq as <-. cbn. by rewrite Z.add_0_r.
  - destruct q as [|p q].
    { injection Hq as <-. cbn. by rewrite Z.add_0_r. }
    cbn [queue_order] in Hq.
    destruct (queue_order fuel desc _) as [o|] eqn:E; [|done].
    injection Hq as <-.
    unfold emitted_fields in *. cbn [flat_map] in *.
    rewrite map_app, sum_list_app in *.
    apply Forall_app in Hv as [Hv1 Hv2].
    pose proof (sum_field_sizes_nonneg (GetFieldIterable desc p)).
    pose proof (sum_field_sizes_nonneg (flat_map (GetFieldIterable desc) o)).
    cbn [SerializeFieldsV1_while].
    destruct (MapFieldId p c) as [phys c1] eqn:Emap.
    unfold bind. rewrite SerializeFieldsV1_for_null by (done || lia).
    rewrite (IH c1 _ _ o) by (done || lia).
    unfold map_fields. cbn [foldl]. rewrite Emap. cbn [snd].
    do 3 f_equal. lia.
Qed.

(** *** The run on a real buffer *)

Lemma SerializeString_store s p m :
  0 < p -> Z.of_nat (length s) < 2 ^ 31 ->
  allocated m p (4 + Z.of_nat (length s)) ->
  SerializeString s p m
  = Ok (4 + Z.of_nat (length s),
        poke (p + 4) (map (to_uint 8) s)
          (poke p (le_bytes 4 (Z.of_nat (length s))) m)).
Proof.
  intros Hp Hl Ha. unfold SerializeString.
  replace (p =? nullptr) with false by (unfold nullptr; lia). cbn [negb].
  rewrite !to_uint_id by (unfold in_uint; lia).
  unfold bind. rewrite SerializeUInt32_poke by side Ha.
  by rewrite store_bytes_poke by alloc_solve Ha.
Qed.

Lemma SerializeFieldStructure_store s :
  s <> kUnknownStructure ->
  exists tag, forall p m,
    0 < p -> allocated m p 2 ->
    SerializeFieldStructure s p m = Ok (2, poke p (le_bytes 2 tag) m).
Proof.
  intros Hs.
  destruct s; try done; cbn [SerializeFieldStructure]; eexists;
    intros p m Hp Ha; apply SerializeUInt16_poke;
    (done || unfold nullptr; lia).
Qed.

Lemma SerializeFieldsV1_body_run f phys buffer size m :
  GetStructure f <> kUnknownStructure ->
  0 < buffer -> 0 <= size -> size + field_record_size f < 2 ^ 31 ->
  allocated m buffer (field_record_size f) ->
  exists m',
    SerializeFieldsV1_body f phys buffer size m
      = Ok (size + field_record_size f, m') /\
    (forall q n, allocated m q n -> allocated m' q n).
Proof.
  intros Hs Hb Hsz Hlt Ha. pose proof (field_record_size_lower f) as Hlo.
  destruct (SerializeFieldStructure_store _ Hs) as [tag Htag].
  unfold field_record_size in *. unfold SerializeFieldsV1_body.
  unfold SerializeRecordFramePreamble.
  assert (Hfin : forall total m0,
            4 <= total < 2 ^ 31 ->
            peek buffer 4 m0 = Some (le_bytes 4 1) ->
            (forall q n, allocated m q n -> allocated m0 q n) ->
            exists m',
              match SerializeFramePostscript buffer
                      (to_int 32 (to_uint 32 total)) m0 with
              | Ok (_, m'0) => Ok (to_uint 32 total, m'0)
              | Throw e => Throw e
              | OutOfFuel => OutOfFuel
              end = Ok (total, m') /\
              (forall q n, allocated m q n -> allocated m' q n)).
  { intros total m0 Htot Hpk Hal.
    rewrite to_uint_id by (unfold in_uint; lia).
    rewrite to_int_id by (unfold in_int; lia).
    rewrite SerializeFramePostscript_record; [|done|lia|done].
    eexists. split; [reflexivity|].
    intros q n Hq. by apply allocated_poke, Hal. }
  destruct (GetNRepetitions f >? 0).
  - unfold bind.
    repeat first
      [ rewrite where_real by done
      | rewrite SerializeInt32_poke by side Ha
      | rewrite SerializeUInt16_poke by side Ha
      | rewrite SerializeUInt32_poke by side Ha
      | rewrite SerializeUInt64_poke by side Ha
      | rewrite Htag by (lia || alloc_solve Ha)
      | rewrite SerializeString_store by (cbn [length]; lia || alloc_solve Ha)
      | progress cbv beta iota
      | progress unfold ret ].
    match goal with
    | |- context [to_uint 32 ?x] =>
        replace x with (size + (4 + 4 + 4 + 4 + 2 + (2 + 8)
          + (4 + Z.of_nat (length (GetFieldName f)))
          + (4 + Z.of_nat (length (GetTypeName f))) + 4
          + (4 + Z.of_nat (length (GetFieldDescription f)))))
          by (cbn [length]; lia)
    end.
    apply Hfin; [lia| |].
    + rewrite !peek_poke_disjoint
        by (rewrite ?length_map, ?length_le_bytes; cbn [length]; lia).
      apply peek_poke_le.
    + intros q n Hq. by repeat apply allocated_poke.
  - unfold bind.
    repeat first
      [ rewrite where_real by done
      | rewrite SerializeInt32_poke by side Ha
      | rewrite SerializeUInt16_poke by side Ha
      | rewrite SerializeUInt32_poke by side Ha
      | rewrite SerializeUInt64_poke by side Ha
      | rewrite Htag by (lia || alloc_solve Ha)
      | rewrite SerializeString_store by (cbn [length]; lia || alloc_solve Ha)
      | progress cbv beta iota
      | progress unfold ret ].
    match goal with
    | |- context [to_uint 32 ?x] =>
        replace x with (size + (4 + 4 + 4 + 4 + 2 + 2
          + (4 + Z.of_nat (length (GetFieldName f)))
          + (4 + Z.of_nat (length (GetTypeName f))) + 4
          + (4 + Z.of_nat (length (GetFieldDescription f)))))
          by (cbn [length]; lia)
    end.
    apply Hfin; [lia| |].
    + rewrite !peek_poke_disjoint
        by (rewrite ?length_map, ?length_le_bytes; cbn [length]; lia).
      apply peek_poke_le.
    + intros q n Hq. by repeat apply allocated_poke.
Qed.

Lemma SerializeFieldsV1_for_run fs phys buffer size q m :
  Forall (fun f => GetStructure f <> kUnknownStructure) fs ->
  0 < buffer -> 0 <= size ->
  size + sum_list (map field_record_size fs) < 2 ^ 31 ->
  Forall (fun f => allocated m buffer (field_record_size f)) fs ->
  exists m',
    SerializeFieldsV1_for fs phys buffer size q m
      = Ok ((size + sum_list (map field_record_size fs), q ++ map GetId fs),
            m') /\
    (forall p n, allocated m p n -> allocated m' p n).
Proof.
  intros Hv Hb. revert size q m Hv.
  induction fs as [|f fs IH]; intros size q m Hv Hsz Hlt Hal.
  - exists m. cbn. rewrite Z.add_0_r, app_nil_r. done.
  - apply Forall_cons in Hv as [Hf Hv]. apply Forall_cons in Hal as [Haf Hal].
    cbn [map] in *.
    change (sum_list (?x :: ?l)) with (x + sum_list l) in *.
    pose proof (field_record_size_lower f).
    pose proof (sum_field_sizes_nonneg fs).
    destruct (SerializeFieldsV1_body_run f phys buffer size m)
      as (m1 & E1 & A1); [done|done|lia|lia|done|].
    destruct (IH (size + field_record_size f) (q ++ [GetId f]) m1)
      as (m2 & E2 & A2); [done|lia|lia| |].
    { eapply Forall_impl; [exact Hal|]. intros g Hg. by apply A1. }
    exists m2. split; [|intros p n Hp; by apply A2, A1].
    cbn [SerializeFieldsV1_for]. unfold bind. rewrite E1, E2.
    rewrite <- app_assoc. do 3 f_equal. lia.
Qed.

Lemma SerializeFieldsV1_while_run fuel c buffer q size m order :
  queue_order fuel desc q = Some order ->
  Forall (fun f => GetStructure f <> kUnknownStructure)
    (emitted_fields desc order) ->
  0 < buffer -> 0 <= size ->
  size + sum_list (map field_record_size (emitted_fields desc order))
    < 2 ^ 31 ->
  Forall (fun f => allocated m buffer (field_record_size f))
    (emitted_fields desc order) ->
  exists m',
    SerializeFieldsV1_while fuel desc c buffer q size m
    = Ok ((size + sum_list (map field_record_size (emitted_fields desc order)),
           map_fields c order), m').
Proof.
  intros Hq Hv Hb. revert c q size m order Hq Hv.
  induction fuel as [|fuel IH]; intros c q size m order Hq Hv Hsz Hlt Hal.
  - destruct q; [|done]. injection Hq as <-. exists m. cbn.
    by rewrite Z.add_0_r.
  - destruct q as [|p q].
    { injection Hq as <-. exists m. cbn. by rewrite Z.add_0_r. }
    cbn [queue_order] in Hq.
    destruct (queue_order fuel desc _) as [o|] eqn:E; [|done].
    injection Hq as <-.
    unfold emitted_fields in *. cbn [flat_map] in *.
    rewrite map_app, sum_list_app in *.
    apply Forall_app in Hv as [Hv1 Hv2]. apply Forall_app in Hal as [Hal1 Hal2].
    pose proof (sum_field_sizes_nonneg (GetFieldIterable desc p)).
    pose proof (sum_field_sizes_nonneg (flat_map (GetFieldIterable desc) o)).
    cbn [SerializeFieldsV1_while].
    destruct (MapFieldId p c) as [phys c1] eqn:Emap.
    destruct (SerializeFieldsV1_for_run (GetFieldIterable desc p) phys buffer
                size q m) as (m1 & E1 & A1); [done|done|lia|lia|done|].
    destruct (IH c1 (q ++ child_ids desc p)
                (size + sum_list (map field_record_size
                                    (GetFieldIterable desc p))) m1 o)
      as (m2 & E2); [done|done|lia|lia| |].
    { eapply Forall_impl; [exact Hal2|]. intros g Hg. by apply A1. }
    exists m2. unfold bind. rewrite E1. unfold child_ids in E2. rewrite E2.
    unfold map_fields. cbn [foldl]. rewrite Emap. cbn [snd].
    do 3 f_equal. lia.
Qed.

(** C6: in a descriptor whose fields form a finite tree below field zero
    (no field [depth] levels down), with pairwise distinct IDs and
    [GetNFields] of them, every run of [SerializeFieldsV1] that returns has
    given the fields the physical IDs 0, 1, ..., n_fields - 1 in
    level-by-level (breadth-first) order, field zero first; each call of
    [MapFieldId] hands out the next index and leaves earlier assignments in
    place; and when the structures are known and the records stay below
    2 GiB the run does return with this assignment, the size-only run as
    well as the run on a real buffer that has room for each record. *)
Theorem field_ids_breadth_first depth :
  let order := level_order desc depth [GetFieldZeroId desc] in
  nth_level desc depth [GetFieldZeroId desc] = [] ->
  NoDup order ->
  GetNFields desc = Z.of_nat (length order) ->
  (forall fuel buffer m size context' m',
     SerializeFieldsV1 fuel desc RContext_new buffer m
       = Ok ((size, context'), m') ->
     assigns context' order /\
     Z.of_nat (length (fPhys2MemFieldIDs context')) = GetNFields desc) /\
  (forall memId c,
     fst (MapFieldId memId c) = Z.of_nat (length (fPhys2MemFieldIDs c)) /\
     (forall (i : nat) id,
        fPhys2MemFieldIDs c !! i = Some id ->
        fPhys2MemFieldIDs (snd (MapFieldId memId c)) !! i = Some id) /\
     (forall id physId,
        id <> memId ->
        fMem2PhysFieldIDs c !! id = Some physId ->
        fMem2PhysFieldIDs (snd (MapFieldId memId c)) !! id = Some physId)) /\
  (Forall (fun f => GetStructure f <> kUnknownStructure)
     (emitted_fields desc order) ->
   sum_list (map field_record_size (emitted_fields desc order)) < 2 ^ 31 ->
   forall m,
     SerializeFieldsV1 (length order) desc RContext_new nullptr m
     = Ok ((sum_list (map field_record_size (emitted_fields desc order)),
            map_fields RContext_new order), m)) /\
  (Forall (fun f => GetStructure f <> kUnknownStructure)
     (emitted_fields desc order) ->
   sum_list (map field_record_size (emitted_fields desc order)) < 2 ^ 31 ->
   forall buffer m,
     0 < buffer ->
     Forall (fun f => allocated m buffer (field_record_size f))
       (emitted_fields desc order) ->
     exists m',
       SerializeFieldsV1 (length order) desc RContext_new buffer m
       = Ok ((sum_list (map field_record_size (emitted_fields desc order)),
              map_fields RContext_new order), m') /\
       assigns (map_fields RContext_new order) order).
Proof.
  intros order Hfin Hnd Hn.
  pose proof (queue_order_levels depth [GetFieldZeroId desc] Hfin) as Hq.
  fold order in Hq.
  assert (Hassigns : assigns (map_fields RContext_new order) order).
  { split.
    - by rewrite map_fields_phys2mem.
    - intros i id Hi. by rewrite (map_fields_mem2phys _ _ i). }
  split; [|split; [|split]].
  - intros fuel buffer m size context' m' H.
    apply SerializeFieldsV1_while_context in H as (o & Ho & ->).
    assert (o = order) as ->.
    { pose proof (queue_order_fuel _ (Nat.max fuel (length order)) _ _ Ho
                    ltac:(lia)) as H1.
      pose proof (queue_order_fuel _ (Nat.max fuel (length order)) _ _ Hq
                    ltac:(lia)) as H2.
      congruence. }
    split; [done|]. by rewrite map_fields_phys2mem.
  - intros memId c. apply MapFieldId_stable.
  - intros Hv Hlt m. unfold SerializeFieldsV1.
    by rewrite (SerializeFieldsV1_while_null _ _ _ _ _ order).
  - intros Hv Hlt buffer m Hb Hal. unfold SerializeFieldsV1.
    destruct (SerializeFieldsV1_while_run (length order) RContext_new buffer
                [GetFieldZeroId desc] 0 m order) as [m' E];
      [done|done|done|lia|lia|done|].
    exists m'. by rewrite E.
Qed.

End Fields.

Lemma field_ids_breadth_first_witness :
  assigns (map_fields RContext_new [0; 10; 20; 30]) [0; 10; 20; 30] /\
  fMem2PhysFieldIDs (map_fields RContext_new [0; 10; 20; 30]) !! 20 = Some 2 /\
  fMem2PhysFieldIDs (map_fields RContext_new [0; 10; 20; 30]) !! 30 = Some 3 /\
  exists m',
    SerializeFieldsV1 4 three_level_desc RContext_new 100 (calloc 100 64)
    = Ok ((111, map_fields RContext_new [0; 10; 20; 30]), m').
Proof.
  destruct (field_ids_breadth_first three_level_desc 3) as (_ & _ & _ & H).
  - reflexivity.
  - change (NoDup [0; 10; 20; 30]). apply (bool_decide_unpack _).
    vm_compute. exact I.
  - reflexivity.
  - destruct (H ltac:(repeat constructor; done)
                ltac:(vm_compute; reflexivity) 100 (calloc 100 64))
      as (m' & E & Hp & Hm).
    + lia.
    + change (Forall (fun f => allocated (calloc 100 64) 100
                                 (field_record_size f))
                [leaf_field 10 [97]; leaf_field 20 [98]; leaf_field 30 [99]]).
      repeat (constructor;
              [apply (allocated_b_correct _ _ 37); vm_compute; reflexivity|]).
      constructor.
    + split; [exact (conj Hp Hm)|].
      split; [exact (Hm 2%nat 20 eq_refl)|].
      split; [exact (Hm 3%nat 30 eq_refl)|].
      exists m'. exact E.
Defined.

(** * Further properties of the codec *)

(** ** Byte order *)

Lemma le_bytes_lookup n v (i : nat) :
  (i < n)%nat -> le_bytes n v !! i = Some ((v / 256 ^ Z.of_nat i) mod 256).
Proof.
  revert v i. induction n as [|n IH]; intros v i Hi; [lia|].
  destruct i as [|i].
  - cbn. by rewrite Z.div_1_r.
  - cbn [le_bytes]. change ((?x :: ?l) !! S i) with (l !! i).
    rewrite IH by lia.
    replace (Z.of_nat (S i)) with (1 + Z.of_nat i) by lia.
    rewrite Z.pow_add_r, Z.pow_1_r by lia.
    rewrite Z.div_div by (try apply Z.pow_pos_nonneg; lia). done.
Qed.

Lemma poke_le_bytes_layout n v p m :
  little_endian_at (Z.of_nat n) v p m (poke p (le_bytes n v) m).
Proof.
  split.
  - intros i Hi. rewrite lookup_poke, length_le_bytes.
    rewrite decide_True by lia.
    replace (p + i - p) with i by lia.
    rewrite le_bytes_lookup by lia. by rewrite Z2Nat.id by lia.
  - intros a Ha. rewrite lookup_poke, length_le_bytes.
    by rewrite decide_False by lia.
Qed.

(** X1: with a real buffer each integer codec stores byte [i] of the value
    (least significant first) at [buffer + i], touches no other address,
    and reports its width. *)
Theorem serialize_int_little_endian (v buffer : Z) (m : heap) :
  buffer <> nullptr ->
  (allocated m buffer 2 ->
   (exists m', SerializeInt16 v buffer m = Ok (2, m') /\
               little_endian_at 2 v buffer m m') /\
   (exists m', SerializeUInt16 v buffer m = Ok (2, m') /\
               little_endian_at 2 v buffer m m')) /\
  (allocated m buffer 4 ->
   (exists m', SerializeInt32 v buffer m = Ok (4, m') /\
               little_endian_at 4 v buffer m m') /\
   (exists m', SerializeUInt32 v buffer m = Ok (4, m') /\
               little_endian_at 4 v buffer m m')) /\
  (allocated m buffer 8 ->
   (exists m', SerializeInt64 v buffer m = Ok (8, m') /\
               little_endian_at 8 v buffer m m') /\
   (exists m', SerializeUInt64 v buffer m = Ok (8, m') /\
               little_endian_at 8 v buffer m m')).
Proof.
  intros Hp. split; [|split]; intros Ha; split; eexists; split.
  all: first [ by apply SerializeUInt16_poke | by apply SerializeInt16_poke
             | by apply SerializeUInt32_poke | by apply SerializeInt32_poke
             | by apply SerializeUInt64_poke | by apply SerializeInt64_poke
             | idtac ].
  all: first [ exact (poke_le_bytes_layout 2 _ _ _)
             | exact (poke_le_bytes_layout 4 _ _ _)
             | exact (poke_le_bytes_layout 8 _ _ _) ].
Qed.

(** ** Strings *)

Lemma map_to_uint8_bytes s : Forall is_byte s -> map (to_uint 8) s = s.
Proof.
  induction 1 as [|b s Hb _ IH]; [done|]. cbn [map]. rewrite IH. f_equal.
  apply to_uint_id. exact Hb.
Qed.

Lemma SerializeString_poke s p m :
  0 < p -> Forall is_byte s -> Z.of_nat (length s) < 2 ^ 32 - 4 ->
  allocated m p (4 + Z.of_nat (length s)) ->
  SerializeString s p m
  = Ok (4 + Z.of_nat (length s),
        poke (p + 4) s (poke p (le_bytes 4 (Z.of_nat (length s))) m)).
Proof.
  intros Hp Hb Hl Ha. unfold SerializeString.
  replace (p =? nullptr) with false by (unfold nullptr; lia). cbn [negb].
  rewrite !to_uint_id by (unfold in_uint; lia).
  unfold bind. rewrite SerializeUInt32_poke by side Ha.
  rewrite store_bytes_poke by alloc_solve Ha.
  by rewrite map_to_uint8_bytes.
Qed.

Lemma DeserializeString_bytes s p size m :
  peek p 4 m = Some (le_bytes 4 (Z.of_nat (length s))) ->
  peek (p + 4) (length s) m = Some s ->
  4 + Z.of_nat (length s) <= size -> Z.of_nat (length s) < 2 ^ 32 - 4 ->
  DeserializeString p size m = Ok ((4 + Z.of_nat (length s), s), m).
Proof.
  intros H4 Hs Hsz Hl. unfold DeserializeString.
  replace (size <? 4) with false by lia.
  unfold bind. rewrite (DeserializeUInt32_bytes (Z.of_nat (length s))) by done.
  rewrite !to_uint_id by (unfold in_uint; lia).
  replace (size - 4 <? Z.of_nat (length s)) with false by lia.
  rewrite load_bytes_peek, Nat2Z.id, Hs. done.
Qed.

(** X2: a string of fewer than [2^32 - 4] bytes is written as its length
    (u32) followed by its bytes, [4 + length] bytes in all, with a null
    buffer as with a real one, and is read back unchanged whatever bytes
    it holds. *)
Theorem string_round_trip s buffer size m :
  Forall is_byte s ->
  Z.of_nat (length s) < 2 ^ 32 - 4 ->
  0 < buffer -> allocated m buffer (4 + Z.of_nat (length s)) ->
  4 + Z.of_nat (length s) <= size ->
  SerializeString s nullptr m = Ok (4 + Z.of_nat (length s), m) /\
  exists m',
    SerializeString s buffer m = Ok (4 + Z.of_nat (length s), m') /\
    peek buffer (4 + length s) m'
      = Some (le_bytes 4 (Z.of_nat (length s)) ++ s) /\
    DeserializeString buffer size m' = Ok ((4 + Z.of_nat (length s), s), m').
Proof.
  intros Hb Hl Hp Ha Hsz. split.
  - unfold SerializeString. cbn [Z.eqb nullptr negb]. unfold bind, ret.
    by rewrite to_uint_id by (unfold in_uint; lia).
  - eexists. split; [by apply SerializeString_poke|].
    set (m' := poke (buffer + 4) s _).
    assert (H4 : peek buffer 4 m' = Some (le_bytes 4 (Z.of_nat (length s)))).
    { unfold m'. by peek_solve. }
    assert (Hs : peek (buffer + 4) (length s) m' = Some s).
    { unfold m'. apply peek_poke_same. }
    split.
    + apply (peek_app_intro buffer (le_bytes 4 (Z.of_nat (length s))) s);
        by rewrite length_le_bytes.
    + by apply DeserializeString_bytes.
Qed.


(** ** Enum tags *)

Lemma DeserializeUInt16_bytes v p m :
  peek p 2 m = Some (le_bytes 2 v) ->
  DeserializeUInt16 p m = Ok ((2, to_uint 16 v), m).
Proof.
  intros H. unfold DeserializeUInt16, bind.
  rewrite DeserializeInt16_peek, H.
  pose proof (to_int_le 2 v ltac:(lia)) as E.
  change (8 * Z.of_nat 2) with 16 in E. rewrite E.
  unfold ret. by rewrite to_uint_to_int.
Qed.

Ltac no_tag H :=
  exfalso;
  first [ by apply (H kIndex) | by apply (H kSwitch) | by apply (H kByte)
        | by apply (H kBit) | by apply (H kReal64) | by apply (H kReal32)
        | by apply (H kReal16) | by apply (H kInt64) | by apply (H kInt32)
        | by apply (H kInt16)
        | by apply (H kLeaf) | by apply (H kCollection) | by apply (H kRecord)
        | by apply (H kVariant) | by apply (H kReference) ].

(** X4: every column type the serializer knows is written as its 16-bit
    on-disk tag and read back as the same type; a column type outside the
    switch is refused on write, and every tag outside the table is refused
    on read. *)
Theorem column_type_round_trip buffer m :
  0 < buffer ->
  (forall type tag,
     column_type_tag type = Some tag -> allocated m buffer 2 ->
     SerializeColumnType type nullptr m = Ok (2, m) /\
     exists m',
       SerializeColumnType type buffer m = Ok (2, m') /\
       peek buffer 2 m' = Some [tag; 0] /\
       DeserializeColumnType buffer m' = Ok ((2, type), m')) /\
  SerializeColumnType kUnknownColumnType buffer m
    = Throw unexpected_column_type /\
  (forall v,
     DeserializeUInt16 buffer m = Ok ((2, v), m) ->
     (forall type, column_type_tag type <> Some v) ->
     DeserializeColumnType buffer m = Throw unexpected_on_disk_column_type).
Proof.
  intros Hp. split; [|split; [done|]].
  - intros type tag Htag Ha.
    assert (Hp0 : buffer <> nullptr) by (unfold nullptr; lia).
    destruct type; try done; injection Htag as <-.
    all: split; [reflexivity|].
    all: cbn [SerializeColumnType]; eexists;
      (split; [by apply SerializeUInt16_poke|]).
    all: split; [apply (peek_poke_le buffer 2)|].
    all: unfold DeserializeColumnType, bind;
      rewrite (DeserializeUInt16_bytes _ buffer) by apply peek_poke_le;
      reflexivity.
  - intros v Hv Hno. unfold DeserializeColumnType, bind. rewrite Hv.
    destruct v as [|p|p]; try done.
    do 4 (try destruct p as [p|p|]); try done; no_tag Hno.
Qed.

(** X5: the same for field structures: the five known structures are
    written as the tags 0 to 4 and read back unchanged, any other structure
    is refused on write and any other tag on read. *)
Theorem field_structure_round_trip buffer m :
  0 < buffer ->
  (forall structure tag,
     field_structure_tag structure = Some tag -> allocated m buffer 2 ->
     SerializeFieldStructure structure nullptr m = Ok (2, m) /\
     exists m',
       SerializeFieldStructure structure buffer m = Ok (2, m') /\
       peek buffer 2 m' = Some [tag; 0] /\
       DeserializeFieldStructure buffer m' = Ok ((2, structure), m')) /\
  SerializeFieldStructure kUnknownStructure buffer m
    = Throw unexpected_field_structure_type /\
  (forall v,
     DeserializeUInt16 buffer m = Ok ((2, v), m) ->
     (forall structure, field_structure_tag structure <> Some v) ->
     DeserializeFieldStructure buffer m
     = Throw unexpected_on_disk_field_structure_value).
Proof.
  intros Hp. split; [|split; [done|]].
  - intros structure tag Htag Ha.
    assert (Hp0 : buffer <> nullptr) by (unfold nullptr; lia).
    destruct structure; try done; injection Htag as <-.
    all: split; [reflexivity|].
    all: cbn [SerializeFieldStructure]; eexists;
      (split; [by apply SerializeUInt16_poke|]).
    all: split; [apply (peek_poke_le buffer 2)|].
    all: unfold DeserializeFieldStructure, bind;
      rewrite (DeserializeUInt16_bytes _ buffer) by apply peek_poke_le;
      reflexivity.
  - intros v Hv Hno. unfold DeserializeFieldStructure, bind. rewrite Hv.
    destruct v as [|p|p]; try done; [no_tag Hno|].
    do 3 (try destruct p as [p|p|]); try done; no_tag Hno.
Qed.

(** ** Checksums and envelopes *)

Lemma peek_sub p bs m (k n : nat) :
  peek p (length bs) m = Some bs -> (k + n <= length bs)%nat ->
  peek (p + Z.of_nat k) n m = Some (take n (drop k bs)).
Proof.
  intros H Hkn.
  assert (L : length (take n (drop k bs)) = n)
    by (rewrite length_take, length_drop; lia).
  rewrite <- L at 1. apply peek_intro. intros i Hi. rewrite L in Hi.
  rewrite lookup_take_lt by lia. rewrite lookup_drop.
  rewrite <- (peek_lookup _ _ _ _ H (k + i)) by lia. f_equal. lia.
Qed.

Lemma le_bytes_to_uint32 v : le_bytes 4 (to_uint 32 v) = le_bytes 4 v.
Proof. exact (le_bytes_mod 4 v). Qed.

Lemma SerializeCRC32_poke R__crc32 data (n : nat) bs buffer m :
  peek data n m = Some bs -> 0 < buffer -> allocated m buffer 4 ->
  SerializeCRC32 R__crc32 data (Z.of_nat n) buffer m
  = Ok (4, poke buffer (le_bytes 4 (R__crc32 (R__crc32 0 []) bs)) m).
Proof.
  intros Hpk Hp Ha. unfold SerializeCRC32.
  replace (buffer =? nullptr) with false by (unfold nullptr; lia).
  cbn [negb]. unfold bind. rewrite load_bytes_peek, Nat2Z.id, Hpk.
  rewrite SerializeUInt32_poke by side Ha.
  by rewrite le_bytes_to_uint32.
Qed.

Lemma VerifyCRC32_run R__crc32 data (n : nat) bs w m :
  peek data n m = Some bs ->
  DeserializeUInt32 (data + Z.of_nat n) m = Ok ((4, w), m) ->
  VerifyCRC32 R__crc32 data (Z.of_nat n) m
  = if w =? R__crc32 (R__crc32 0 []) bs then Ok (tt, m)
    else Throw crc32_checksum_mismatch.
Proof.
  intros Hpk Hw. unfold VerifyCRC32, bind.
  rewrite load_bytes_peek, Nat2Z.id, Hpk, Hw.
  by destruct (w =? _).
Qed.

(** X6: the checksum written by [SerializeCRC32] right behind the data is
    accepted by [VerifyCRC32]; the write touches only those four bytes, and
    a size-only call writes nothing.  On any heap, [VerifyCRC32] accepts
    exactly when the stored word equals the checksum of the data and fails
    with "CRC32 checksum mismatch" otherwise. *)
Theorem crc32_round_trip R__crc32 data (n : nat) bs m :
  peek data n m = Some bs ->
  0 < data -> allocated m (data + Z.of_nat n) 4 ->
  in_uint 32 (R__crc32 (R__crc32 0 []) bs) ->
  SerializeCRC32 R__crc32 data (Z.of_nat n) nullptr m = Ok (4, m) /\
  (exists m',
     SerializeCRC32 R__crc32 data (Z.of_nat n) (data + Z.of_nat n) m
       = Ok (4, m') /\
     (forall a, ~ (data + Z.of_nat n <= a < data + Z.of_nat n + 4) ->
                m' !! a = m !! a) /\
     VerifyCRC32 R__crc32 data (Z.of_nat n) m' = Ok (tt, m')) /\
  (forall w,
     DeserializeUInt32 (data + Z.of_nat n) m = Ok ((4, w), m) ->
     (VerifyCRC32 R__crc32 data (Z.of_nat n) m = Ok (tt, m)
      <-> w = R__crc32 (R__crc32 0 []) bs) /\
     (VerifyCRC32 R__crc32 data (Z.of_nat n) m = Throw crc32_checksum_mismatch
      <-> w <> R__crc32 (R__crc32 0 []) bs)).
Proof.
  intros Hpk Hp Ha Hr. split; [reflexivity|]. split.
  - eexists. split; [apply (SerializeCRC32_poke _ _ _ bs); (done || lia)|].
    split.
    + intros a Hout. rewrite lookup_poke, length_le_bytes.
      by rewrite decide_False by lia.
    + rewrite (VerifyCRC32_run _ _ _ bs (R__crc32 (R__crc32 0 []) bs)).
      * by rewrite Z.eqb_refl.
      * rewrite peek_poke_disjoint by (rewrite length_le_bytes; lia). done.
      * rewrite (DeserializeUInt32_bytes (R__crc32 (R__crc32 0 []) bs))
          by apply peek_poke_le.
        by rewrite to_uint_id.
  - intros w Hw. rewrite (VerifyCRC32_run _ _ _ bs w) by done.
    destruct (Z.eqb_spec w (R__crc32 (R__crc32 0 []) bs)); split; split;
      (done || congruence).
Qed.

Lemma SerializeEnvelopePreamble_poke buffer m :
  0 < buffer -> allocated m buffer 4 ->
  SerializeEnvelopePreamble buffer m = Ok (4, poke buffer [1; 0; 1; 0] m).
Proof.
  intros Hp Ha. unfold SerializeEnvelopePreamble.
  unfold kEnvelopeCurrentVersion, kEnvelopeMinVersion. sym_exec Ha.
  unfold ret. replace (buffer + 2 + 2 - buffer) with 4 by lia.
  change (to_uint 32 4) with 4. f_equal. f_equal.
  change [1; 0; 1; 0] with (le_bytes 2 1 ++ le_bytes 2 1).
  by rewrite poke_app.
Qed.

(** X7: an envelope made of the preamble, any payload and the postscript
    is accepted by [DeserializeEnvelope], which returns 4, and
    [ExtractEnvelopeCRC32] on the whole envelope returns the checksum of
    everything before it; [ExtractEnvelopeCRC32] refuses fewer than 8
    bytes. *)
Theorem envelope_write_read R__crc32 buffer payload m :
  let contents := [1; 0; 1; 0] ++ payload in
  let size := Z.of_nat (length contents) in
  let crc := R__crc32 (R__crc32 0 []) contents in
  0 < buffer -> size < 2 ^ 32 - 4 ->
  allocated m buffer (size + 4) ->
  in_uint 32 crc ->
  (exists m1, SerializeEnvelopePreamble buffer m = Ok (4, m1) /\
              peek buffer 4 m1 = Some [1; 0; 1; 0]) /\
  (forall m2,
     peek buffer (length contents) m2 = Some contents ->
     allocated m2 (buffer + size) 4 ->
     exists m3,
       SerializeEnvelopePostscript R__crc32 buffer size (buffer + size) m2
         = Ok (4, m3) /\
       DeserializeEnvelope R__crc32 buffer (size + 4) m3 = Ok (4, m3) /\
       ExtractEnvelopeCRC32 buffer (size + 4) m3 = Ok (crc, m3)) /\
  (forall bufSize, bufSize < 8 ->
     ExtractEnvelopeCRC32 buffer bufSize m = Throw invalid_envelope_too_short).
Proof.
  intros contents size crc Hp Hsz Ha Hcrc.
  assert (Hlen : 4 <= size).
  { unfold size, contents. rewrite length_app. cbn [length]. lia. }
  split; [|split].
  - eexists. split.
    + apply SerializeEnvelopePreamble_poke; [done|].
      apply (allocated_weaken _ _ _ _ _ Ha); lia.
    + apply (peek_poke_same buffer [1; 0; 1; 0]).
  - intros m2 Hpk Ha2. eexists. split.
    { unfold SerializeEnvelopePostscript, size.
      apply (SerializeCRC32_poke _ _ _ contents); (done || lia). }
    fold crc. set (m3 := poke _ _ m2).
    assert (Hpk3 : peek buffer (length contents) m3 = Some contents).
    { unfold m3. rewrite peek_poke_disjoint
        by (rewrite length_le_bytes; fold size; lia). done. }
    assert (Hw : DeserializeUInt32 (buffer + size) m3 = Ok ((4, crc), m3)).
    { unfold m3. rewrite (DeserializeUInt32_bytes crc) by apply peek_poke_le.
      by rewrite to_uint_id. }
    split.
    + rewrite (DeserializeEnvelope_run R__crc32 buffer (size + 4) m3 1 1).
      * reflexivity.
      * lia.
      * replace (size + 4 - 4) with size by lia. unfold size.
        rewrite (VerifyCRC32_run _ _ _ contents crc) by done.
        fold crc. by rewrite Z.eqb_refl.
      * pose proof (peek_sub buffer contents m3 0 2 Hpk3) as H2.
        rewrite Z.add_0_r in H2.
        rewrite (DeserializeUInt16_bytes 1); [done|].
        apply H2. unfold size in Hlen. lia.
      * pose proof (peek_sub buffer contents m3 2 2 Hpk3) as H2.
        rewrite (DeserializeUInt16_bytes 1); [done|].
        apply H2. unfold size in Hlen. lia.
    + unfold ExtractEnvelopeCRC32.
      replace (size + 4 <? 2 * 2 + 4) with false by lia.
      unfold bind. replace (buffer + (size + 4) - 4) with (buffer + size) by lia.
      by rewrite Hw.
  - intros bufSize Hlt. unfold ExtractEnvelopeCRC32.
    by replace (bufSize <? 2 * 2 + 4) with true by lia.
Qed.

(** ** Frames, written and read back *)

Lemma DeserializeFrame_list buffer bufSize size nitems m :
  peek buffer 4 m = Some (le_bytes 4 (- size)) ->
  peek (buffer + 4) 4 m = Some (le_bytes 4 nitems) ->
  8 <= size < 2 ^ 31 -> size <= bufSize -> 0 <= nitems < 2 ^ 29 ->
  DeserializeFrame buffer bufSize m = Ok ((8, size, nitems), m).
Proof.
  intros Hh Hn Hsz Hbuf Hni. unfold DeserializeFrame.
  replace (bufSize <? 4) with false by lia.
  unfold bind. rewrite (DeserializeInt32_bytes (- size)) by done.
  rewrite (to_int_id 32 (- size)) by (unfold in_int; lia).
  replace (- size >=? 0) with false by lia.
  replace (bufSize <? 2 * 4) with false by lia.
  rewrite (DeserializeUInt32_bytes nitems) by done.
  rewrite Z.opp_involutive.
  rewrite (to_int_id 32 size) by (unfold in_int; lia).
  rewrite !(to_uint_id 32 size) by (unfold in_uint; lia).
  replace (size <? 2 * 4) with false by lia. unfold ret. cbv beta iota.
  rewrite !(to_uint_id 32 size) by (unfold in_uint; lia).
  replace (bufSize <? size) with false by lia.
  rewrite (to_uint_id 32 nitems) by (unfold in_uint; lia).
  change (Z.shiftl 2 28 - 1) with (Z.ones 29).
  rewrite Z.land_ones, Z.mod_small by lia.
  replace (buffer + 4 + 4 - buffer) with 8 by lia. reflexivity.
Qed.

(** X8: a record frame opened by [SerializeRecordFramePreamble] and closed
    by [SerializeFramePostscript] with its size reads back through
    [DeserializeFrame] as (4 header bytes, that size, 1 item); a list frame
    of [nitems < 2^28] items reads back as (8 header bytes, that size,
    [nitems]).  The payload written in between may be anything that leaves
    the head alone. *)
Theorem frame_round_trip frame size bufSize m :
  0 < frame -> size < 2 ^ 31 -> size <= bufSize ->
  (4 <= size -> allocated m frame 4 ->
   exists m1,
     SerializeRecordFramePreamble frame m = Ok (4, m1) /\
     forall m2, peek frame 4 m2 = peek frame 4 m1 ->
       exists m3,
         SerializeFramePostscript frame size m2 = Ok (0, m3) /\
         DeserializeFrame frame bufSize m3 = Ok ((4, size, 1), m3)) /\
  (forall nitems,
     8 <= size -> 0 <= nitems < 2 ^ 28 -> allocated m frame 8 ->
     exists m1,
       SerializeListFramePreamble nitems frame m = Ok (8, m1) /\
       forall m2, peek frame 8 m2 = peek frame 8 m1 ->
         exists m3,
           SerializeFramePostscript frame size m2 = Ok (0, m3) /\
           DeserializeFrame frame bufSize m3 = Ok ((8, size, nitems), m3)).
Proof.
  intros Hp Hlt Hbuf. split.
  - intros Hsz Ha. eexists. split.
    { unfold SerializeRecordFramePreamble. apply SerializeInt32_poke; [|done].
      unfold nullptr. lia. }
    intros m2 H2. rewrite peek_poke_le in H2.
    eexists. split; [by apply SerializeFramePostscript_record|].
    apply DeserializeFrame_record; [apply peek_poke_le|lia|lia].
  - intros nitems Hsz Hn Ha. eexists. split.
    { by apply SerializeListFramePreamble_poke. }
    intros m2 H2.
    assert (H8 : peek frame (length (le_bytes 4 (-1) ++ le_bytes 4 nitems)) m2
                 = Some (le_bytes 4 (-1) ++ le_bytes 4 nitems)).
    { change (length _) with 8%nat. rewrite H2.
      apply (peek_app_intro frame (le_bytes 4 (-1)) (le_bytes 4 nitems));
        by peek_solve. }
    rewrite length_app in H8. apply peek_app in H8 as [H4 H4'].
    rewrite length_le_bytes in H4, H4'.
    eexists. split; [by apply SerializeFramePostscript_list|].
    apply DeserializeFrame_list; try lia.
    + apply peek_poke_le.
    + by peek_solve.
Qed.

Lemma DeserializeFrame_inv buffer bufSize m n frameSize nitems m' :
  0 <= bufSize < 2 ^ 32 ->
  DeserializeFrame buffer bufSize m = Ok ((n, frameSize, nitems), m') ->
  m' = m /\ n <= frameSize <= bufSize /\
  (n = 4 /\ nitems = 1 \/ n = 8 /\ 0 <= nitems < 2 ^ 29).
Proof.
  intros Hb H.
  pose proof (DeserializeFrame_nitems_lt_2_29 _ _ _ _ _ _ _ H) as Hni.
  unfold DeserializeFrame in H.
  apply if_throw_Ok in H as [_ H].
  apply bind_Ok in H as ([n1 ssize] & m1 & H1 & H).
  rewrite DeserializeInt32_peek in H1.
  destruct (peek buffer 4 m) as [b4|]; [|done]. injection H1 as <- <- <-.
  apply bind_Ok in H as ([[bytes ssize'] nitems'] & m2 & H1 & H).
  apply if_throw_Ok in H as [Hfit H]. injection H as <- <- <- <-.
  destruct (to_int 32 (le_val b4) >=? 0).
  + apply if_throw_Ok in H1 as [Hc H1]. injection H1 as <- <- <- <-.
    replace (buffer + 4 - buffer) with 4 by lia.
    change (to_uint 32 4) with 4. split; [done|]. split; [lia|]. by left.
  + apply if_throw_Ok in H1 as [_ H1].
    apply bind_Ok in H1 as ([n2 raw] & m3 & H2 & H1).
    apply if_throw_Ok in H1 as [Hc H1]. injection H1 as <- <- <- <-.
    unfold DeserializeUInt32 in H2.
    apply bind_Ok in H2 as ([k r] & m4 & H2 & H3). injection H3 as <- <- <-.
    rewrite DeserializeInt32_peek in H2.
    destruct (peek (buffer + 4) 4 m) as [b4'|]; [|done].
    injection H2 as <- <- <-.
    replace (buffer + 4 + 4 - buffer) with 8 by lia.
    change (to_uint 32 8) with 8. split; [done|]. split; [lia|]. by right.
Qed.

(** X9: [DeserializeFrame] refuses a buffer of fewer than 4 bytes, and
    whenever it succeeds the frame lies inside the buffer: it has read 4
    header bytes of a record frame (one item) or 8 of a list frame (fewer
    than [2^29] items), the frame size is at least that and at most
    [bufSize], and the heap is unchanged. *)
Theorem DeserializeFrame_bounds buffer bufSize m :
  0 <= bufSize < 2 ^ 32 ->
  (bufSize < 4 -> DeserializeFrame buffer bufSize m = Throw frame_too_short) /\
  (forall n frameSize nitems m',
     DeserializeFrame buffer bufSize m = Ok ((n, frameSize, nitems), m') ->
     m' = m /\ n <= frameSize <= bufSize /\
     (n = 4 /\ nitems = 1 \/ n = 8 /\ 0 <= nitems < 2 ^ 29)).
Proof.
  intros Hb. split.
  - intros H. unfold DeserializeFrame. by replace (bufSize <? 4) with true by lia.
  - intros n frameSize nitems m' H.
    exact (DeserializeFrame_inv buffer bufSize m n frameSize nitems m' Hb H).
Qed.

(** ** What closing a frame can change *)

Lemma store_inv p v m m' :
  store p v m = Ok (tt, m') -> m' = <[p := to_uint 8 v]> m.
Proof. unfold store. destruct (m !! p); [|done]. by intros [= <-]. Qed.

Lemma SerializeInt32_outside v p m n m' :
  SerializeInt32 v p m = Ok (n, m') ->
  forall a, ~ (p <= a < p + 4) -> m' !! a = m !! a.
Proof.
  unfold SerializeInt32. intros H a Ha.
  destruct (p =? nullptr); cbn [negb] in H.
  - by injection H as <- <-.
  - apply bind_Ok in H as ([] & m4 & H & Hr). injection Hr as <- <-.
    apply bind_Ok in H as ([] & m1 & H1 & H). apply store_inv in H1 as ->.
    apply bind_Ok in H as ([] & m2 & H2 & H). apply store_inv in H2 as ->.
    apply bind_Ok in H as ([] & m3 & H3 & H). apply store_inv in H3 as ->.
    apply store_inv in H as ->.
    by rewrite !lookup_insert_ne by lia.
Qed.

(** X10: [SerializeFramePostscript] refuses a negative size as too large
    and a size below 4 as too short, whether or not there is a buffer, and
    a size below 8 for a frame opened as a list; a size-only call with an
    acceptable size changes nothing; and whenever it succeeds it returns 0
    and has changed at most the four head bytes of the frame. *)
Theorem SerializeFramePostscript_edges frame size m :
  (size < 0 ->
   SerializeFramePostscript frame size m = Throw (frame_too_large size)) /\
  (0 <= size < 4 ->
   SerializeFramePostscript frame size m
   = Throw (frame_too_short_write size)) /\
  (4 <= size < 8 -> 0 < frame ->
   peek frame 4 m = Some (le_bytes 4 (-1)) ->
   SerializeFramePostscript frame size m
   = Throw (frame_too_short_write size)) /\
  (4 <= size -> SerializeFramePostscript nullptr size m = Ok (0, m)) /\
  (forall r m',
     SerializeFramePostscript frame size m = Ok (r, m') ->
     r = 0 /\ 4 <= size /\
     forall a, ~ (frame <= a < frame + 4) -> m' !! a = m !! a).
Proof.
  unfold SerializeFramePostscript. repeat split.
  - intros H. by replace (size <? 0) with true by lia.
  - intros H. replace (size <? 0) with false by lia.
    by replace (size <? 4) with true by lia.
  - intros H Hp Hpk. replace (size <? 0) with false by lia.
    replace (size <? 4) with false by lia.
    replace (frame =? nullptr) with false by (unfold nullptr; lia).
    cbn [negb]. unfold bind. rewrite (DeserializeInt32_bytes (-1)) by done.
    change (to_int 32 (-1)) with (-1).
    by replace (size <? 2 * 4) with true by lia.
  - intros H. replace (size <? 0) with false by lia.
    by replace (size <? 4) with false by lia.
  - apply if_throw_Ok in H as [_ H]. apply if_throw_Ok in H as [_ H].
    apply bind_Ok in H as ([] & m1 & _ & H). by injection H as <- _.
  - apply if_throw_Ok in H as [_ H]. apply if_throw_Ok in H as [H4 _]. lia.
  - intros a Ha.
    apply if_throw_Ok in H as [_ H]. apply if_throw_Ok in H as [_ H].
    apply bind_Ok in H as ([] & m1 & H & Hr). injection Hr as _ <-.
    destruct (frame =? nullptr); cbn [negb] in H.
    + by injection H as <-.
    + apply bind_Ok in H as ([k marker] & m2 & Hm & H).
      rewrite DeserializeInt32_peek in Hm.
      destruct (peek frame 4 m); [|done]. injection Hm as <- <- <-.
      apply if_throw_Ok in H as [_ H].
      apply bind_Ok in H as (k' & m3 & H & Hr). injection Hr as <-.
      by apply (SerializeInt32_outside _ _ _ _ _ H).
Qed.

(** ** URL locators *)

Lemma lor_url_tag len :
  0 <= len < 2 ^ 24 -> Z.lor len (Z.shiftl 0x02 24) = 2 ^ 25 + len.
Proof.
  intros H. change (Z.shiftl 0x02 24) with (2 ^ 25).
  assert (E : Z.land len (2 ^ 25) = 0).
  { rewrite <- (Z.mod_small len (2 ^ 24)) by lia.
    rewrite <- Z.land_ones by lia. rewrite <- Z.land_assoc.
    change (Z.land (Z.ones 24) (2 ^ 25)) with 0. apply Z.land_0_r. }
  pose proof (Z.add_lor_land len (2 ^ 25)) as A. rewrite E in A. lia.
Qed.

Lemma url_head_decode len :
  0 <= len < 2 ^ 24 ->
  Z.shiftr (2 ^ 25 + len) 24 = 2 /\
  Z.land (2 ^ 25 + len) 0x00FFFFFF = len.
Proof.
  intros H. split.
  - rewrite Z.shiftr_div_pow2 by lia.
    replace (2 ^ 25 + len) with (len + 2 * 2 ^ 24) by lia.
    rewrite Z.div_add by lia. rewrite Z.div_small by lia. done.
  - change 0x00FFFFFF with (Z.ones 24). rewrite Z.land_ones by lia.
    replace (2 ^ 25 + len) with (len + 2 * 2 ^ 24) by lia.
    rewrite Z.mod_add by lia. apply Z.mod_small. lia.
Qed.

(** X11: a locator with a non-empty URL of fewer than [2^24] bytes is
    written as the head [-(0x02 << 24 | length)] followed by the URL bytes,
    [4 + length] bytes with a null buffer as with a real one, and read back
    as a locator with the same URL whose position and bytes-on-storage are
    0 (they are not stored); a URL of [2^24] bytes or more is refused as
    too large. *)
Theorem locator_url_round_trip locator buffer bufSize m :
  let len := Z.of_nat (length (fUrl locator)) in
  fUrl locator <> [] ->
  (2 ^ 24 <= len ->
   SerializeLocator locator nullptr m = Throw locator_too_large /\
   SerializeLocator locator buffer m = Throw locator_too_large) /\
  (len < 2 ^ 24 -> Forall is_byte (fUrl locator) ->
   0 < buffer -> allocated m buffer (4 + len) -> 4 + len <= bufSize ->
   SerializeLocator locator nullptr m = Ok (4 + len, m) /\
   exists m',
     SerializeLocator locator buffer m = Ok (4 + len, m') /\
     peek buffer (4 + length (fUrl locator)) m'
       = Some (le_bytes 4 (- (2 ^ 25 + len)) ++ fUrl locator) /\
     DeserializeLocator buffer bufSize m'
       = Ok ((4 + len,
              {| fPosition := 0; fBytesOnStorage := 0;
                 fUrl := fUrl locator |}), m')).
Proof.
  intros len. subst len.
  destruct locator as [position bytesOnStorage url].
  cbn [fUrl fPosition fBytesOnStorage]. intros Hne.
  destruct url as [|b url]; [done|]. set (u := b :: url) in *.
  unfold SerializeLocator. cbn [fUrl fPosition fBytesOnStorage].
  change (match u with [] => _ | _ :: _ => ?k end) with k.
  set (len := Z.of_nat (length u)). split.
  - intros Hbig.
    replace (len >=? Z.shiftl 1 24) with true
      by (change (Z.shiftl 1 24) with (2 ^ 24); lia). done.
  - intros Hlen Hb Hp Ha Hsz.
    assert (Hlen0 : 0 <= len) by (unfold len; lia).
    replace (len >=? Z.shiftl 1 24) with false
      by (change (Z.shiftl 1 24) with (2 ^ 24); lia).
    rewrite (to_int_id 32 len) by (unfold in_int; lia).
    rewrite lor_url_tag by lia.
    rewrite (to_int_id 32 (- (2 ^ 25 + len))) by (unfold in_int; lia).
    split.
    { cbn [Z.eqb nullptr negb]. unfold bind. rewrite SerializeInt32_null.
      unfold ret. by rewrite to_uint_id by (unfold in_uint; lia). }
    replace (buffer =? nullptr) with false by (unfold nullptr; lia).
    cbn [negb]. unfold bind.
    rewrite SerializeInt32_poke by side Ha.
    rewrite store_bytes_poke by (fold len; alloc_solve Ha).
    rewrite map_to_uint8_bytes by done.
    unfold ret. rewrite to_uint_id by (unfold in_uint; lia).
    eexists. split; [reflexivity|].
    set (m' := poke (buffer + (0 + 4)) u _). change (0 + 4) with 4 in m'.
    assert (H4 : peek buffer 4 m' = Some (le_bytes 4 (- (2 ^ 25 + len)))).
    { unfold m'. rewrite peek_poke_disjoint by (fold len; lia).
      apply peek_poke_le. }
    assert (Hu : peek (buffer + 4) (length u) m' = Some u).
    { unfold m'. apply peek_poke_same. }
    split.
    + apply (peek_app_intro buffer (le_bytes 4 (- (2 ^ 25 + len))) u);
        by rewrite length_le_bytes.
    + unfold DeserializeLocator.
      replace (bufSize <? 4) with false by lia.
      unfold bind. rewrite (DeserializeInt32_bytes (- (2 ^ 25 + len))) by done.
      rewrite (to_int_id 32 (- (2 ^ 25 + len))) by (unfold in_int; lia).
      replace (- (2 ^ 25 + len) <? 0) with true by lia.
      rewrite Z.opp_involutive.
      rewrite (to_int_id 32 (2 ^ 25 + len)) by (unfold in_int; lia).
      rewrite (to_uint_id 32 (2 ^ 25 + len)) by (unfold in_uint; lia).
      destruct (url_head_decode len ltac:(lia)) as [-> ->].
      cbn [Z.eqb negb Pos.eqb].
      replace (bufSize - 4 <? len) with false by lia.
      unfold len at 1. rewrite load_bytes_peek, Nat2Z.id, Hu.
      unfold ret. fold len.
      replace (buffer + 4 + len - buffer) with (4 + len) by lia.
      by rewrite to_uint_id by (unfold in_uint; lia).
Qed.

(** X12: [DeserializeLocator] refuses fewer than 4 bytes, and whenever it
    succeeds it has stayed inside [bufSize] and left the heap unchanged:
    it has either read the 12 bytes of an inline locator (empty URL,
    bytes-on-storage below [2^31]) or a 4-byte head and a URL of fewer
    than [2^24] bytes (position and bytes-on-storage 0). *)
Theorem DeserializeLocator_bounds buffer bufSize m :
  0 <= bufSize < 2 ^ 32 ->
  (bufSize < 4 -> DeserializeLocator buffer bufSize m = Throw too_short_locator) /\
  (forall n locator m',
     DeserializeLocator buffer bufSize m = Ok ((n, locator), m') ->
     m' = m /\ n <= bufSize /\
     (n = 12 /\ fUrl locator = [] /\ 0 <= fBytesOnStorage locator < 2 ^ 31 \/
      n = 4 + Z.of_nat (length (fUrl locator)) /\
      Z.of_nat (length (fUrl locator)) < 2 ^ 24 /\
      fPosition locator = 0 /\ fBytesOnStorage locator = 0)).
Proof.
  intros Hb. unfold DeserializeLocator. split.
  - intros H. by replace (bufSize <? 4) with true by lia.
  - intros n locator m' H.
    apply if_throw_Ok in H as [H4 H].
    apply bind_Ok in H as ([k head] & m1 & Hh & H).
    rewrite DeserializeInt32_peek in Hh.
    destruct (peek buffer 4 m) as [b4|]; [|done]. injection Hh as <- <- <-.
    apply bind_Ok in H as ([bytes loc] & m2 & H & Hr).
    injection Hr as <- <- <-.
    pose proof (to_int_range 32 (le_val b4) ltac:(lia)) as Hr.
    unfold in_int in Hr.
    destruct (Z.ltb_spec (to_int 32 (le_val b4)) 0) as [Hneg|Hpos].
    + apply if_throw_Ok in H as [_ H]. apply if_throw_Ok in H as [Hfit H].
      apply bind_Ok in H as (url & m3 & Hurl & H).
      injection H as <- <- <-.
      rewrite load_bytes_peek in Hurl.
      destruct (peek (buffer + 4) _ m) as [bs|] eqn:Epk; [|done].
      injection Hurl as <- <-.
      apply peek_length in Epk.
      set (sz := Z.land _ 0x00FFFFFF) in *.
      assert (Hsz : 0 <= sz < 2 ^ 24).
      { unfold sz. change 0x00FFFFFF with (Z.ones 24).
        rewrite Z.land_ones by lia. apply Z.mod_pos_bound. lia. }
      cbn [fUrl fPosition fBytesOnStorage].
      replace (buffer + 4 + sz - buffer) with (4 + sz) by lia.
      rewrite to_uint_id by (unfold in_uint; lia).
      split; [done|]. split; [lia|]. right. repeat split; lia.
    + apply if_throw_Ok in H as [Hfit H].
      apply bind_Ok in H as ([k off] & m3 & Hoff & H).
      injection H as <- <-.
      unfold DeserializeUInt64 in Hoff.
      apply bind_Ok in Hoff as ([k' raw] & m4 & Hraw & Hoff).
      injection Hoff as <- <- <-.
      rewrite DeserializeInt64_peek in Hraw.
      destruct (peek (buffer + 4) 8 m); [|done]. injection Hraw as <- <- <-.
      cbn [fUrl fPosition fBytesOnStorage].
      replace (buffer + 4 + 8 - buffer) with 12 by lia.
      change (to_uint 32 12) with 12.
      rewrite to_uint_id by (unfold in_uint; lia).
      split; [done|]. split; [lia|]. left. repeat split; lia.
Qed.

(** ** Envelope links and cluster groups *)

Lemma SerializeLocator_null locator m :
  storable_locator locator ->
  SerializeLocator locator nullptr m
  = Ok (Z.of_nat (length (locator_bytes locator)), m).
Proof.
  destruct locator as [position bytesOnStorage url].
  unfold storable_locator, locator_bytes, SerializeLocator.
  cbn [fUrl fPosition fBytesOnStorage].
  destruct url as [|b url].
  - intros [Hb Hpos]. rewrite (to_int_id 32 bytesOnStorage)
      by (unfold in_int; lia).
    replace (bytesOnStorage <? 0) with false by lia. reflexivity.
  - set (u := b :: url). intros (Hlen & _ & _ & _).
    set (len := Z.of_nat (length u)) in *.
    assert (0 <= len) by (unfold len; lia).
    replace (len >=? Z.shiftl 1 24) with false
      by (change (Z.shiftl 1 24) with (2 ^ 24); lia).
    cbn [Z.eqb nullptr negb]. unfold bind. rewrite SerializeInt32_null.
    unfold ret. rewrite to_uint_id by (unfold in_uint; lia).
    rewrite length_app, length_le_bytes. fold u. do 2 f_equal. lia.
Qed.

Lemma SerializeLocator_bytes locator p m :
  storable_locator locator -> 0 < p ->
  allocated m p (Z.of_nat (length (locator_bytes locator))) ->
  SerializeLocator locator p m
  = Ok (Z.of_nat (length (locator_bytes locator)),
        poke p (locator_bytes locator) m).
Proof.
  destruct locator as [position bytesOnStorage url].
  unfold storable_locator, locator_bytes, SerializeLocator.
  cbn [fUrl fPosition fBytesOnStorage].
  destruct url as [|b url].
  - intros [Hb Hpos] Hp Ha. rewrite length_app, !length_le_bytes in Ha |- *.
    rewrite (to_int_id 32 bytesOnStorage) by (unfold in_int; lia).
    replace (bytesOnStorage <? 0) with false by lia.
    replace (p =? nullptr) with false by (unfold nullptr; lia). cbn [negb].
    unfold bind. rewrite SerializeUInt32_poke by side Ha.
    change (0 + 4) with 4.
    rewrite SerializeUInt64_poke by side Ha.
    unfold ret. rewrite poke_app, length_le_bytes. reflexivity.
  - set (u := b :: url). intros (Hlen & Hbytes & _ & _) Hp Ha.
    rewrite length_app, length_le_bytes in Ha |- *.
    set (len := Z.of_nat (length u)) in *.
    assert (0 <= len) by (unfold len; lia).
    replace (len >=? Z.shiftl 1 24) with false
      by (change (Z.shiftl 1 24) with (2 ^ 24); lia).
    rewrite (to_int_id 32 len) by (unfold in_int; lia).
    rewrite lor_url_tag by lia.
    rewrite (to_int_id 32 (- (2 ^ 25 + len))) by (unfold in_int; lia).
    replace (p =? nullptr) with false by (unfold nullptr; lia). cbn [negb].
    unfold bind. rewrite SerializeInt32_poke by side Ha.
    change (0 + 4) with 4.
    rewrite store_bytes_poke by (fold len; alloc_solve Ha).
    rewrite map_to_uint8_bytes by done.
    unfold ret. rewrite to_uint_id by (unfold in_uint; lia).
    rewrite poke_app, length_le_bytes.
    replace (Z.of_nat (4 + length u)) with (4 + len) by (unfold len; lia).
    reflexivity.
Qed.

Lemma DeserializeLocator_bytes locator p bufSize m :
  storable_locator locator ->
  peek p (length (locator_bytes locator)) m = Some (locator_bytes locator) ->
  Z.of_nat (length (locator_bytes locator)) <= bufSize ->
  DeserializeLocator p bufSize m
  = Ok ((Z.of_nat (length (locator_bytes locator)), locator), m).
Proof.
  destruct locator as [position bytesOnStorage url].
  unfold storable_locator, locator_bytes.
  cbn [fUrl fPosition fBytesOnStorage].
  destruct url as [|b url].
  - intros [Hb Hpos] Hpk Hsz. unfold in_uint in Hpos.
    rewrite length_app in Hpk. apply peek_app in Hpk as [H4 H8].
    rewrite length_app, !length_le_bytes in *.
    change (Z.of_nat 4) with 4 in H8.
    unfold DeserializeLocator.
    replace (bufSize <? 4) with false by lia.
    unfold bind. rewrite (DeserializeInt32_bytes bytesOnStorage) by done.
    rewrite (to_int_id 32 bytesOnStorage) by (unfold in_int; lia).
    replace (bytesOnStorage <? 0) with false by lia.
    replace (bufSize - 4 <? 8) with false by lia.
    rewrite (DeserializeUInt64_bytes position) by done.
    unfold ret. rewrite !to_uint_id by (unfold in_uint; lia).
    replace (p + 4 + 8 - p) with 12 by lia. reflexivity.
  - set (u := b :: url). intros (Hlen & Hbytes & -> & ->) Hpk Hsz.
    rewrite length_app in Hpk. apply peek_app in Hpk as [H4 Hu].
    rewrite length_app, !length_le_bytes in *.
    change (Z.of_nat 4) with 4 in Hu.
    set (len := Z.of_nat (length u)) in *.
    assert (0 <= len) by (unfold len; lia).
    unfold DeserializeLocator.
    replace (bufSize <? 4) with false by lia.
    unfold bind. rewrite (DeserializeInt32_bytes (- (2 ^ 25 + len))) by done.
    rewrite (to_int_id 32 (- (2 ^ 25 + len))) by (unfold in_int; lia).
    replace (- (2 ^ 25 + len) <? 0) with true by lia.
    rewrite Z.opp_involutive.
    rewrite (to_int_id 32 (2 ^ 25 + len)) by (unfold in_int; lia).
    rewrite (to_uint_id 32 (2 ^ 25 + len)) by (unfold in_uint; lia).
    destruct (url_head_decode len ltac:(lia)) as [-> ->].
    cbn [Z.eqb negb Pos.eqb].
    replace (bufSize - 4 <? len) with false by lia.
    unfold len at 1. rewrite load_bytes_peek, Nat2Z.id, Hu.
    unfold ret. fold len.
    replace (p + 4 + len - p) with (4 + len) by lia.
    rewrite to_uint_id by (unfold in_uint; lia).
    replace (Z.of_nat (4 + length u)) with (4 + len) by (unfold len; lia).
    reflexivity.
Qed.

Lemma length_locator_bytes locator :
  storable_locator locator ->
  4 <= Z.of_nat (length (locator_bytes locator)) < 2 ^ 24 + 4.
Proof.
  destruct locator as [position bytesOnStorage url].
  unfold storable_locator, locator_bytes.
  cbn [fUrl fPosition fBytesOnStorage].
  destruct url as [|b url]; rewrite length_app, !length_le_bytes.
  - intros _. lia.
  - intros (Hlen & _). lia.
Qed.

Lemma SerializeEnvelopeLink_null link m :
  storable_locator (fLocator link) ->
  SerializeEnvelopeLink link nullptr m
  = Ok (Z.of_nat (length (envelope_link_bytes link)), m).
Proof.
  intros Hs. pose proof (length_locator_bytes _ Hs).
  unfold SerializeEnvelopeLink, envelope_link_bytes, bind.
  rewrite SerializeUInt32_null. cbn [Z.eqb nullptr negb].
  rewrite SerializeLocator_null by done. unfold ret.
  rewrite to_uint_id by (unfold in_uint; lia).
  rewrite length_app, length_le_bytes. do 2 f_equal. lia.
Qed.

Lemma SerializeEnvelopeLink_bytes link p m :
  storable_locator (fLocator link) -> 0 < p ->
  allocated m p (Z.of_nat (length (envelope_link_bytes link))) ->
  SerializeEnvelopeLink link p m
  = Ok (Z.of_nat (length (envelope_link_bytes link)),
        poke p (envelope_link_bytes link) m).
Proof.
  intros Hs Hp Ha. pose proof (length_locator_bytes _ Hs).
  unfold SerializeEnvelopeLink, envelope_link_bytes in *.
  rewrite length_app, length_le_bytes in *.
  unfold bind. rewrite SerializeUInt32_poke by side Ha.
  replace (p =? nullptr) with false by (unfold nullptr; lia). cbn [negb].
  rewrite SerializeLocator_bytes by (done || lia || alloc_solve Ha).
  unfold ret. rewrite to_uint_id by (unfold in_uint; lia).
  rewrite poke_app, length_le_bytes. do 2 f_equal. lia.
Qed.

Lemma DeserializeEnvelopeLink_bytes link p bufSize m :
  storable_locator (fLocator link) -> in_uint 32 (fUnzippedSize link) ->
  peek p (length (envelope_link_bytes link)) m
    = Some (envelope_link_bytes link) ->
  Z.of_nat (length (envelope_link_bytes link)) <= bufSize ->
  DeserializeEnvelopeLink p bufSize m
  = Ok ((Z.of_nat (length (envelope_link_bytes link)), link), m).
Proof.
  intros Hs Hu Hpk Hsz. pose proof (length_locator_bytes _ Hs).
  destruct link as [unzipped locator]. cbn [fLocator fUnzippedSize] in *.
  unfold envelope_link_bytes in *. cbn [fLocator fUnzippedSize] in *.
  rewrite length_app in Hpk. apply peek_app in Hpk as [H4 Hl].
  rewrite length_app, !length_le_bytes in *. change (Z.of_nat 4) with 4 in Hl.
  unfold DeserializeEnvelopeLink.
  replace (bufSize <? 4) with false by lia.
  unfold bind. rewrite (DeserializeUInt32_bytes unzipped) by done.
  rewrite (DeserializeLocator_bytes locator) by (done || lia).
  unfold ret. rewrite (to_uint_id 32 unzipped) by done.
  match goal with |- context [to_uint 32 ?x] =>
    replace x with (4 + Z.of_nat (length (locator_bytes locator))) by lia end.
  rewrite to_uint_id by (unfold in_uint; lia).
  do 3 f_equal. lia.
Qed.

(** X13: an envelope link (u32 unzipped size, then the locator) whose
    locator the format can carry is written in the same number of bytes
    with a null buffer as with a real one and is read back unchanged;
    [DeserializeEnvelopeLink] refuses fewer than 4 bytes. *)
Theorem envelope_link_round_trip link buffer bufSize m :
  let size := Z.of_nat (length (envelope_link_bytes link)) in
  storable_locator (fLocator link) -> in_uint 32 (fUnzippedSize link) ->
  0 < buffer -> allocated m buffer size -> size <= bufSize ->
  SerializeEnvelopeLink link nullptr m = Ok (size, m) /\
  (exists m',
     SerializeEnvelopeLink link buffer m = Ok (size, m') /\
     peek buffer (length (envelope_link_bytes link)) m'
       = Some (envelope_link_bytes link) /\
     DeserializeEnvelopeLink buffer bufSize m' = Ok ((size, link), m')) /\
  (forall small, small < 4 ->
     DeserializeEnvelopeLink buffer small m = Throw too_short_locator).
Proof.
  intros size Hs Hu Hp Ha Hsz. split; [by apply SerializeEnvelopeLink_null|].
  split.
  - eexists. split; [by apply SerializeEnvelopeLink_bytes|].
    split; [apply peek_poke_same|].
    apply DeserializeEnvelopeLink_bytes; try done. apply peek_poke_same.
  - intros small Hlt. unfold DeserializeEnvelopeLink.
    by replace (small <? 4) with true by lia.
Qed.

(** X14: a cluster group (record frame holding the u32 cluster count and
    the page-list envelope link) is written in the same number of bytes
    with a null buffer as with a real one, starts with its own size, and
    is read back unchanged by [DeserializeClusterGroup], which returns the
    frame size. *)
Theorem cluster_group_round_trip group buffer bufSize m :
  let size := Z.of_nat (length (cluster_group_bytes group)) in
  storable_locator (fLocator (fPageListEnvelopeLink group)) ->
  in_uint 32 (fUnzippedSize (fPageListEnvelopeLink group)) ->
  in_uint 32 (fNClusters group) ->
  0 < buffer -> allocated m buffer size -> size <= bufSize ->
  SerializeClusterGroup group nullptr m = Ok (size, m) /\
  exists m',
    SerializeClusterGroup group buffer m = Ok (size, m') /\
    peek buffer (length (cluster_group_bytes group)) m'
      = Some (cluster_group_bytes group) /\
    DeserializeClusterGroup buffer bufSize m' = Ok ((size, group), m').
Proof.
  intros size. subst size.
  destruct group as [nClusters link]. cbn [fNClusters fPageListEnvelopeLink].
  unfold cluster_group_bytes. cbn [fNClusters fPageListEnvelopeLink].
  set (lb := envelope_link_bytes link).
  intros Hs Hu Hn Hp Ha Hsz. unfold in_uint in Hn.
  pose proof (length_locator_bytes _ Hs) as Hll.
  assert (Hlb : Z.of_nat (length lb)
                = 4 + Z.of_nat (length (locator_bytes (fLocator link)))).
  { unfold lb, envelope_link_bytes. rewrite length_app, length_le_bytes. lia. }
  rewrite !length_app, !length_le_bytes in *.
  replace (Z.of_nat (4 + (4 + length lb))) with (8 + Z.of_nat (length lb))
    in * by lia.
  unfold SerializeClusterGroup, SerializeRecordFramePreamble.
  cbn [fNClusters fPageListEnvelopeLink]. split.
  - unfold bind. rewrite !where_null, SerializeInt32_null.
    cbv beta iota. rewrite SerializeUInt32_null. cbv beta iota.
    rewrite SerializeEnvelopeLink_null by done. fold lb. cbv beta iota.
    replace (nullptr + 4 + 4 + Z.of_nat (length lb) - nullptr)
      with (8 + Z.of_nat (length lb)) by (unfold nullptr; lia).
    rewrite to_int_id by (unfold in_int; lia).
    rewrite SerializeFramePostscript_null by lia.
    unfold ret. by rewrite to_uint_id by (unfold in_uint; lia).
  - sym_exec Ha.
    rewrite SerializeEnvelopeLink_bytes
      by (done || lia || (fold lb; alloc_solve Ha)).
    fold lb. cbv beta iota.
    replace (buffer + 4 + 4 + Z.of_nat (length lb) - buffer)
      with (8 + Z.of_nat (length lb)) by lia.
    rewrite to_int_id by (unfold in_int; lia).
    rewrite SerializeFramePostscript_record;
      [|done|lia|
       rewrite !peek_poke_disjoint
         by (rewrite ?length_le_bytes; cbn [length]; lia);
       apply peek_poke_le].
    unfold ret. rewrite to_uint_id by (unfold in_uint; lia).
    eexists. split; [reflexivity|].
    set (m' := poke buffer (le_bytes 4 (8 + Z.of_nat (length lb))) _).
    assert (H0 : peek buffer 4 m'
                 = Some (le_bytes 4 (8 + Z.of_nat (length lb))))
      by (unfold m'; apply peek_poke_le).
    assert (H1 : peek (buffer + 4) 4 m' = Some (le_bytes 4 nClusters)).
    { unfold m'. rewrite !peek_poke_disjoint
        by (rewrite ?length_le_bytes; cbn [length]; lia).
      apply peek_poke_le. }
    assert (H2 : peek (buffer + 4 + 4) (length lb) m' = Some lb).
    { unfold m'. rewrite peek_poke_disjoint
        by (rewrite ?length_le_bytes; cbn [length]; lia).
      apply peek_poke_same. }
    split.
    + replace (4 + (4 + length lb))%nat
        with (length (le_bytes 4 (8 + Z.of_nat (length lb))
                      ++ le_bytes 4 nClusters ++ lb))
        by (rewrite !length_app, !length_le_bytes; lia).
      apply peek_app_intro; rewrite length_le_bytes; [done|].
      apply peek_app_intro; rewrite length_le_bytes; [done|].
      change (Z.of_nat 4) with 4. done.
    + unfold DeserializeClusterGroup, DeserializeFrame', bind.
      rewrite (DeserializeFrame_record buffer bufSize
                 (8 + Z.of_nat (length lb))) by (done || lia).
      unfold ret. cbv beta iota.
      replace (8 + Z.of_nat (length lb) - 4) with (4 + Z.of_nat (length lb))
        by lia.
      rewrite (to_uint_id 32 (4 + _)) by (unfold in_uint; lia).
      replace (4 + Z.of_nat (length lb) <? 4) with false by lia.
      rewrite (DeserializeUInt32_bytes nClusters) by done.
      replace (4 + Z.of_nat (length lb) - 4) with (Z.of_nat (length lb))
        by lia.
      rewrite (to_uint_id 32 (Z.of_nat _)) by (unfold in_uint; lia).
      rewrite (DeserializeEnvelopeLink_bytes link) by (done || (fold lb; lia)).
      by rewrite (to_uint_id 32 nClusters) by done.
Qed.

(** ** The context's ID maps *)

Lemma map_clusters_snoc c ids id :
  map_clusters c (ids ++ [id]) = snd (MapClusterId id (map_clusters c ids)).
Proof. unfold map_clusters. by rewrite foldl_app. Qed.

Lemma map_clusters_phys2mem c ids :
  fPhys2MemClusterIDs (map_clusters c ids) = fPhys2MemClusterIDs c ++ ids.
Proof.
  induction ids as [|id ids IH] using rev_ind.
  - by rewrite app_nil_r.
  - rewrite map_clusters_snoc. cbn [MapClusterId snd fPhys2MemClusterIDs].
    by rewrite IH, app_assoc.
Qed.

Lemma map_clusters_other c ids (id : Z) :
  id ∉ ids ->
  fMem2PhysClusterIDs (map_clusters c ids) !! id
  = fMem2PhysClusterIDs c !! id.
Proof.
  induction ids as [|x ids IH] using rev_ind; intros Hni; [done|].
  rewrite map_clusters_snoc. cbn [MapClusterId snd fMem2PhysClusterIDs].
  rewrite not_elem_of_app, list_elem_of_singleton in Hni.
  destruct Hni as [Hni Hne].
  rewrite lookup_insert_ne by done. by apply IH.
Qed.

Lemma map_clusters_mem2phys c ids (i : nat) (id : Z) :
  NoDup ids -> ids !! i = Some id ->
  fMem2PhysClusterIDs (map_clusters c ids) !! id
  = Some (Z.of_nat (length (fPhys2MemClusterIDs c) + i)).
Proof.
  revert i. induction ids as [|x ids IH] using rev_ind; intros i Hnd Hi;
    [done|].
  rewrite map_clusters_snoc. cbn [MapClusterId snd fMem2PhysClusterIDs].
  apply NoDup_app in Hnd as (Hnd & Hdisj & _).
  destruct (decide (i < length ids)%nat) as [Hlt|Hge].
  - rewrite lookup_app_l in Hi by done.
    assert (id ∈ ids) by (by eapply list_elem_of_lookup_2).
    assert (x <> id).
    { intros ->. apply (Hdisj id); [done|]. by apply list_elem_of_singleton. }
    rewrite lookup_insert_ne by done. by apply IH.
  - apply lookup_lt_Some in Hi as Hi'. rewrite length_app in Hi'.
    cbn [length] in Hi'. assert (i = length ids) as -> by lia.
    rewrite list_lookup_middle in Hi by done. injection Hi as ->.
    rewrite lookup_insert_eq, map_clusters_phys2mem, length_app. done.
Qed.

(** X15: after mapping pairwise distinct cluster IDs into a fresh context,
    the two directions agree: the [i]-th mapped ID has physical ID [i],
    [GetPhysClusterId] and [GetMemClusterId] are inverse on the mapped
    IDs, and [GetPhysClusterId] of an ID that was never mapped throws
    [std::out_of_range]. *)
Theorem cluster_ids_lookup ids m :
  NoDup ids ->
  let context := map_clusters RContext_new ids in
  (forall (i : nat) id,
     ids !! i = Some id ->
     GetPhysClusterId id context m = Ok (Z.of_nat i, m) /\
     GetMemClusterId (Z.of_nat i) context m = Ok (id, m)) /\
  (forall id, id ∉ ids ->
     GetPhysClusterId id context m = Throw std_out_of_range).
Proof.
  intros Hnd context. split.
  - intros i id Hi. unfold GetPhysClusterId, GetMemClusterId, context.
    rewrite (map_clusters_mem2phys _ _ i) by done.
    rewrite map_clusters_phys2mem, Nat2Z.id. cbn [RContext_new
      fPhys2MemClusterIDs length app Nat.add]. by rewrite Hi.
  - intros id Hni. unfold GetPhysClusterId, context.
    rewrite map_clusters_other by done. done.
Qed.

(** X16: the context does not notice an ID that is mapped twice:
    [MapColumnId] hands out a second physical ID, both physical IDs lead
    back to the in-memory ID, and the forward lookup returns the later
    one. *)
Theorem MapColumnId_twice memId c m :
  let '(phys1, c1) := MapColumnId memId c in
  let '(phys2, c2) := MapColumnId memId c1 in
  phys1 = Z.of_nat (length (fPhys2MemColumnIDs c)) /\
  phys2 = phys1 + 1 /\
  GetPhysColumnId memId c2 m = Ok (phys2, m) /\
  GetMemColumnId phys1 c2 m = Ok (memId, m) /\
  GetMemColumnId phys2 c2 m = Ok (memId, m).
Proof.
  cbn [MapColumnId]. unfold GetPhysColumnId, GetMemColumnId.
  cbn [fMem2PhysColumnIDs fPhys2MemColumnIDs].
  rewrite lookup_insert_eq, length_app. cbn [length].
  split; [done|]. split; [lia|]. split; [done|].
  rewrite !Nat2Z.id. split.
  - rewrite <- app_assoc. cbn [app]. by rewrite list_lookup_middle.
  - by rewrite list_lookup_middle by (rewrite length_app; cbn [length]; lia).
Qed.

(** ** Columns in the header *)

Section Columns.

Variable GetBitsOnStorage : EColumnType -> Z.
Variable desc : RNTupleDescriptor.

Lemma SerializeColumnsV1_for_no_map cs c buffer size m r :
  SerializeColumnsV1_for GetBitsOnStorage cs c buffer size m = Ok r ->
  fMem2PhysColumnIDs c = ∅ -> cs = [].
Proof.
  intros H Hmap. destruct cs as [|col cs]; [done|]. exfalso.
  cbn [SerializeColumnsV1_for] in H.
  apply bind_Ok in H as ([size1 c1] & m1 & H & _).
  unfold SerializeColumnsV1_body in H.
  apply bind_Ok in H as (n1 & m2 & _ & H).
  apply bind_Ok in H as (n2 & m3 & _ & H).
  apply bind_Ok in H as (n3 & m4 & _ & H).
  apply bind_Ok in H as (physId & m5 & H & _).
  unfold GetPhysColumnId in H. by rewrite Hmap, lookup_empty in H.
Qed.

Lemma SerializeColumnsV1_while_no_map fuel c buffer q size m size' c' m' :
  SerializeColumnsV1_while GetBitsOnStorage fuel desc c buffer q size m
    = Ok ((size', c'), m') ->
  fMem2PhysColumnIDs c = ∅ ->
  exists order,
    queue_order fuel desc q = Some order /\
    Forall (fun id => GetColumnIterable desc id = []) order /\
    size' = size /\ c' = c /\ m' = m.
Proof.
  revert q. induction fuel as [|fuel IH]; intros q H Hmap.
  - destruct q as [|p q]; [|done]. injection H as <- <- <-. by exists [].
  - destruct q as [|p q]; [injection H as <- <- <-; by exists []|].
    cbn [SerializeColumnsV1_while] in H.
    apply bind_Ok in H as ([size1 c1] & m1 & Hfor & H).
    pose proof (SerializeColumnsV1_for_no_map _ _ _ _ _ _ Hfor Hmap) as Hnil.
    rewrite Hnil in Hfor. injection Hfor as <- <- <-.
    apply IH in H as (order & Hq & Hall & -> & -> & ->); [|done].
    exists (p :: order). cbn [queue_order]. unfold child_ids. rewrite Hq.
    repeat split; try done. by constructor.
Qed.

Lemma queue_order_contains_levels fuel l order :
  queue_order fuel desc l = Some order ->
  forall n id, id ∈ nth_level desc n l -> id ∈ order.
Proof.
  intros H n. revert fuel l order H.
  induction n as [|n IH]; intros fuel l order H id Hid.
  - cbn in Hid.
    pose proof (queue_order_fuel desc _ (length l + fuel) _ _ H ltac:(lia))
      as H'.
    pose proof (queue_order_level desc l [] fuel) as E.
    rewrite app_nil_r in E. cbn [app] in E. rewrite E in H'.
    destruct (queue_order fuel desc (flat_map (child_ids desc) l))
      as [o|]; [|done].
    cbn in H'. injection H' as <-. apply elem_of_app. by left.
  - cbn [nth_level] in Hid.
    pose proof (queue_order_fuel desc _ (length l + fuel) _ _ H ltac:(lia))
      as H'.
    pose proof (queue_order_level desc l [] fuel) as E.
    rewrite app_nil_r in E. cbn [app] in E. rewrite E in H'.
    destruct (queue_order fuel desc (flat_map (child_ids desc) l))
      as [o|] eqn:Eo; [|done].
    cbn in H'. injection H' as <-. apply elem_of_app. right.
    by apply (IH _ _ _ Eo).
Qed.

(** The size-only run up to the first field that has a column. *)
Lemma SerializeColumnsV1_while_first_column fuel c q size m pre id post col cs :
  queue_order fuel desc q = Some (pre ++ id :: post) ->
  Forall (fun p => GetColumnIterable desc p = []) pre ->
  GetColumnIterable desc id = col :: cs ->
  GetType col <> kUnknownColumnType ->
  fMem2PhysColumnIDs c = ∅ ->
  SerializeColumnsV1_while GetBitsOnStorage fuel desc c nullptr q size m
  = Throw std_out_of_range.
Proof.
  revert q pre. induction fuel as [|fuel IH]; intros q pre Hq Hpre Hcol Hty Hmap.
  - destruct q; [|done]. injection Hq as Hq. by destruct pre.
  - destruct q as [|p q]; [injection Hq as Hq; by destruct pre|].
    cbn [queue_order] in Hq.
    destruct (queue_order fuel desc _) as [o|] eqn:Eo; [|done].
    injection Hq as Hq. cbn [SerializeColumnsV1_while].
    destruct pre as [|p' pre].
    + cbn [app] in Hq. injection Hq as -> ->. rewrite Hcol.
      assert (Hct : SerializeColumnType (GetType col) nullptr m = Ok (2, m))
        by (by destruct (GetType col)).
      cbn [SerializeColumnsV1_for].
      unfold SerializeColumnsV1_body, SerializeRecordFramePreamble, bind.
      cbv zeta. rewrite !where_null, SerializeInt32_null. cbv beta iota.
      rewrite !where_null, Hct. cbv beta iota.
      rewrite !where_null, SerializeUInt16_null. cbv beta iota.
      unfold GetPhysColumnId. by rewrite Hmap, lookup_empty.
    + cbn [app] in Hq. injection Hq as -> ->.
      apply Forall_cons in Hpre as [Hp Hpre]. rewrite Hp.
      cbn [SerializeColumnsV1_for]. unfold bind at 1. unfold ret at 1.
      cbv beta iota. by apply (IH _ pre).
Qed.

Lemma SerializeColumnsV1_no_return c n id fuel buffer m r :
  fMem2PhysColumnIDs c = ∅ ->
  id ∈ nth_level desc n [GetFieldZeroId desc] ->
  GetColumnIterable desc id <> [] ->
  SerializeColumnsV1 GetBitsOnStorage fuel desc c buffer m <> Ok r.
Proof.
  intros Hmap Hid Hcol H. destruct r as [[size c'] m'].
  apply SerializeColumnsV1_while_no_map in H
    as (order & Hq & Hall & _); [|done].
  pose proof (queue_order_contains_levels _ _ _ Hq n id Hid) as Hin.
  rewrite Forall_forall in Hall. by apply Hall in Hin.
Qed.

(** X17: started with an empty column map, as [SerializeHeaderV1] does,
    [SerializeColumnsV1] never returns normally once some field of the
    tree has a column, because it looks up the column's field ID in the
    column map before any column has been added to it; in the size-only
    run the failure is [std::out_of_range], raised at the first column
    met in breadth-first order.  When it does return, no visited field had
    a column, and it returns size 0 and leaves context and heap as they
    were. *)
Theorem SerializeColumnsV1_first_column_throws c :
  fMem2PhysColumnIDs c = ∅ ->
  (forall n id,
     id ∈ nth_level desc n [GetFieldZeroId desc] ->
     GetColumnIterable desc id <> [] ->
     forall fuel buffer m r,
       SerializeColumnsV1 GetBitsOnStorage fuel desc c buffer m <> Ok r) /\
  (forall fuel pre id post col cs m,
     queue_order fuel desc [GetFieldZeroId desc] = Some (pre ++ id :: post) ->
     Forall (fun p => GetColumnIterable desc p = []) pre ->
     GetColumnIterable desc id = col :: cs ->
     GetType col <> kUnknownColumnType ->
     SerializeColumnsV1 GetBitsOnStorage fuel desc c nullptr m
     = Throw std_out_of_range) /\
  (forall fuel buffer m size c' m',
     SerializeColumnsV1 GetBitsOnStorage fuel desc c buffer m
       = Ok ((size, c'), m') ->
     size = 0 /\ c' = c /\ m' = m).
Proof.
  intros Hmap. split; [|split].
  - intros n id Hid Hcol fuel buffer m r.
    by apply (SerializeColumnsV1_no_return c n id).
  - intros fuel pre id post col cs m Hq Hpre Hcol Hty.
    by apply (SerializeColumnsV1_while_first_column _ _ _ _ _ pre id post col cs).
  - intros fuel buffer m size c' m' H.
    by apply SerializeColumnsV1_while_no_map in H as (_ & _ & _ & ? & ? & ?).
Qed.

End Columns.

Lemma map_fields_columns c ids :
  fMem2PhysColumnIDs (map_fields c ids) = fMem2PhysColumnIDs c.
Proof.
  induction ids as [|id ids IH] using rev_ind; [done|].
  by rewrite map_fields_snoc.
Qed.

(** X18: consequently [SerializeHeaderV1] never returns normally for a
    descriptor in which some field has a column, whatever the buffer. *)
Theorem SerializeHeaderV1_with_column_never_returns
    GetBitsOnStorage R__crc32 desc n id :
  id ∈ nth_level desc n [GetFieldZeroId desc] ->
  GetColumnIterable desc id <> [] ->
  forall fuel buffer m r,
    SerializeHeaderV1 GetBitsOnStorage R__crc32 fuel buffer desc m <> Ok r.
Proof.
  intros Hid Hcol fuel buffer m r H. unfold SerializeHeaderV1 in H.
  apply bind_Ok in H as (n1 & m1 & _ & H).
  apply bind_Ok in H as (n2 & m2 & _ & H).
  apply bind_Ok in H as (n3 & m3 & _ & H).
  apply bind_Ok in H as (n4 & m4 & _ & H).
  apply bind_Ok in H as (n5 & m5 & _ & H).
  apply bind_Ok in H as ([sz c1] & m6 & Hf & H).
  apply bind_Ok in H as (n6 & m7 & _ & H).
  apply bind_Ok in H as (n7 & m8 & _ & H).
  apply bind_Ok in H as ([sz2 c2] & m9 & Hc & _).
  apply SerializeFieldsV1_while_context in Hf as (order & _ & ->).
  revert Hc.
  apply (SerializeColumnsV1_no_return GetBitsOnStorage desc
           (map_fields RContext_new order) n id);
    [apply map_fields_columns|done|done].
Qed.

(** ** Reading stays inside the buffer *)

Lemma DeserializeInt64_inv p m n v m' :
  DeserializeInt64 p m = Ok ((n, v), m') ->
  n = 8 /\ m' = m /\ in_int 64 v.
Proof.
  rewrite DeserializeInt64_peek. destruct (peek p 8 m); [|done].
  intros [= <- <- <-]. split; [done|]. split; [done|].
  apply to_int_range. lia.
Qed.

Lemma DeserializeFeatureFlags_do_inv fuel p size acc m flags m' :
  DeserializeFeatureFlags_do fuel p size acc m = Ok (flags, m') ->
  m' = m /\
  exists new, flags = acc ++ new /\ (1 <= length new)%nat /\
              8 * Z.of_nat (length new) <= size.
Proof.
  revert p size acc. induction fuel as [|fuel IH]; intros p size acc H;
    [done|].
  cbn [DeserializeFeatureFlags_do] in H.
  apply if_throw_Ok in H as [Hsz H].
  apply bind_Ok in H as ([n f] & m1 & Hf & H).
  apply DeserializeInt64_inv in Hf as (-> & -> & _).
  destruct (f <? 0).
  - apply IH in H as (-> & new & -> & Hl & Hs). split; [done|].
    exists (to_int 32 (Z.abs (to_int 32 f)) :: new). rewrite <- app_assoc.
    split; [done|]. cbn [length]. lia.
  - injection H as <- <-. split; [done|].
    exists [to_int 32 (Z.abs (to_int 32 f))]. split; [done|]. cbn [length]. lia.
Qed.

(** X19: [DeserializeFeatureFlags] fails with "buffer too short" when no
    word fits, never runs out of iterations, and whenever it succeeds it
    has read at least one flag word, the byte count it returns is 8 per
    flag and at most [size], and the heap is unchanged. *)
Theorem DeserializeFeatureFlags_bounds buffer size m :
  0 <= size < 2 ^ 32 ->
  (size < 8 -> DeserializeFeatureFlags buffer size m = Throw buffer_too_short) /\
  DeserializeFeatureFlags buffer size m <> OutOfFuel /\
  (forall n flags m',
     DeserializeFeatureFlags buffer size m = Ok ((n, flags), m') ->
     m' = m /\ (1 <= length flags)%nat /\
     n = 8 * Z.of_nat (length flags) /\ n <= size).
Proof.
  intros Hsz. split; [|split].
  - intros H. unfold DeserializeFeatureFlags, bind.
    replace (Z.to_nat (size / 8) + 1)%nat with 1%nat
      by (rewrite Z.div_small by lia; lia).
    cbn [DeserializeFeatureFlags_do].
    by replace (size <? 8) with true by lia.
  - apply DeserializeFeatureFlags_returns. lia.
  - intros n flags m' H. unfold DeserializeFeatureFlags in H.
    apply bind_Ok in H as (fl & m1 & H & Hr). injection Hr as <- <- <-.
    apply DeserializeFeatureFlags_do_inv in H as (-> & new & -> & Hl & Hs).
    cbn [app]. rewrite to_uint_id by (unfold in_uint; lia).
    repeat split; lia.
Qed.

Lemma DeserializeFrame_head buffer bufSize m n frameSize nitems m' :
  DeserializeFrame buffer bufSize m = Ok ((n, frameSize, nitems), m') ->
  exists head,
    DeserializeInt32 buffer m = Ok ((4, head), m) /\
    (n = 4 /\ head = frameSize \/ n = 8 /\ head = - frameSize).
Proof.
  intros H. unfold DeserializeFrame in H.
  apply if_throw_Ok in H as [_ H].
  apply bind_Ok in H as ([n1 ssize] & m1 & H1 & H).
  pose proof H1 as Hhead.
  rewrite DeserializeInt32_peek in H1.
  destruct (peek buffer 4 m) as [b4|] eqn:Eb; [|done].
  injection H1 as <- <- <-.
  pose proof (to_int_range 32 (le_val b4) ltac:(lia)) as Hr.
  unfold in_int in Hr. change (32 - 1) with 31 in Hr.
  exists (to_int 32 (le_val b4)). split; [done|].
  apply bind_Ok in H as ([[bytes ssize'] nitems'] & m2 & H1 & H).
  apply if_throw_Ok in H as [Hfit H]. injection H as <- <- <- <-.
  destruct (Z.geb_spec (to_int 32 (le_val b4)) 0) as [Hge|Hlt].
  + apply if_throw_Ok in H1 as [Hc H1]. injection H1 as <- <- <- <-.
    replace (buffer + 4 - buffer) with 4 by lia.
    change (to_uint 32 4) with 4. left. split; [done|].
    by rewrite to_uint_id by (unfold in_uint; lia).
  + apply if_throw_Ok in H1 as [_ H1].
    apply bind_Ok in H1 as ([n2 raw] & m3 & H2 & H1).
    apply if_throw_Ok in H1 as [Hc H1]. injection H1 as <- <- <- <-.
    unfold DeserializeUInt32 in H2.
    apply bind_Ok in H2 as ([k r] & m4 & H2 & H3). injection H3 as <- <- <-.
    rewrite DeserializeInt32_peek in H2.
    destruct (peek (buffer + 4) 4 m) as [b4'|]; [|done].
    injection H2 as <- <- <-.
    replace (buffer + 4 + 4 - buffer) with 8 by lia.
    change (to_uint 32 8) with 8. right. split; [done|].
    rewrite to_uint_to_int by lia.
    rewrite to_uint_id by (unfold in_uint; lia). lia.
Qed.

(** X20: whenever [DeserializeClusterSummary] succeeds, the frame it read
    lies inside the buffer and holds the fields it decoded: the size it
    returns is the frame size, that is the head word of a record frame or
    the negated head word of a list frame, at least 20 and at most
    [bufSize]; the first entry is the unsigned word behind the frame
    header; the column group is -1 and the entry count is the next word
    when that word is not negative, and otherwise the frame has at least
    4 more bytes behind it, the entry count is the negated word and the
    column group is the 32-bit word that follows; the heap is
    unchanged. *)
Theorem DeserializeClusterSummary_bounds buffer bufSize m n cs m' :
  0 <= bufSize < 2 ^ 32 ->
  DeserializeClusterSummary buffer bufSize m = Ok ((n, cs), m') ->
  m' = m /\ 20 <= n <= bufSize /\
  in_uint 64 (fFirstEntry cs) /\
  (fColumnGroupID cs = -1 /\ 0 <= fNEntries cs < 2 ^ 63 \/
   24 <= n /\ 0 < fNEntries cs <= 2 ^ 63 /\ in_int 32 (fColumnGroupID cs)) /\
  exists hdr head word,
    DeserializeInt32 buffer m = Ok ((4, head), m) /\
    (hdr = 4 /\ head = n \/ hdr = 8 /\ head = - n) /\
    DeserializeUInt64 (buffer + hdr) m = Ok ((8, fFirstEntry cs), m) /\
    DeserializeInt64 (buffer + hdr + 8) m = Ok ((8, word), m) /\
    (0 <= word /\ fNEntries cs = word /\ fColumnGroupID cs = -1 \/
     word < 0 /\ hdr + 20 <= n /\ fNEntries cs = - word /\
     exists group,
       DeserializeUInt32 (buffer + hdr + 16) m = Ok ((4, group), m) /\
       fColumnGroupID cs = to_int 32 group).
Proof.
  intros Hb H. unfold DeserializeClusterSummary, DeserializeFrame' in H.
  apply bind_Ok in H as ([hdr fs] & m1 & Hfr & H).
  apply bind_Ok in Hfr as ([[hdr' fs'] ni] & m0 & Hfr & Hr).
  injection Hr as <- <- <-.
  pose proof (DeserializeFrame_head _ _ _ _ _ _ _ Hfr) as (head & Hhead & Hcase).
  apply (DeserializeFrame_inv _ bufSize) in Hfr as (-> & Hfs & Hhdr);
    [|done].
  assert (Hh : hdr' = 4 \/ hdr' = 8) by (destruct Hhdr as [[? _]|[? _]]; lia).
  rewrite (to_uint_id 32 (fs' - hdr')) in H by (unfold in_uint; lia).
  apply if_throw_Ok in H as [H16 H].
  apply bind_Ok in H as ([k first] & m2 & Hfirst & H).
  pose proof Hfirst as Hfirst0.
  unfold DeserializeUInt64 in Hfirst.
  apply bind_Ok in Hfirst as ([k' raw] & m3 & Hraw & Hr).
  injection Hr as <- <- <-.
  apply DeserializeInt64_inv in Hraw as (-> & -> & _).
  apply bind_Ok in H as ([k2 ne] & m4 & Hne & H).
  pose proof Hne as Hne0.
  apply DeserializeInt64_inv in Hne as (-> & -> & Hne).
  apply bind_Ok in H as (cs' & m5 & H & Hr). injection Hr as <- <- <-.
  rewrite (to_uint_id 32 (fs' - hdr' - 8)) in H by (unfold in_uint; lia).
  rewrite (to_uint_id 32 (fs' - hdr' - 8 - 8)) in H by (unfold in_uint; lia).
  unfold in_int in Hne.
  pose proof (to_uint_range 64 raw ltac:(lia)) as Hfirst.
  destruct (Z.ltb_spec ne 0) as [Hneg|Hpos].
  - apply if_throw_Ok in H as [H4 H].
    apply bind_Ok in H as ([k3 g] & m6 & Hg & H). injection H as <- <-.
    pose proof Hg as Hg0.
    unfold DeserializeUInt32 in Hg.
    apply bind_Ok in Hg as ([k4 graw] & m7 & Hg & Hr).
    injection Hr as <- <- <-.
    rewrite DeserializeInt32_peek in Hg.
    destruct (peek _ 4 m); [|done]. injection Hg as <- <- <-.
    cbn [fFirstEntry fNEntries fColumnGroupID].
    rewrite (to_uint_id 64 (- ne)) by (unfold in_uint; lia).
    split; [done|]. split; [lia|]. split; [done|]. split.
    { right. split; [lia|]. split; [lia|]. apply to_int_range. lia. }
    exists hdr', head, ne. split; [done|]. split; [lia|].
    split; [done|]. split; [done|]. right.
    split; [done|]. split; [lia|]. split; [done|].
    eexists. split; [|reflexivity].
    replace (buffer + hdr' + 16) with (buffer + hdr' + 8 + 8) by lia.
    exact Hg0.
  - injection H as <- <-. cbn [fFirstEntry fNEntries fColumnGroupID].
    rewrite (to_uint_id 64 ne) by (unfold in_uint; lia).
    split; [done|]. split; [lia|]. split; [done|]. split; [left; lia|].
    exists hdr', head, ne. split; [done|]. split; [lia|].
    split; [done|]. split; [done|]. left. done.
Qed.

(** ** What a returning serializer has done *)

Lemma Ok_pair_inj {A} (a a' : A) (m m' : heap) :
  Ok (a, m) = Ok (a', m') -> a = a' /\ m = m'.
Proof. intros H. by injection H. Qed.

Lemma store_inv_alloc p v m m' :
  store p v m = Ok (tt, m') -> is_Some (m !! p).
Proof. unfold store. destruct (m !! p); [eauto|done]. Qed.

Lemma is_Some_insert_inv (m : heap) p v a :
  is_Some (<[p := v]> m !! a) -> a <> p -> is_Some (m !! a).
Proof. intros H Hne. by rewrite lookup_insert_ne in H. Qed.

Lemma SerializeInt16_inv v p m n m' :
  p <> nullptr -> SerializeInt16 v p m = Ok (n, m') ->
  n = 2 /\ m' = poke p (le_bytes 2 v) m.
Proof.
  intros Hp H.
  assert (Ha : allocated m p 2).
  { unfold SerializeInt16 in H. rewrite nonnull_eqb in H by done.
    cbn [negb] in H.
    apply bind_Ok in H as ([] & m2 & H & _).
    apply bind_Ok in H as ([] & m1 & H1 & H2).
    apply store_inv_alloc in H1 as A1. apply store_inv in H1 as ->.
    apply store_inv_alloc in H2 as A2.
    apply is_Some_insert_inv in A2; [|lia].
    intros a Ha.
    assert (a = p + 0 \/ a = p + 1) as [->| ->] by lia; done. }
  rewrite SerializeInt16_poke in H by done. by injection H as <- <-.
Qed.

Lemma SerializeInt32_inv v p m n m' :
  p <> nullptr -> SerializeInt32 v p m = Ok (n, m') ->
  n = 4 /\ m' = poke p (le_bytes 4 v) m.
Proof.
  intros Hp H.
  assert (Ha : allocated m p 4).
  { unfold SerializeInt32 in H. rewrite nonnull_eqb in H by done.
    cbn [negb] in H.
    apply bind_Ok in H as ([] & m4 & H & _).
    apply bind_Ok in H as ([] & m1 & H1 & H).
    apply store_inv_alloc in H1 as A1. apply store_inv in H1 as ->.
    apply bind_Ok in H as ([] & m2 & H2 & H).
    apply store_inv_alloc in H2 as A2. apply store_inv in H2 as ->.
    apply bind_Ok in H as ([] & m3 & H3 & H).
    apply store_inv_alloc in H3 as A3. apply store_inv in H3 as ->.
    apply store_inv_alloc in H as A4.
    repeat (apply is_Some_insert_inv in A2; [|lia]).
    repeat (apply is_Some_insert_inv in A3; [|lia]).
    repeat (apply is_Some_insert_inv in A4; [|lia]).
    intros a Ha.
    assert (a = p + 0 \/ a = p + 1 \/ a = p + 2 \/ a = p + 3)
      as [->|[->|[->| ->]]] by lia; done. }
  rewrite SerializeInt32_poke in H by done. by injection H as <- <-.
Qed.

Lemma SerializeInt64_size v p m n m' :
  SerializeInt64 v p m = Ok (n, m') -> n = 8.
Proof.
  unfold SerializeInt64. intros H.
  apply bind_Ok in H as ([] & m1 & _ & H). by injection H as <- _.
Qed.

Lemma SerializeInt32_size v p m n m' :
  SerializeInt32 v p m = Ok (n, m') -> n = 4.
Proof.
  unfold SerializeInt32. intros H.
  apply bind_Ok in H as ([] & m1 & _ & H). by injection H as <- _.
Qed.

Lemma SerializeInt16_size v p m n m' :
  SerializeInt16 v p m = Ok (n, m') -> n = 2.
Proof.
  unfold SerializeInt16. intros H.
  apply bind_Ok in H as ([] & m1 & _ & H). by injection H as <- _.
Qed.

Lemma SerializeString_size s p m n m' :
  SerializeString s p m = Ok (n, m') ->
  n = to_uint 32 (4 + Z.of_nat (length s)).
Proof.
  unfold SerializeString. intros H.
  apply bind_Ok in H as ([] & m1 & _ & H). by injection H as <- _.
Qed.

Lemma SerializeEnvelopePreamble_size p m n m' :
  SerializeEnvelopePreamble p m = Ok (n, m') -> n = 4.
Proof.
  unfold SerializeEnvelopePreamble. intros H.
  apply bind_Ok in H as (n1 & m1 & H1 & H).
  apply SerializeInt16_size in H1 as ->.
  apply bind_Ok in H as (n2 & m2 & H2 & H).
  apply SerializeInt16_size in H2 as ->.
  injection H as <- _. by replace (p + 2 + 2 - p) with 4 by lia.
Qed.

Lemma SerializeListFramePreamble_inv nitems p m n m' :
  0 < p -> SerializeListFramePreamble nitems p m = Ok (n, m') ->
  n = 8 /\ m' = poke (p + 4) (le_bytes 4 nitems) (poke p (le_bytes 4 (-1)) m).
Proof.
  intros Hp H. unfold SerializeListFramePreamble in H.
  apply if_throw_Ok in H as [_ H]. rewrite !where_real in H by done.
  apply bind_Ok in H as (n1 & m1 & H1 & H).
  apply SerializeInt32_inv in H1 as [-> ->]; [|unfold nullptr; lia].
  rewrite where_real in H by done.
  apply bind_Ok in H as (n2 & m2 & H2 & H).
  unfold SerializeUInt32 in H2.
  apply SerializeInt32_inv in H2 as [-> ->]; [|unfold nullptr; lia].
  apply Ok_pair_inj in H as [<- <-]. rewrite le_bytes_to_int32.
  by replace (p + 4 + 4 - p) with 8 by lia.
Qed.

Lemma peek_ext q n (m1 m2 : heap) :
  (forall a, q <= a < q + Z.of_nat n -> m1 !! a = m2 !! a) ->
  peek q n m1 = peek q n m2.
Proof.
  revert q. induction n as [|n IH]; intros q H; [done|].
  cbn [peek]. rewrite (H q) by lia. rewrite (IH (q + 1)); [done|].
  intros a Ha. apply H. lia.
Qed.

Lemma SerializeFramePostscript_inv frame size m r m' :
  SerializeFramePostscript frame size m = Ok (r, m') ->
  r = 0 /\ 4 <= size /\
  forall a, ~ (frame <= a < frame + 4) -> m' !! a = m !! a.
Proof.
  unfold SerializeFramePostscript. intros H.
  apply if_throw_Ok in H as [_ H]. apply if_throw_Ok in H as [H4 H].
  apply bind_Ok in H as ([] & m1 & H & Hr). injection Hr as <- <-.
  split; [done|]. split; [lia|]. intros a Ha.
  destruct (frame =? nullptr); cbn [negb] in H.
  - by injection H as <-.
  - apply bind_Ok in H as ([k marker] & m2 & Hm & H).
    rewrite DeserializeInt32_peek in Hm.
    destruct (peek frame 4 m); [|done]. injection Hm as <- <- <-.
    apply if_throw_Ok in H as [_ H].
    apply bind_Ok in H as (k' & m3 & H & Hr). injection Hr as <-.
    by apply (SerializeInt32_outside _ _ _ _ _ H).
Qed.

Lemma SerializeCRC32_inv R__crc32 data len buffer m n m' :
  SerializeCRC32 R__crc32 data len buffer m = Ok (n, m') ->
  n = 4 /\ forall a, ~ (buffer <= a < buffer + 4) -> m' !! a = m !! a.
Proof.
  unfold SerializeCRC32. intros H.
  apply bind_Ok in H as ([] & m1 & H & Hr). injection Hr as <- <-.
  split; [done|]. intros a Ha.
  destruct (buffer =? nullptr); cbn [negb] in H.
  - by injection H as <-.
  - apply bind_Ok in H as (bs & m2 & Hb & H).
    rewrite load_bytes_peek in Hb. destruct (peek data _ m); [|done].
    injection Hb as <- <-.
    apply bind_Ok in H as (k & m3 & H & Hr). injection Hr as <-.
    unfold SerializeUInt32 in H.
    by apply (SerializeInt32_outside _ _ _ _ _ H).
Qed.

(** X21: whenever [SerializeHeaderV1] returns from a run on a real buffer,
    the header size it stores in the context is
    [44 + |name| + |description|], whatever fields the descriptor has, and
    the header checksum it stores in the context is [0]: the four bytes it
    reads back end where the checksum begins, and they hold the item count
    of the empty list frame of alias columns. *)
Theorem SerializeHeaderV1_context
    GetBitsOnStorage R__crc32 fuel buffer desc m ctx m' :
  0 < buffer ->
  Z.of_nat (length (GetName desc)) < 2 ^ 30 ->
  Z.of_nat (length (GetDescription desc)) < 2 ^ 30 ->
  SerializeHeaderV1 GetBitsOnStorage R__crc32 fuel buffer desc m
    = Ok (ctx, m') ->
  fHeaderSize ctx
    = 44 + Z.of_nat (length (GetName desc))
         + Z.of_nat (length (GetDescription desc)) /\
  fHeaderCrc32 ctx = 0.
Proof.
  intros Hb Hn Hd H. unfold SerializeHeaderV1 in H.
  rewrite where_real in H by done.
  apply bind_Ok in H as (n1 & m1 & H1 & H).
  apply SerializeEnvelopePreamble_size in H1 as ->.
  rewrite where_real in H by done.
  apply bind_Ok in H as (n2 & m2 & H2 & H).
  apply SerializeInt64_size in H2 as ->.
  rewrite where_real in H by done.
  apply bind_Ok in H as (n3 & m3 & H3 & H).
  apply SerializeString_size in H3 as ->.
  rewrite (to_uint_id 32 (4 + Z.of_nat (length (GetName desc)))) in H
    by (unfold in_uint; lia).
  rewrite where_real in H by done.
  apply bind_Ok in H as (n4 & m4 & H4 & H).
  apply SerializeString_size in H4 as ->.
  rewrite (to_uint_id 32 (4 + Z.of_nat (length (GetDescription desc)))) in H
    by (unfold in_uint; lia).
  set (ln := Z.of_nat (length (GetName desc))) in *.
  set (ld := Z.of_nat (length (GetDescription desc))) in *.
  rewrite where_real in H by done.
  apply bind_Ok in H as (n5 & m5 & H5 & H).
  apply SerializeListFramePreamble_inv in H5 as [-> _]; [|lia].
  apply bind_Ok in H as ([sz c1] & m6 & Hf & H).
  apply SerializeFieldsV1_while_context in Hf as (order & _ & ->).
  apply bind_Ok in H as (n6 & m7 & H6 & H).
  apply SerializeFramePostscript_inv in H6 as (-> & _ & _).
  rewrite where_real in H by done.
  apply bind_Ok in H as (n7 & m8 & H7 & H).
  apply SerializeListFramePreamble_inv in H7 as [-> _]; [|lia].
  apply bind_Ok in H as ([sz2 c2] & m9 & Hc & H).
  apply SerializeColumnsV1_while_no_map in Hc
    as (_ & _ & _ & -> & -> & _); [|apply map_fields_columns].
  apply bind_Ok in H as (n8 & m10 & H8 & H).
  apply SerializeFramePostscript_inv in H8 as (-> & _ & _).
  rewrite where_real in H by done.
  apply bind_Ok in H as (n9 & m11 & H9 & H).
  apply SerializeListFramePreamble_inv in H9 as [-> ->]; [|lia].
  apply bind_Ok in H as (n10 & m12 & H10 & H).
  apply SerializeFramePostscript_inv in H10 as (-> & _ & Hout1).
  rewrite where_real in H by done.
  set (pos := buffer + 4 + 8 + (4 + ln) + (4 + ld) + 8 + 0 + 8 + 0 + 0 + 8 + 0)
    in *.
  assert (Hsize : to_uint 32 (pos - buffer) = 44 + ln + ld).
  { rewrite to_uint_id; unfold in_uint; lia. }
  rewrite Hsize in H.
  apply bind_Ok in H as (n11 & m13 & H11 & H).
  unfold SerializeEnvelopePostscript in H11.
  apply SerializeCRC32_inv in H11 as (-> & Hout2).
  apply bind_Ok in H as (c3 & m14 & H & Hr). injection Hr as <- _.
  replace (buffer =? nullptr) with false in H by (unfold nullptr; lia).
  cbn [negb] in H.
  apply bind_Ok in H as (crc & m15 & Hx & Hr). injection Hr as <- _.
  split; [done|]. cbn [fHeaderCrc32 SetHeaderCRC32].
  unfold ExtractEnvelopeCRC32 in Hx.
  apply if_throw_Ok in Hx as [_ Hx].
  assert (Hp : peek (buffer + (44 + ln + ld) - 4) 4 m13 = Some (le_bytes 4 0)).
  { rewrite (peek_ext _ _ m13 m12) by (intros a Ha; apply Hout2; lia).
    rewrite (peek_ext _ _ m12 _) by (intros a Ha; apply Hout1; lia).
    replace (buffer + (44 + ln + ld) - 4)
      with (buffer + 4 + 8 + (4 + ln) + (4 + ld) + 8 + 0 + 8 + 0 + 0 + 4)
      by lia.
    apply peek_poke_le. }
  apply bind_Ok in Hx as ([k v] & m16 & Hx & Hr).
  rewrite (DeserializeUInt32_bytes 0) in Hx by done.
  injection Hx as <- <- <-. by injection Hr as <- _.
Qed.

(** ** The field records on a real buffer *)

Lemma SerializeInt16_outside v p m n m' :
  SerializeInt16 v p m = Ok (n, m') ->
  n = 2 /\ forall a, ~ (p <= a < p + 2) -> m' !! a = m !! a.
Proof.
  intros H. split; [by apply SerializeInt16_size in H|].
  unfold SerializeInt16 in H. intros a Ha.
  destruct (p =? nullptr); cbn [negb] in H.
  - by injection H as <- <-.
  - apply bind_Ok in H as ([] & m4 & H & Hr). injection Hr as <- <-.
    apply bind_Ok in H as ([] & m1 & H1 & H). apply store_inv in H1 as ->.
    apply store_inv in H as ->.
    by rewrite !lookup_insert_ne by lia.
Qed.

Lemma SerializeInt32_step v p m n m' :
  SerializeInt32 v p m = Ok (n, m') ->
  n = 4 /\ forall a, ~ (p <= a < p + 4) -> m' !! a = m !! a.
Proof.
  intros H. split; [by apply SerializeInt32_size in H|].
  by apply (SerializeInt32_outside _ _ _ _ _ H).
Qed.

Lemma SerializeInt64_outside v p m n m' :
  SerializeInt64 v p m = Ok (n, m') ->
  n = 8 /\ forall a, ~ (p <= a < p + 8) -> m' !! a = m !! a.
Proof.
  intros H. split; [by apply SerializeInt64_size in H|].
  unfold SerializeInt64 in H. intros a Ha.
  destruct (p =? nullptr); cbn [negb] in H.
  - by injection H as <- <-.
  - apply bind_Ok in H as ([] & m9 & H & Hr). injection Hr as <- <-.
    apply bind_Ok in H as ([] & m1 & H1 & H). apply store_inv in H1 as ->.
    apply bind_Ok in H as ([] & m2 & H2 & H). apply store_inv in H2 as ->.
    apply bind_Ok in H as ([] & m3 & H3 & H). apply store_inv in H3 as ->.
    apply bind_Ok in H as ([] & m4 & H4 & H). apply store_inv in H4 as ->.
    apply bind_Ok in H as ([] & m5 & H5 & H). apply store_inv in H5 as ->.
    apply bind_Ok in H as ([] & m6 & H6 & H). apply store_inv in H6 as ->.
    apply bind_Ok in H as ([] & m7 & H7 & H). apply store_inv in H7 as ->.
    apply store_inv in H as ->.
    by rewrite !lookup_insert_ne by lia.
Qed.

Lemma store_bytes_outside p bs m m' :
  store_bytes p bs m = Ok (tt, m') ->
  forall a, ~ (p <= a < p + Z.of_nat (length bs)) -> m' !! a = m !! a.
Proof.
  revert p m. induction bs as [|b bs IH]; intros p m H a Ha.
  - by injection H as <-.
  - cbn [store_bytes] in H. cbn [length] in Ha.
    apply bind_Ok in H as ([] & m1 & H1 & H). apply store_inv in H1 as ->.
    rewrite (IH _ _ H) by lia. by rewrite lookup_insert_ne by lia.
Qed.

Lemma SerializeString_outside s p m n m' :
  SerializeString s p m = Ok (n, m') ->
  n = to_uint 32 (4 + Z.of_nat (length s)) /\
  forall a, ~ (p <= a < p + 4 + Z.of_nat (length s)) -> m' !! a = m !! a.
Proof.
  intros H. split; [by apply SerializeString_size in H|].
  unfold SerializeString in H. intros a Ha.
  apply bind_Ok in H as ([] & m1 & H & Hr).
  apply Ok_pair_inj in Hr as [_ <-].
  destruct (p =? nullptr); cbn [negb] in H.
  - by apply Ok_pair_inj in H as [_ <-].
  - apply bind_Ok in H as (k & m2 & Hk & H).
    unfold SerializeUInt32 in Hk. apply SerializeInt32_step in Hk as [-> Hk].
    rewrite (store_bytes_outside _ _ _ _ H) by lia. apply Hk. lia.
Qed.

Lemma SerializeFieldStructure_outside structure p m n m' :
  SerializeFieldStructure structure p m = Ok (n, m') ->
  n = 2 /\ forall a, ~ (p <= a < p + 2) -> m' !! a = m !! a.
Proof.
  destruct structure; cbn [SerializeFieldStructure]; try done;
    unfold SerializeUInt16; apply SerializeInt16_outside.
Qed.

Lemma to_int32_high x : 2 ^ 31 <= x < 2 ^ 32 -> to_int 32 x = x - 2 ^ 32.
Proof.
  intros H. unfold to_int. change (32 - 1) with 31.
  replace (x + 2 ^ 31) with (x - 2 ^ 31 + 1 * 2 ^ 32) by lia.
  rewrite Z_mod_plus_full, Z.mod_small by lia. lia.
Qed.

Lemma SerializeFramePostscript_record_inv frame size m r m' :
  0 < frame -> peek frame 4 m = Some (le_bytes 4 1) ->
  SerializeFramePostscript frame size m = Ok (r, m') ->
  4 <= size /\ m' = poke frame (le_bytes 4 size) m.
Proof.
  intros Hf Hp H. unfold SerializeFramePostscript in H.
  apply if_throw_Ok in H as [_ H]. apply if_throw_Ok in H as [H4 H].
  split; [lia|].
  apply bind_Ok in H as ([] & m1 & H & Hr). injection Hr as _ <-.
  replace (frame =? nullptr) with false in H by (unfold nullptr; lia).
  cbn [negb] in H.
  apply bind_Ok in H as ([k marker] & m2 & Hm & H).
  rewrite (DeserializeInt32_bytes 1) in Hm by done.
  apply Ok_pair_inj in Hm as [Hm <-].
  assert (marker = 1) as -> by (by injection Hm).
  change (1 <? 0) with false in H. cbn [andb] in H.
  apply bind_Ok in H as (k' & m3 & H & Hr). injection Hr as <-.
  apply SerializeInt32_inv in H as [_ ->]; [|unfold nullptr; lia].
  rewrite le_bytes_to_int32. by rewrite Z.mul_1_l.
Qed.

Lemma SerializeFieldsV1_body_real f physParentId buffer size m size' m' :
  0 < buffer -> 0 <= size < 2 ^ 31 -> field_record_size f < 2 ^ 31 ->
  SerializeFieldsV1_body f physParentId buffer size m = Ok (size', m') ->
  size' = size + field_record_size f /\ size' < 2 ^ 31 /\
  peek buffer 4 m' = Some (le_bytes 4 size') /\
  forall a, ~ (buffer <= a < buffer + field_record_size f) ->
            m' !! a = m !! a.
Proof.
  intros Hb Hsz Hf H. unfold SerializeFieldsV1_body in H.
  unfold field_record_size in *.
  set (l1 := Z.of_nat (length (GetFieldName f))) in *.
  set (l2 := Z.of_nat (length (GetTypeName f))) in *.
  set (l3 := Z.of_nat (length (GetFieldDescription f))) in *.
  assert (0 <= l1 /\ 0 <= l2 /\ 0 <= l3) as (Hl1 & Hl2 & Hl3) by lia.
  assert (Hrep : 2 <= (if GetNRepetitions f >? 0 then 2 + 8 else 2) <= 10)
    by (destruct (GetNRepetitions f >? 0); lia).
  rewrite where_real in H by done.
  apply bind_Ok in H as (n1 & m1 & H1 & H).
  unfold SerializeRecordFramePreamble in H1.
  apply SerializeInt32_inv in H1 as [-> ->]; [|unfold nullptr; lia].
  rewrite where_real in H by done.
  apply bind_Ok in H as (n2 & m2 & H2 & H).
  unfold SerializeUInt32 in H2. apply SerializeInt32_step in H2 as [-> O2].
  rewrite where_real in H by done.
  apply bind_Ok in H as (n3 & m3 & H3 & H).
  unfold SerializeUInt32 in H3. apply SerializeInt32_step in H3 as [-> O3].
  rewrite where_real in H by done.
  apply bind_Ok in H as (n4 & m4 & H4 & H).
  unfold SerializeUInt32 in H4. apply SerializeInt32_step in H4 as [-> O4].
  rewrite where_real in H by done.
  apply bind_Ok in H as (n5 & m5 & H5 & H).
  apply SerializeFieldStructure_outside in H5 as [-> O5].
  apply bind_Ok in H as (pos & m6 & H6 & H).
  set (p5 := buffer + 4 + 4 + 4 + 4 + 2) in *.
  assert (Hpos : pos = p5 + (if GetNRepetitions f >? 0 then 2 + 8 else 2) /\
                 forall a, ~ (p5 <= a < pos) -> m6 !! a = m5 !! a).
  { destruct (GetNRepetitions f >? 0).
    - rewrite where_real in H6 by done.
      apply bind_Ok in H6 as (k1 & m61 & K1 & H6).
      unfold SerializeUInt16 in K1.
      apply SerializeInt16_outside in K1 as [-> Q1].
      rewrite where_real in H6 by done.
      apply bind_Ok in H6 as (k2 & m62 & K2 & H6).
      unfold SerializeUInt64 in K2.
      apply SerializeInt64_outside in K2 as [-> Q2].
      apply Ok_pair_inj in H6 as [<- <-]. split; [lia|].
      intros a Ha. rewrite Q2 by lia. apply Q1. lia.
    - rewrite where_real in H6 by done.
      apply bind_Ok in H6 as (k1 & m61 & K1 & H6).
      unfold SerializeUInt16 in K1.
      apply SerializeInt16_outside in K1 as [-> Q1].
      apply Ok_pair_inj in H6 as [<- <-]. split; [lia|].
      intros a Ha. apply Q1. lia. }
  destruct Hpos as [Epos O6].
  set (rep := if GetNRepetitions f >? 0 then 2 + 8 else 2) in *.
  subst pos.
  rewrite where_real in H by done.
  apply bind_Ok in H as (n7 & m7 & H7 & H).
  apply SerializeString_outside in H7 as [-> O7]. fold l1 in O7.
  rewrite (to_uint_id 32 (4 + Z.of_nat (length (GetFieldName f)))) in H
    by (unfold in_uint; lia).
  fold l1 in H.
  rewrite where_real in H by done.
  apply bind_Ok in H as (n8 & m8 & H8 & H).
  apply SerializeString_outside in H8 as [-> O8]. fold l2 in O8.
  rewrite (to_uint_id 32 (4 + Z.of_nat (length (GetTypeName f)))) in H
    by (unfold in_uint; lia).
  fold l2 in H.
  rewrite where_real in H by done.
  apply bind_Ok in H as (n9 & m9 & H9 & H).
  apply SerializeString_outside in H9 as [-> O9].
  change (to_uint 32 (4 + Z.of_nat (length (@nil Z)))) with 4 in H.
  change (Z.of_nat (length (@nil Z))) with 0 in O9.
  rewrite where_real in H by done.
  apply bind_Ok in H as (n10 & m10 & H10 & H).
  apply SerializeString_outside in H10 as [-> O10]. fold l3 in O10.
  rewrite (to_uint_id 32 (4 + Z.of_nat (length (GetFieldDescription f)))) in H
    by (unfold in_uint; lia).
  fold l3 in H.
  apply bind_Ok in H as (n11 & m11 & H11 & H).
  apply Ok_pair_inj in H as [<- <-].
  set (total := size + (p5 + rep + (4 + l1) + (4 + l2) + 4 + (4 + l3) - buffer))
    in *.
  assert (Etot : total = size + (4 + 4 + 4 + 4 + 2 + rep + (4 + l1) + (4 + l2)
                                 + 4 + (4 + l3))) by (unfold total, p5; lia).
  assert (Hout : forall a, ~ (buffer + 4 <= a < buffer + (total - size)) ->
                           m10 !! a = poke buffer (le_bytes 4 1) m !! a).
  { intros a Ha. rewrite O10 by lia. rewrite O9 by lia. rewrite O8 by lia.
    rewrite O7 by lia. rewrite O6 by lia. rewrite O5 by lia.
    rewrite O4 by lia. rewrite O3 by lia. apply O2. lia. }
  assert (Hhead : peek buffer 4 m10 = Some (le_bytes 4 1)).
  { rewrite (peek_ext _ _ m10 (poke buffer (le_bytes 4 1) m))
      by (intros a Ha; apply Hout; lia).
    apply peek_poke_le. }
  apply (SerializeFramePostscript_record_inv _ _ _ _ _ Hb Hhead) in H11
    as [Hge ->].
  assert (Hrange : 0 <= total < 2 ^ 32) by lia.
  rewrite (to_uint_id 32 total) in * by done.
  assert (Hlt : total < 2 ^ 31).
  { destruct (decide (total < 2 ^ 31)) as [|Hhigh]; [done|].
    rewrite to_int32_high in Hge by lia. lia. }
  rewrite (to_int_id 32 total) by (unfold in_int; lia).
  split; [lia|]. split; [done|]. split; [apply peek_poke_le|].
  intros a Ha. rewrite lookup_poke, decide_False by (rewrite length_le_bytes; lia).
  rewrite Hout by lia.
  by rewrite lookup_poke, decide_False by (rewrite length_le_bytes; lia).
Qed.

Lemma SerializeFieldsV1_for_real fs physParentId buffer size q m size' q' m' :
  0 < buffer -> 0 <= size < 2 ^ 31 ->
  Forall (fun f => field_record_size f < 2 ^ 31) fs ->
  SerializeFieldsV1_for fs physParentId buffer size q m
    = Ok ((size', q'), m') ->
  size' = size + sum_list (map field_record_size fs) /\
  0 <= size' < 2 ^ 31 /\
  (fs = [] -> m' = m) /\
  (fs <> [] -> peek buffer 4 m' = Some (le_bytes 4 size')) /\
  forall a,
    (forall f, f ∈ fs -> ~ (buffer <= a < buffer + field_record_size f)) ->
    m' !! a = m !! a.
Proof.
  intros Hb. revert size q m.
  induction fs as [|f fs IH]; intros size q m Hsz Hall H.
  - apply Ok_pair_inj in H as [[= <- _] <-]. cbn. rewrite Z.add_0_r.
    split; [done|]. split; [lia|]. do 2 (split; [done|]). done.
  - apply Forall_cons in Hall as [Hf Hall]. cbn [SerializeFieldsV1_for] in H.
    apply bind_Ok in H as (size1 & m1 & Hbody & H).
    apply (SerializeFieldsV1_body_real _ _ _ _ _ _ _ Hb Hsz Hf) in Hbody
      as (-> & Hlt & Hhead & Hout).
    pose proof (field_record_size_lower f) as Hlow.
    apply IH in H as (-> & Hsz' & Hnil & Hcons & Hout'); [|lia|done].
    cbn [map]. change (sum_list (?x :: ?l)) with (x + sum_list l).
    split; [lia|]. split; [lia|]. split; [done|]. split.
    + intros _. destruct fs as [|g fs].
      * rewrite (Hnil eq_refl). cbn. rewrite Z.add_0_r. exact Hhead.
      * by apply Hcons.
    + intros a Ha. rewrite Hout'.
      * apply Hout, Ha. by left.
      * intros g Hg. apply Ha. by right.
Qed.

Lemma SerializeFieldsV1_while_real desc fuel c buffer q size m size' c' m' :
  0 < buffer -> 0 <= size < 2 ^ 31 ->
  (forall id, Forall (fun f => field_record_size f < 2 ^ 31)
                (GetFieldIterable desc id)) ->
  SerializeFieldsV1_while fuel desc c buffer q size m
    = Ok ((size', c'), m') ->
  exists order,
    queue_order fuel desc q = Some order /\
    size' = size + sum_list (map field_record_size (emitted_fields desc order)) /\
    0 <= size' < 2 ^ 31 /\
    (emitted_fields desc order = [] -> m' = m) /\
    (emitted_fields desc order <> [] ->
     peek buffer 4 m' = Some (le_bytes 4 size')) /\
    forall a,
      (forall f, f ∈ emitted_fields desc order ->
                 ~ (buffer <= a < buffer + field_record_size f)) ->
      m' !! a = m !! a.
Proof.
  intros Hb Hsz Hall. revert c q size m Hsz.
  induction fuel as [|fuel IH]; intros c q size m Hsz H.
  - destruct q as [|p q]; [|done]. apply Ok_pair_inj in H as [[= <- _] <-].
    exists []. cbn. rewrite Z.add_0_r. split; [done|]. split; [lia|]. do 2 (split; [done|]). done.
  - destruct q as [|p q].
    { apply Ok_pair_inj in H as [[= <- _] <-].
      exists []. cbn. rewrite Z.add_0_r. split; [done|]. split; [lia|]. do 2 (split; [done|]). done. }
    cbn [SerializeFieldsV1_while] in H.
    destruct (MapFieldId p c) as [phys c1] eqn:Emap.
    apply bind_Ok in H as ([size1 q1] & m1 & Hfor & H).
    pose proof (SerializeFieldsV1_for_queue _ _ _ _ _ _ _ _ _ Hfor) as ->.
    apply (SerializeFieldsV1_for_real _ _ _ _ _ _ _ _ _ Hb Hsz (Hall p)) in Hfor
      as (-> & Hsz1 & Hnil & Hcons & Hout).
    apply IH in H as (order & Hq & -> & Hsz' & Hnil' & Hcons' & Hout'); [|done].
    exists (p :: order). cbn [queue_order]. unfold child_ids. rewrite Hq.
    split; [done|].
    unfold emitted_fields in *. cbn [flat_map].
    rewrite map_app, sum_list_app.
    split; [lia|]. split; [lia|]. split; [|split].
    + intros E. apply app_eq_nil in E as [E1 E2].
      rewrite (Hnil' E2). by apply Hnil.
    + intros Hne.
      destruct (flat_map (GetFieldIterable desc) order) as [|g gs] eqn:E.
      * rewrite (Hnil' eq_refl). cbn [map]. 
        change (sum_list []) with 0. rewrite !Z.add_0_r.
        apply Hcons. intros E'. rewrite E', app_nil_r in Hne. done.
      * replace (size + (sum_list (map field_record_size (GetFieldIterable desc p))
                 + sum_list (map field_record_size (g :: gs))))
          with (size + sum_list (map field_record_size (GetFieldIterable desc p))
                + sum_list (map field_record_size (g :: gs))) by lia.
        by apply Hcons'.
    + intros a Ha. rewrite Hout'.
      * apply Hout. intros f Hf. apply Ha, elem_of_app. by left.
      * intros f Hf. apply Ha, elem_of_app. by right.
Qed.

(** X22: on a real buffer every field record is written at [buffer]
    itself, each over the one before.  Whenever [SerializeFieldsV1]
    returns (records below 2 GiB), it has visited the fields in queue
    order and returns the sum of the sizes of all records; a byte that
    lies in no record laid at [buffer] is unchanged; and if any record
    was emitted, the first four bytes at [buffer] hold that sum, the
    running total, in place of the size of the record left there. *)
Theorem SerializeFieldsV1_records_overlap
    desc fuel c buffer m size c' m' :
  0 < buffer ->
  (forall id, Forall (fun f => field_record_size f < 2 ^ 31)
                (GetFieldIterable desc id)) ->
  SerializeFieldsV1 fuel desc c buffer m = Ok ((size, c'), m') ->
  exists order,
    queue_order fuel desc [GetFieldZeroId desc] = Some order /\
    size = sum_list (map field_record_size (emitted_fields desc order)) /\
    (emitted_fields desc order <> [] ->
     peek buffer 4 m' = Some (le_bytes 4 size)) /\
    forall a,
      (forall f, f ∈ emitted_fields desc order ->
                 ~ (buffer <= a < buffer + field_record_size f)) ->
      m' !! a = m !! a.
Proof.
  intros Hb Hall H. unfold SerializeFieldsV1 in H.
  apply (SerializeFieldsV1_while_real desc) in H
    as (order & Hq & -> & _ & _ & Hhead & Hout); [|done|lia|done].
  exists order. rewrite Z.add_0_l in *. done.
Qed.

(** ** Closed instances *)

Lemma serialize_int_little_endian_witness :
  exists m',
    SerializeInt32 300 100 (calloc 100 8) = Ok (4, m') /\
    little_endian_at 4 300 100 (calloc 100 8) m'.
Proof.
  destruct (serialize_int_little_endian 300 100 (calloc 100 8))
    as (_ & H & _).
  - unfold nullptr. lia.
  - destruct H as [H _]; [|exact H].
    apply (allocated_b_correct _ _ 4). vm_compute. reflexivity.
Defined.

Lemma string_round_trip_witness :
  SerializeString [104; 105] nullptr (calloc 100 6) = Ok (6, calloc 100 6) /\
  exists m',
    SerializeString [104; 105] 100 (calloc 100 6) = Ok (6, m') /\
    peek 100 6 m' = Some (le_bytes 4 2 ++ [104; 105]) /\
    DeserializeString 100 6 m' = Ok ((6, [104; 105]), m').
Proof.
  apply (string_round_trip [104; 105] 100 6 (calloc 100 6)).
  - repeat constructor; unfold is_byte; lia.
  - cbn. lia.
  - lia.
  - apply (allocated_b_correct _ _ 6). vm_compute. reflexivity.
  - cbn. lia.
Defined.


Lemma column_type_round_trip_witness :
  exists m',
    SerializeColumnType kInt32 100 (calloc 100 2) = Ok (2, m') /\
    peek 100 2 m' = Some [0x0B; 0] /\
    DeserializeColumnType 100 m' = Ok ((2, kInt32), m').
Proof.
  destruct (column_type_round_trip 100 (calloc 100 2)) as (H & _); [lia|].
  destruct (H kInt32 0x0B) as [_ H']; [reflexivity| |exact H'].
  apply (allocated_b_correct _ _ 2). vm_compute. reflexivity.
Defined.

Lemma field_structure_round_trip_witness :
  exists m',
    SerializeFieldStructure kRecord 100 (calloc 100 2) = Ok (2, m') /\
    peek 100 2 m' = Some [0x02; 0] /\
    DeserializeFieldStructure 100 m' = Ok ((2, kRecord), m').
Proof.
  destruct (field_structure_round_trip 100 (calloc 100 2)) as (H & _); [lia|].
  destruct (H kRecord 0x02) as [_ H']; [reflexivity| |exact H'].
  apply (allocated_b_correct _ _ 2). vm_compute. reflexivity.
Defined.

Lemma crc32_round_trip_witness :
  exists m',
    SerializeCRC32 crc32_ieee 100 4 104 (poke 100 [1; 2; 3; 4] (calloc 100 8))
      = Ok (4, m') /\
    VerifyCRC32 crc32_ieee 100 4 m' = Ok (tt, m').
Proof.
  destruct (crc32_round_trip crc32_ieee 100 4 [1; 2; 3; 4]
              (poke 100 [1; 2; 3; 4] (calloc 100 8)))
    as (_ & (m' & H1 & _ & H2) & _).
  - vm_compute. reflexivity.
  - lia.
  - apply (allocated_b_correct _ _ 4). vm_compute. reflexivity.
  - unfold in_uint. split; [apply Z.leb_le|apply Z.ltb_lt];
      vm_compute; reflexivity.
  - exists m'. split; [exact H1|exact H2].
Defined.

Lemma envelope_write_read_witness :
  exists m3,
    SerializeEnvelopePostscript crc32_ieee 100 8 108
      (poke 100 [1; 0; 1; 0; 0; 0; 0; 0] (calloc 100 12)) = Ok (4, m3) /\
    DeserializeEnvelope crc32_ieee 100 12 m3 = Ok (4, m3) /\
    ExtractEnvelopeCRC32 100 12 m3
      = Ok (crc32_ieee (crc32_ieee 0 []) [1; 0; 1; 0; 0; 0; 0; 0], m3).
Proof.
  destruct (envelope_write_read crc32_ieee 100 [0; 0; 0; 0] (calloc 100 12))
    as (_ & H & _).
  - lia.
  - cbn. lia.
  - apply (allocated_b_correct _ _ 12). vm_compute. reflexivity.
  - unfold in_uint. split; [apply Z.leb_le|apply Z.ltb_lt];
      vm_compute; reflexivity.
  - apply (H (poke 100 [1; 0; 1; 0; 0; 0; 0; 0] (calloc 100 12))).
    + vm_compute. reflexivity.
    + apply (allocated_b_correct _ _ 4). vm_compute. reflexivity.
Defined.

Lemma frame_round_trip_witness :
  exists m1 m3,
    SerializeRecordFramePreamble 100 (calloc 100 24) = Ok (4, m1) /\
    SerializeFramePostscript 100 24 m1 = Ok (0, m3) /\
    DeserializeFrame 100 24 m3 = Ok ((4, 24, 1), m3).
Proof.
  destruct (frame_round_trip 100 24 24 (calloc 100 24)) as (H & _);
    [lia|lia|lia|].
  destruct H as (m1 & H1 & H2).
  - lia.
  - apply (allocated_b_correct _ _ 4). vm_compute. reflexivity.
  - destruct (H2 m1 eq_refl) as (m3 & H3 & H4).
    exists m1, m3. split; [exact H1|]. split; [exact H3|exact H4].
Defined.

Lemma DeserializeFrame_bounds_witness :
  DeserializeFrame 100 3 (poke 100 (le_bytes 4 24) (calloc 100 24))
    = Throw frame_too_short /\
  (poke 100 (le_bytes 4 24) (calloc 100 24)
     = poke 100 (le_bytes 4 24) (calloc 100 24) /\
   4 <= 24 <= 24 /\ (4 = 4 /\ 1 = 1 \/ 4 = 8 /\ 0 <= 1 < 2 ^ 29)).
Proof.
  split.
  - destruct (DeserializeFrame_bounds 100 3
                (poke 100 (le_bytes 4 24) (calloc 100 24))) as (H & _);
      [lia|]. apply H. lia.
  - destruct (DeserializeFrame_bounds 100 24
                (poke 100 (le_bytes 4 24) (calloc 100 24))) as (_ & H);
      [lia|]. apply H. vm_compute. reflexivity.
Defined.

Lemma SerializeFramePostscript_edges_witness :
  SerializeFramePostscript 100 (-1) (calloc 100 8)
    = Throw (frame_too_large (-1)) /\
  SerializeFramePostscript 100 3 (calloc 100 8)
    = Throw (frame_too_short_write 3) /\
  SerializeFramePostscript nullptr 8 (calloc 100 8) = Ok (0, calloc 100 8).
Proof.
  split; [|split].
  - destruct (SerializeFramePostscript_edges 100 (-1) (calloc 100 8))
      as (H & _). apply H. lia.
  - destruct (SerializeFramePostscript_edges 100 3 (calloc 100 8))
      as (_ & H & _). apply H. lia.
  - destruct (SerializeFramePostscript_edges 100 8 (calloc 100 8))
      as (_ & _ & _ & H & _). apply H. lia.
Defined.

Lemma locator_url_round_trip_witness :
  exists m',
    SerializeLocator
      {| fPosition := 0; fBytesOnStorage := 0; fUrl := [104; 105] |}
      100 (calloc 100 6) = Ok (6, m') /\
    peek 100 6 m' = Some (le_bytes 4 (- (2 ^ 25 + 2)) ++ [104; 105]) /\
    DeserializeLocator 100 6 m'
      = Ok ((6, {| fPosition := 0; fBytesOnStorage := 0;
                   fUrl := [104; 105] |}), m').
Proof.
  destruct (locator_url_round_trip
              {| fPosition := 0; fBytesOnStorage := 0; fUrl := [104; 105] |}
              100 6 (calloc 100 6)) as (_ & H).
  - discriminate.
  - destruct H as [_ H]; [| | | | |exact H].
    + cbn. lia.
    + repeat constructor; unfold is_byte; lia.
    + lia.
    + apply (allocated_b_correct _ _ 6). vm_compute. reflexivity.
    + cbn. lia.
Defined.

Lemma DeserializeLocator_bounds_witness :
  DeserializeLocator 100 3 (calloc 100 12) = Throw too_short_locator /\
  exists locator,
    DeserializeLocator 100 12 (calloc 100 12)
      = Ok ((12, locator), calloc 100 12) /\
    (12 = 12 /\ fUrl locator = [] /\ 0 <= fBytesOnStorage locator < 2 ^ 31 \/
     12 = 4 + Z.of_nat (length (fUrl locator)) /\
     Z.of_nat (length (fUrl locator)) < 2 ^ 24 /\
     fPosition locator = 0 /\ fBytesOnStorage locator = 0).
Proof.
  split.
  - destruct (DeserializeLocator_bounds 100 3 (calloc 100 12)) as (H & _);
      [lia|]. apply H. lia.
  - destruct (DeserializeLocator_bounds 100 12 (calloc 100 12)) as (_ & H);
      [lia|].
    exists {| fPosition := 0; fBytesOnStorage := 0; fUrl := [] |}.
    assert (E : DeserializeLocator 100 12 (calloc 100 12)
                = Ok ((12, {| fPosition := 0; fBytesOnStorage := 0;
                              fUrl := [] |}), calloc 100 12))
      by (vm_compute; reflexivity).
    split; [exact E|]. exact (proj2 (proj2 (H _ _ _ E))).
Defined.

Lemma envelope_link_round_trip_witness :
  exists m',
    SerializeEnvelopeLink
      {| fUnzippedSize := 1000;
         fLocator := {| fPosition := 7; fBytesOnStorage := 42; fUrl := [] |} |}
      100 (calloc 100 16) = Ok (16, m') /\
    DeserializeEnvelopeLink 100 16 m'
      = Ok ((16, {| fUnzippedSize := 1000;
                    fLocator := {| fPosition := 7; fBytesOnStorage := 42;
                                   fUrl := [] |} |}), m').
Proof.
  destruct (envelope_link_round_trip
              {| fUnzippedSize := 1000;
                 fLocator := {| fPosition := 7; fBytesOnStorage := 42;
                                fUrl := [] |} |}
              100 16 (calloc 100 16)) as (_ & (m' & H1 & _ & H2) & _).
  - cbn. unfold in_uint. lia.
  - unfold in_uint. cbn. lia.
  - lia.
  - apply (allocated_b_correct _ _ 16). vm_compute. reflexivity.
  - cbn. lia.
  - exists m'. split; [exact H1|exact H2].
Defined.

Lemma cluster_group_round_trip_witness :
  exists m',
    SerializeClusterGroup
      {| fNClusters := 3;
         fPageListEnvelopeLink :=
           {| fUnzippedSize := 1000;
              fLocator := {| fPosition := 7; fBytesOnStorage := 42;
                             fUrl := [] |} |} |}
      100 (calloc 100 24) = Ok (24, m') /\
    DeserializeClusterGroup 100 24 m'
      = Ok ((24, {| fNClusters := 3;
                    fPageListEnvelopeLink :=
                      {| fUnzippedSize := 1000;
                         fLocator := {| fPosition := 7; fBytesOnStorage := 42;
                                        fUrl := [] |} |} |}), m').
Proof.
  destruct (cluster_group_round_trip
              {| fNClusters := 3;
                 fPageListEnvelopeLink :=
                   {| fUnzippedSize := 1000;
                      fLocator := {| fPosition := 7; fBytesOnStorage := 42;
                                     fUrl := [] |} |} |}
              100 24 (calloc 100 24)) as (_ & m' & H1 & _ & H2).
  - cbn. unfold in_uint. lia.
  - unfold in_uint. cbn. lia.
  - unfold in_uint. cbn. lia.
  - lia.
  - apply (allocated_b_correct _ _ 24). vm_compute. reflexivity.
  - cbn. lia.
  - exists m'. split; [exact H1|exact H2].
Defined.

Lemma cluster_ids_lookup_witness :
  GetPhysClusterId 20 (map_clusters RContext_new [10; 20]) ∅ = Ok (1, ∅) /\
  GetMemClusterId 1 (map_clusters RContext_new [10; 20]) ∅ = Ok (20, ∅).
Proof.
  destruct (cluster_ids_lookup [10; 20] ∅) as (H & _).
  - apply (bool_decide_unpack _). vm_compute. exact I.
  - exact (H 1%nat 20 eq_refl).
Defined.

Lemma SerializeColumnsV1_first_column_throws_witness :
  SerializeColumnsV1 (fun _ => 32) 3 one_column_desc RContext_new nullptr ∅
  = Throw std_out_of_range.
Proof.
  destruct (SerializeColumnsV1_first_column_throws (fun _ => 32)
              one_column_desc RContext_new) as (_ & H & _); [reflexivity|].
  apply (H 3%nat [0] 1 []
           {| GetColumnId := 0; GetType := kInt32; GetIsSorted := false;
              GetFieldId := 1 |} []).
  - reflexivity.
  - repeat constructor.
  - reflexivity.
  - discriminate.
Defined.

Lemma SerializeHeaderV1_with_column_never_returns_witness :
  match SerializeHeaderV1 (fun _ => 32) crc32_ieee 3 100 one_column_desc
          (calloc 100 200) with
  | Ok _ => False
  | _ => True
  end.
Proof.
  destruct (SerializeHeaderV1 (fun _ => 32) crc32_ieee 3 100 one_column_desc
              (calloc 100 200)) as [r|e|] eqn:E; [|exact I|exact I].
  revert E.
  apply (SerializeHeaderV1_with_column_never_returns (fun _ => 32) crc32_ieee
           one_column_desc 1 1).
  - change (1 ∈ [1]). apply list_elem_of_singleton. reflexivity.
  - discriminate.
Defined.

Lemma DeserializeFeatureFlags_bounds_witness :
  DeserializeFeatureFlags 100 4 (calloc 100 8) = Throw buffer_too_short /\
  DeserializeFeatureFlags 100 8 (calloc 100 8) <> OutOfFuel /\
  (calloc 100 8 = calloc 100 8 /\ (1 <= length [0%Z])%nat /\
   8 = 8 * Z.of_nat (length [0]) /\ 8 <= 8).
Proof.
  split; [|split].
  - destruct (DeserializeFeatureFlags_bounds 100 4 (calloc 100 8))
      as (H & _); [lia|]. apply H. lia.
  - destruct (DeserializeFeatureFlags_bounds 100 8 (calloc 100 8))
      as (_ & H & _); [lia|]. exact H.
  - destruct (DeserializeFeatureFlags_bounds 100 8 (calloc 100 8))
      as (_ & _ & H); [lia|]. apply H. vm_compute. reflexivity.
Defined.

Lemma DeserializeClusterSummary_bounds_witness :
  let cs := {| fFirstEntry := 10; fNEntries := 5; fColumnGroupID := 3 |} in
  let m := poke 100 (cluster_summary_bytes cs) (calloc 100 24) in
  DeserializeClusterSummary 100 24 m = Ok ((24, cs), m) /\
  m = m /\ 20 <= 24 <= 24 /\ in_uint 64 (fFirstEntry cs) /\
  (fColumnGroupID cs = -1 /\ 0 <= fNEntries cs < 2 ^ 63 \/
   24 <= 24 /\ 0 < fNEntries cs <= 2 ^ 63 /\ in_int 32 (fColumnGroupID cs)) /\
  exists hdr head word,
    DeserializeInt32 100 m = Ok ((4, head), m) /\
    (hdr = 4 /\ head = 24 \/ hdr = 8 /\ head = - 24) /\
    DeserializeUInt64 (100 + hdr) m = Ok ((8, fFirstEntry cs), m) /\
    DeserializeInt64 (100 + hdr + 8) m = Ok ((8, word), m) /\
    (0 <= word /\ fNEntries cs = word /\ fColumnGroupID cs = -1 \/
     word < 0 /\ hdr + 20 <= 24 /\ fNEntries cs = - word /\
     exists group,
       DeserializeUInt32 (100 + hdr + 16) m = Ok ((4, group), m) /\
       fColumnGroupID cs = to_int 32 group).
Proof.
  intros cs m.
  assert (E : DeserializeClusterSummary 100 24 m = Ok ((24, cs), m))
    by (vm_compute; reflexivity).
  split; [exact E|].
  apply (DeserializeClusterSummary_bounds 100 24 m 24 cs m); [lia|exact E].
Defined.

Lemma SerializeHeaderV1_context_witness :
  exists ctx m',
    SerializeHeaderV1 (fun _ => 32) crc32_ieee 3 100 one_field_desc
      (calloc 100 200) = Ok (ctx, m') /\
    fHeaderSize ctx = 45 /\ fHeaderCrc32 ctx = 0.
Proof.
  destruct (SerializeHeaderV1 (fun _ => 32) crc32_ieee 3 100 one_field_desc
              (calloc 100 200)) as [[ctx m']|e|] eqn:E.
  - exists ctx, m'. split; [reflexivity|].
    apply (SerializeHeaderV1_context (fun _ => 32) crc32_ieee 3 100
             one_field_desc (calloc 100 200) ctx m'); [lia|cbn; lia|cbn; lia|].
    exact E.
  - vm_compute in E. discriminate E.
  - vm_compute in E. discriminate E.
Defined.

Lemma SerializeFieldsV1_records_overlap_witness :
  exists size c' m',
    SerializeFieldsV1 3 two_field_desc RContext_new 100 (calloc 100 40)
      = Ok ((size, c'), m') /\
    exists order,
      queue_order 3 two_field_desc [GetFieldZeroId two_field_desc]
        = Some order /\
      size = sum_list (map field_record_size
                         (emitted_fields two_field_desc order)) /\
      (emitted_fields two_field_desc order <> [] ->
       peek 100 4 m' = Some (le_bytes 4 size)) /\
      forall a,
        (forall f, f ∈ emitted_fields two_field_desc order ->
                   ~ (100 <= a < 100 + field_record_size f)) ->
        m' !! a = calloc 100 40 !! a.
Proof.
  destruct (SerializeFieldsV1 3 two_field_desc RContext_new 100
              (calloc 100 40)) as [[[size c'] m']|e|] eqn:E.
  - exists size, c', m'. split; [reflexivity|].
    apply (SerializeFieldsV1_records_overlap two_field_desc 3 RContext_new
             100 (calloc 100 40) size c' m'); [lia| |exact E].
    intros id. cbn. destruct (id =? 0); repeat constructor.
  - vm_compute in E. discriminate E.
  - vm_compute in E. discriminate E.
Defined.

(** ** Locators as the writer takes them *)

Lemma SerializeLocator_writes locator p m :
  writable_locator locator -> 0 < p ->
  allocated m p (Z.of_nat (length (locator_bytes locator))) ->
  SerializeLocator locator p m
  = Ok (Z.of_nat (length (locator_bytes locator)),
        poke p (locator_bytes locator) m).
Proof.
  destruct locator as [position bytesOnStorage url].
  unfold writable_locator, locator_bytes, SerializeLocator.
  cbn [fUrl fPosition fBytesOnStorage].
  destruct url as [|b url].
  - intros Hb Hp Ha. rewrite length_app, !length_le_bytes in Ha |- *.
    rewrite (to_int_id 32 bytesOnStorage) by (unfold in_int; lia).
    replace (bytesOnStorage <? 0) with false by lia.
    replace (p =? nullptr) with false by (unfold nullptr; lia). cbn [negb].
    unfold bind. rewrite SerializeUInt32_poke by side Ha.
    change (0 + 4) with 4.
    rewrite SerializeUInt64_poke by side Ha.
    unfold ret. rewrite poke_app, length_le_bytes. reflexivity.
  - set (u := b :: url). intros (Hlen & Hbytes) Hp Ha.
    rewrite length_app, length_le_bytes in Ha |- *.
    set (len := Z.of_nat (length u)) in *.
    assert (0 <= len) by (unfold len; lia).
    replace (len >=? Z.shiftl 1 24) with false
      by (change (Z.shiftl 1 24) with (2 ^ 24); lia).
    rewrite (to_int_id 32 len) by (unfold in_int; lia).
    rewrite lor_url_tag by lia.
    rewrite (to_int_id 32 (- (2 ^ 25 + len))) by (unfold in_int; lia).
    replace (p =? nullptr) with false by (unfold nullptr; lia). cbn [negb].
    unfold bind. rewrite SerializeInt32_poke by side Ha.
    change (0 + 4) with 4.
    rewrite store_bytes_poke by (fold len; alloc_solve Ha).
    rewrite map_to_uint8_bytes by done.
    unfold ret. rewrite to_uint_id by (unfold in_uint; lia).
    rewrite poke_app, length_le_bytes.
    replace (Z.of_nat (4 + length u)) with (4 + len) by (unfold len; lia).
    reflexivity.
Qed.

Lemma length_writable_locator_bytes locator :
  writable_locator locator ->
  4 <= Z.of_nat (length (locator_bytes locator)) < 2 ^ 24 + 4.
Proof.
  destruct locator as [position bytesOnStorage url].
  unfold writable_locator, locator_bytes.
  cbn [fUrl fPosition fBytesOnStorage].
  destruct url as [|b url]; rewrite length_app, !length_le_bytes.
  - intros _. lia.
  - intros (Hlen & _). lia.
Qed.

Lemma SerializeEnvelopeLink_writes link p m :
  writable_locator (fLocator link) -> 0 < p ->
  allocated m p (Z.of_nat (length (envelope_link_bytes link))) ->
  SerializeEnvelopeLink link p m
  = Ok (Z.of_nat (length (envelope_link_bytes link)),
        poke p (envelope_link_bytes link) m).
Proof.
  intros Hs Hp Ha. pose proof (length_writable_locator_bytes _ Hs).
  unfold SerializeEnvelopeLink, envelope_link_bytes in *.
  rewrite length_app, length_le_bytes in *.
  unfold bind. rewrite SerializeUInt32_poke by side Ha.
  replace (p =? nullptr) with false by (unfold nullptr; lia). cbn [negb].
  rewrite SerializeLocator_writes by (done || lia || alloc_solve Ha).
  unfold ret. rewrite to_uint_id by (unfold in_uint; lia).
  rewrite poke_app, length_le_bytes. do 2 f_equal. lia.
Qed.

(** ** The footer on a real buffer *)

Lemma poke_poke_app p a b m :
  poke (p + Z.of_nat (length a)) b (poke p a m) = poke p (a ++ b) m.
Proof. by rewrite poke_app. Qed.

Lemma poke_eq p p' bs bs' (m m' : heap) :
  p = p' -> bs = bs' -> m = m' -> poke p bs m = poke p' bs' m'.
Proof. by intros -> -> ->. Qed.

Lemma poke_frame_close p x y n payload m :
  poke p (le_bytes 4 x)
    (poke (p + 8) payload
       (poke (p + 4) (le_bytes 4 n) (poke p (le_bytes 4 y) m)))
  = poke p (le_bytes 4 x ++ le_bytes 4 n ++ payload) m.
Proof.
  apply map_eq. intros a.
  rewrite !lookup_poke, !length_app, !length_le_bytes.
  repeat case_decide; try lia; try done.
  - rewrite lookup_app_l by (rewrite length_le_bytes; lia). done.
  - rewrite lookup_app_r by (rewrite length_le_bytes; lia).
    rewrite lookup_app_r by (rewrite !length_le_bytes; lia).
    rewrite !length_le_bytes. f_equal. lia.
  - rewrite lookup_app_r by (rewrite length_le_bytes; lia).
    rewrite lookup_app_l by (rewrite !length_le_bytes; lia).
    rewrite !length_le_bytes. f_equal. lia.
Qed.

Lemma poke_empty_frame_close p x y n m :
  poke p (le_bytes 4 x) (poke (p + 4) (le_bytes 4 n) (poke p (le_bytes 4 y) m))
  = poke p (le_bytes 4 x ++ le_bytes 4 n ++ []) m.
Proof. exact (poke_frame_close p x y n [] m). Qed.

Lemma SerializeClusterSummary_all_columns first n p m :
  in_uint 64 first -> 0 <= n < 2 ^ 63 -> 0 < p -> allocated m p 20 ->
  SerializeClusterSummary
    {| fFirstEntry := first; fNEntries := n; fColumnGroupID := -1 |} p m
  = Ok (20, poke p (le_bytes 4 20 ++ le_bytes 8 first ++ le_bytes 8 n) m).
Proof.
  intros Hfirst Hn Hp Ha. unfold in_uint in Hfirst.
  unfold SerializeClusterSummary.
  cbn [fFirstEntry fNEntries fColumnGroupID].
  change (-1 >=? 0) with false. cbv iota.
  unfold SerializeRecordFramePreamble.
  rewrite (to_int_id 64 n) by (unfold in_int; lia).
  sym_exec Ha. unfold ret. sym_exec Ha.
  replace (p + 4 + 8 + 8 - p) with 20 by lia.
  change (to_int 32 20) with 20.
  rewrite SerializeFramePostscript_record; [|done|lia|by peek_solve].
  cbv beta iota. change (to_uint 32 20) with 20. do 2 f_equal.
  apply map_eq. intros a.
  rewrite !lookup_poke, !length_app, !length_le_bytes.
  repeat case_decide; try lia; try done.
  - rewrite lookup_app_l by (rewrite length_le_bytes; lia). done.
  - rewrite lookup_app_r by (rewrite length_le_bytes; lia).
    rewrite lookup_app_r by (rewrite !length_le_bytes; lia).
    rewrite !length_le_bytes. f_equal. lia.
  - rewrite lookup_app_r by (rewrite length_le_bytes; lia).
    rewrite lookup_app_l by (rewrite !length_le_bytes; lia).
    rewrite !length_le_bytes. f_equal. lia.
Qed.

Lemma SerializeClusterGroup_bytes group p m :
  writable_locator (fLocator (fPageListEnvelopeLink group)) -> 0 < p ->
  allocated m p (Z.of_nat (length (cluster_group_bytes group))) ->
  SerializeClusterGroup group p m
  = Ok (Z.of_nat (length (cluster_group_bytes group)),
        poke p (cluster_group_bytes group) m).
Proof.
  destruct group as [nClusters link]. cbn [fNClusters fPageListEnvelopeLink].
  unfold cluster_group_bytes. cbn [fNClusters fPageListEnvelopeLink].
  set (lb := envelope_link_bytes link).
  intros Hs Hp Ha.
  pose proof (length_writable_locator_bytes _ Hs) as Hll.
  assert (Hlb : Z.of_nat (length lb)
                = 4 + Z.of_nat (length (locator_bytes (fLocator link)))).
  { unfold lb, envelope_link_bytes. rewrite length_app, length_le_bytes. lia. }
  rewrite !length_app, !length_le_bytes in *.
  replace (Z.of_nat (4 + (4 + length lb))) with (8 + Z.of_nat (length lb))
    in * by lia.
  unfold SerializeClusterGroup, SerializeRecordFramePreamble.
  cbn [fNClusters fPageListEnvelopeLink].
  sym_exec Ha.
  rewrite SerializeEnvelopeLink_writes
    by (done || lia || (fold lb; alloc_solve Ha)).
  fold lb. cbv beta iota.
  replace (p + 4 + 4 + Z.of_nat (length lb) - p)
    with (8 + Z.of_nat (length lb)) by lia.
  rewrite to_int_id by (unfold in_int; lia).
  rewrite SerializeFramePostscript_record;
    [|done|lia|
     rewrite !peek_poke_disjoint
       by (rewrite ?length_le_bytes; cbn [length]; lia);
     apply peek_poke_le].
  unfold ret. rewrite to_uint_id by (unfold in_uint; lia).
  do 2 f_equal.
  replace (p + 4 + 4) with (p + 8) by lia.
  apply poke_frame_close.
Qed.

Lemma SerializeEnvelopePostscript_accepted R__crc32 buffer payload m :
  let contents := [1; 0; 1; 0] ++ payload in
  let size := Z.of_nat (length contents) in
  let crc := R__crc32 (R__crc32 0 []) contents in
  let m' := poke (buffer + size) (le_bytes 4 crc) m in
  0 < buffer -> size < 2 ^ 32 - 4 -> in_uint 32 crc ->
  peek buffer (length contents) m = Some contents ->
  allocated m (buffer + size) 4 ->
  SerializeEnvelopePostscript R__crc32 buffer size (buffer + size) m
    = Ok (4, m') /\
  DeserializeEnvelope R__crc32 buffer (size + 4) m' = Ok (4, m').
Proof.
  intros contents size crc m' Hp Hsz Hcrc Hpk Ha.
  assert (Hlen : 4 <= size).
  { unfold size, contents. rewrite length_app. cbn [length]. lia. }
  split.
  { unfold SerializeEnvelopePostscript, size.
    apply (SerializeCRC32_poke _ _ _ contents); (done || lia). }
  assert (Hpk3 : peek buffer (length contents) m' = Some contents).
  { unfold m'. rewrite peek_poke_disjoint
      by (rewrite length_le_bytes; fold size; lia). done. }
  assert (Hw : DeserializeUInt32 (buffer + size) m' = Ok ((4, crc), m')).
  { unfold m'. rewrite (DeserializeUInt32_bytes crc) by apply peek_poke_le.
    by rewrite to_uint_id. }
  rewrite (DeserializeEnvelope_run R__crc32 buffer (size + 4) m' 1 1).
  - reflexivity.
  - lia.
  - replace (size + 4 - 4) with size by lia. unfold size.
    rewrite (VerifyCRC32_run _ _ _ contents crc) by done.
    fold crc. by rewrite Z.eqb_refl.
  - pose proof (peek_sub buffer contents m' 0 2 Hpk3) as H2.
    rewrite Z.add_0_r in H2.
    rewrite (DeserializeUInt16_bytes 1); [done|].
    apply H2. unfold size in Hlen. lia.
  - pose proof (peek_sub buffer contents m' 2 2 Hpk3) as H2.
    rewrite (DeserializeUInt16_bytes 1); [done|].
    apply H2. unfold size in Hlen. lia.
Qed.

Section FooterProofs.

Variable R__crc32 : Z -> list Z -> Z.
Variable GetNClusters : RNTupleDescriptor -> Z.
Variable GetClusterDescriptor : RNTupleDescriptor -> Z -> RClusterDescriptor.
Variable desc : RNTupleDescriptor.
Variable context : RContext.

Lemma SerializeFooterV1_summaries_run n (k i fuel : nat) buffer pos m :
  0 < buffer -> 0 < pos -> (k <= fuel)%nat ->
  Z.of_nat i + Z.of_nat k = n -> n < 2 ^ 32 ->
  (i + k <= length (fPhys2MemClusterIDs context))%nat ->
  Forall (fun memId =>
            in_uint 64 (GetFirstEntryIndex (GetClusterDescriptor desc memId)) /\
            0 <= GetNEntries (GetClusterDescriptor desc memId) < 2 ^ 63)
    (take k (drop i (fPhys2MemClusterIDs context))) ->
  allocated m pos (20 * Z.of_nat k) ->
  SerializeFooterV1_summaries GetClusterDescriptor fuel desc context buffer n
    (Z.of_nat i) pos m
  = Ok (pos + 20 * Z.of_nat k,
        poke pos
          (concat (map cluster_summary_bytes
                     (map (fun memId =>
                             {| fFirstEntry :=
                                  GetFirstEntryIndex
                                    (GetClusterDescriptor desc memId);
                                fNEntries :=
                                  GetNEntries (GetClusterDescriptor desc memId);
                                fColumnGroupID := -1 |})
                        (take k (drop i (fPhys2MemClusterIDs context))))))
          m).
Proof.
  intros Hb. revert i fuel pos m.
  induction k as [|k IH]; intros i fuel pos m Hpos Hfuel Hn Hlt Hlen Hall Ha.
  - destruct fuel; cbn [SerializeFooterV1_summaries];
      replace (Z.of_nat i <? n) with false by lia;
      rewrite take_0; cbn; unfold ret; do 2 f_equal; lia.
  - destruct fuel as [|fuel]; [lia|].
    cbn [SerializeFooterV1_summaries].
    replace (Z.of_nat i <? n) with true by lia.
    destruct (fPhys2MemClusterIDs context !! i) as [memId|] eqn:Eid;
      [|apply lookup_ge_None in Eid; lia].
    rewrite (drop_S _ _ _ Eid) in *. rewrite firstn_cons in *.
    apply Forall_cons in Hall as [[Hfirst Hent] Hall].
    unfold bind at 1. unfold GetMemClusterId. rewrite Nat2Z.id, Eid.
    unfold ret at 1. unfold bind at 1. rewrite where_real by done.
    rewrite SerializeClusterSummary_all_columns;
      [|done|done|done|apply (allocated_weaken _ _ _ _ _ Ha); lia].
    rewrite (to_uint_id 32 (Z.of_nat i + 1)) by (unfold in_uint; lia).
    replace (Z.of_nat i + 1) with (Z.of_nat (S i)) by lia.
    rewrite (IH _ fuel); [|lia|lia|lia|lia|lia|done|
                 apply allocated_poke, (allocated_weaken _ _ _ _ _ Ha); lia].
    f_equal. f_equal; [lia|].
    cbn [map concat].
    match goal with
    | |- context [poke pos (cluster_summary_bytes ?cs ++ _) m] =>
        set (A := cluster_summary_bytes cs)
    end.
    assert (EA : le_bytes 4 20
                 ++ le_bytes 8
                      (GetFirstEntryIndex (GetClusterDescriptor desc memId))
                 ++ le_bytes 8 (GetNEntries (GetClusterDescriptor desc memId))
                 = A) by reflexivity.
    rewrite EA, <- (poke_poke_app pos A). f_equal.
    all: rewrite <- EA, !length_app, !length_le_bytes; lia.
Qed.

Lemma SerializeFooterV1_groups_run groups buffer pos m :
  0 < buffer -> 0 < pos ->
  Forall (fun group =>
            writable_locator (fLocator (fPageListEnvelopeLink group)))
    groups ->
  allocated m pos
    (Z.of_nat (length (concat (map cluster_group_bytes groups)))) ->
  SerializeFooterV1_groups groups buffer pos m
  = Ok (pos + Z.of_nat (length (concat (map cluster_group_bytes groups))),
        poke pos (concat (map cluster_group_bytes groups)) m).
Proof.
  intros Hb. revert pos m.
  induction groups as [|g groups IH]; intros pos m Hpos Hall Ha.
  - cbn. unfold ret. do 2 f_equal. lia.
  - apply Forall_cons in Hall as [Hs Hall].
    cbn [map concat] in *. rewrite length_app in Ha.
    cbn [SerializeFooterV1_groups]. unfold bind at 1.
    rewrite where_real by done.
    rewrite SerializeClusterGroup_bytes;
      [|done|done|apply (allocated_weaken _ _ _ _ _ Ha); lia].
    rewrite IH; [|lia|done|
                 apply allocated_poke, (allocated_weaken _ _ _ _ _ Ha); lia].
    f_equal. f_equal; [rewrite length_app; lia|].
    by rewrite poke_poke_app.
Qed.


(** X23: the footer on a real buffer.  Assume that the clusters below
    [GetNClusters] (fewer than [2^28]) are mapped in the context, that
    their first entries are 64-bit values and their entry counts are below
    [2^63], that there are fewer than [2^28] cluster groups, and that the
    locator of each group is one that [SerializeLocator] accepts
    ([writable_locator]: inline with bytes-on-storage below [2^31], or a
    URL shorter than [2^24] bytes, whatever its position and
    bytes-on-storage).  When moreover the envelope stays below 2 GiB and
    the checksum is a 32-bit value, [SerializeFooterV1] returns, given
    enough iterations, and has written exactly [footer_bytes] at [buffer]:
    preamble, zero feature flags, the header checksum of the context, the
    five list frames and the checksum of all that; [DeserializeEnvelope]
    accepts the result. *)
Theorem SerializeFooterV1_layout fuel buffer m :
  let contents := footer_contents GetNClusters GetClusterDescriptor desc context in
  let bytes := footer_bytes R__crc32 GetNClusters GetClusterDescriptor desc context in
  0 < buffer ->
  0 <= GetNClusters desc < 2 ^ 28 ->
  (Z.to_nat (GetNClusters desc) <= length (fPhys2MemClusterIDs context))%nat ->
  (Z.to_nat (GetNClusters desc) <= fuel)%nat ->
  Forall (fun cs => in_uint 64 (fFirstEntry cs) /\ 0 <= fNEntries cs < 2 ^ 63)
    (footer_summaries GetNClusters GetClusterDescriptor desc context) ->
  Z.of_nat (length (fClusterGroups context)) < 2 ^ 28 ->
  Forall (fun group =>
            writable_locator (fLocator (fPageListEnvelopeLink group)))
    (fClusterGroups context) ->
  Z.of_nat (length bytes) < 2 ^ 31 ->
  in_uint 32 (R__crc32 (R__crc32 0 []) contents) ->
  allocated m buffer (Z.of_nat (length bytes)) ->
  SerializeFooterV1 R__crc32 GetNClusters GetClusterDescriptor fuel buffer
    desc context m = Ok (tt, poke buffer bytes m) /\
  DeserializeEnvelope R__crc32 buffer (Z.of_nat (length bytes))
    (poke buffer bytes m) = Ok (4, poke buffer bytes m).
Proof.
  intros contents bytes Hb Hn Hids Hfuel Hsum Hng Hgroups Hsize Hcrc Ha.
  set (ids := take (Z.to_nat (GetNClusters desc)) (fPhys2MemClusterIDs context)).
  set (P3 := concat (map cluster_summary_bytes
                       (footer_summaries GetNClusters GetClusterDescriptor
                          desc context))).
  set (P4 := concat (map cluster_group_bytes (fClusterGroups context))).
  assert (Hids' : length ids = Z.to_nat (GetNClusters desc))
    by (unfold ids; rewrite length_take; lia).
  assert (HP3 : Z.of_nat (length P3) = 20 * GetNClusters desc).
  { unfold P3, footer_summaries. fold ids.
    replace (GetNClusters desc) with (Z.of_nat (length ids)) by lia.
    clear. induction ids as [|id l IH]; [done|].
    cbn [map concat length]. rewrite length_app, Nat2Z.inj_add, IH.
    unfold cluster_summary_bytes. cbn [fColumnGroupID].
    change (-1 >=? 0) with false. cbv iota.
    rewrite !length_app, !length_le_bytes. lia. }
  assert (Econt : contents
                  = [1; 0; 1; 0] ++ le_bytes 8 0
                    ++ le_bytes 4 (fHeaderCrc32 context)
                    ++ closed_list_frame 0 []
                    ++ closed_list_frame 0 []
                    ++ closed_list_frame (GetNClusters desc) P3
                    ++ closed_list_frame
                         (Z.of_nat (length (fClusterGroups context))) P4
                    ++ closed_list_frame 0 []) by reflexivity.
  assert (Hlen : Z.of_nat (length contents)
                 = 56 + Z.of_nat (length P3) + Z.of_nat (length P4)).
  { rewrite Econt. unfold closed_list_frame.
    rewrite !length_app, !length_le_bytes. cbn [length]. lia. }
  assert (Hbytes : Z.of_nat (length bytes) = Z.of_nat (length contents) + 4).
  { unfold bytes, footer_bytes. fold contents.
    rewrite length_app, length_le_bytes. lia. }
  assert (HP4 : 0 <= Z.of_nat (length P4)) by lia.
  assert (Hheap : poke (buffer + Z.of_nat (length contents))
                    (le_bytes 4 (R__crc32 (R__crc32 0 []) contents))
                    (poke buffer contents m)
                  = poke buffer bytes m).
  { unfold bytes, footer_bytes. fold contents. by rewrite poke_app. }
  assert (Henv :
    SerializeEnvelopePostscript R__crc32 buffer (Z.of_nat (length contents))
      (buffer + Z.of_nat (length contents)) (poke buffer contents m)
      = Ok (4, poke buffer bytes m) /\
    DeserializeEnvelope R__crc32 buffer (Z.of_nat (length contents) + 4)
      (poke buffer bytes m) = Ok (4, poke buffer bytes m)).
  { rewrite <- Hheap.
    apply (SerializeEnvelopePostscript_accepted R__crc32 buffer
             (le_bytes 8 0 ++ le_bytes 4 (fHeaderCrc32 context)
              ++ closed_list_frame 0 [] ++ closed_list_frame 0 []
              ++ closed_list_frame (GetNClusters desc) P3
              ++ closed_list_frame
                   (Z.of_nat (length (fClusterGroups context))) P4
              ++ closed_list_frame 0 [])
             (poke buffer contents m)).
    - done.
    - change (Z.of_nat (length contents) < 2 ^ 32 - 4). lia.
    - exact Hcrc.
    - apply peek_poke_same.
    - change (allocated (poke buffer contents m)
                (buffer + Z.of_nat (length contents)) 4).
      apply allocated_poke, (allocated_weaken _ _ _ _ _ Ha); lia. }
  destruct Henv as [Hpost Hread].
  split.
  - unfold SerializeFooterV1, GetHeaderCRC32, GetClusterGroups.
    cbn [SerializeFeatureFlags].
    rewrite (to_uint_id 32 (GetNClusters desc)) by (unfold in_uint; lia).
    rewrite (to_uint_id 32 (Z.of_nat (length (fClusterGroups context))))
      by (unfold in_uint; lia).
    unfold bind.
    repeat first
      [ rewrite where_real by done
      | rewrite SerializeEnvelopePreamble_poke by side Ha
      | rewrite SerializeInt64_poke by side Ha
      | rewrite SerializeUInt32_poke by side Ha
      | rewrite SerializeListFramePreamble_poke by (done || lia || alloc_solve Ha)
      | progress cbv beta iota ].
    (* extension headers *)
    replace (buffer + 4 + 8 + 4 + 8 - (buffer + 4 + 8 + 4)) with 8 by lia.
    change (to_int 32 8) with 8.
    rewrite SerializeFramePostscript_list;
      [|lia|lia|
       rewrite !peek_poke_disjoint by (rewrite ?length_le_bytes; lia);
       apply peek_poke_le].
    rewrite poke_empty_frame_close. cbv beta iota.
    (* column groups *)
    rewrite where_real by done.
    rewrite SerializeListFramePreamble_poke by (done || lia || alloc_solve Ha).
    cbv beta iota.
    replace (buffer + 4 + 8 + 4 + 8 + 0 + 8 - (buffer + 4 + 8 + 4 + 8 + 0))
      with 8 by lia.
    change (to_int 32 8) with 8.
    rewrite SerializeFramePostscript_list;
      [|lia|lia|
       rewrite !peek_poke_disjoint by (rewrite ?length_le_bytes; lia);
       apply peek_poke_le].
    rewrite poke_empty_frame_close. cbv beta iota.
    (* cluster summaries *)
    rewrite where_real by done.
    rewrite SerializeListFramePreamble_poke by (done || lia || alloc_solve Ha).
    cbv beta iota.
    set (f3 := buffer + 4 + 8 + 4 + 8 + 0 + 8 + 0).
    assert (Hsum' :
      Forall (fun memId =>
                in_uint 64 (GetFirstEntryIndex (GetClusterDescriptor desc memId)) /\
                0 <= GetNEntries (GetClusterDescriptor desc memId) < 2 ^ 63)
        (take (Z.to_nat (GetNClusters desc))
           (drop 0 (fPhys2MemClusterIDs context)))).
    { unfold footer_summaries in Hsum. by apply Forall_map in Hsum. }
    rewrite (SerializeFooterV1_summaries_run (GetNClusters desc)
               (Z.to_nat (GetNClusters desc)) 0 fuel buffer (f3 + 8));
      [|done|lia|done|lia|lia|lia|done|alloc_solve Ha].
    cbv beta iota.
    change (concat _) with P3.
    replace (f3 + 8 + 20 * Z.of_nat (Z.to_nat (GetNClusters desc)) - f3)
      with (8 + Z.of_nat (length P3)) by lia.
    rewrite (to_int_id 32 (8 + Z.of_nat (length P3)))
      by (lia || (unfold in_int; lia)).
    rewrite SerializeFramePostscript_list;
      [|lia|lia|
       rewrite !peek_poke_disjoint by (rewrite ?length_le_bytes; lia);
       apply peek_poke_le].
    rewrite poke_frame_close. cbv beta iota.
    (* cluster groups *)
    rewrite where_real by done.
    rewrite SerializeListFramePreamble_poke by (done || lia || alloc_solve Ha).
    cbv beta iota.
    set (f4 := f3 + 8 + 20 * Z.of_nat (Z.to_nat (GetNClusters desc)) + 0).
    rewrite (SerializeFooterV1_groups_run (fClusterGroups context) buffer
               (f4 + 8));
      [|done|lia|done|fold P4; alloc_solve Ha].
    cbv beta iota. fold P4.
    replace (f4 + 8 + Z.of_nat (length P4) - f4)
      with (8 + Z.of_nat (length P4)) by lia.
    rewrite (to_int_id 32 (8 + Z.of_nat (length P4)))
      by (lia || (unfold in_int; lia)).
    rewrite SerializeFramePostscript_list;
      [|lia|lia|
       rewrite !peek_poke_disjoint by (rewrite ?length_le_bytes; lia);
       apply peek_poke_le].
    rewrite poke_frame_close. cbv beta iota.
    (* meta-data *)
    set (f5 := f4 + 8 + Z.of_nat (length P4) + 0).
    rewrite where_real by done.
    rewrite SerializeListFramePreamble_poke by (done || lia || alloc_solve Ha).
    cbv beta iota.
    replace (f5 + 8 - f5) with 8 by lia.
    change (to_int 32 8) with 8.
    rewrite SerializeFramePostscript_list;
      [|lia|lia|
       rewrite !peek_poke_disjoint by (rewrite ?length_le_bytes; lia);
       apply peek_poke_le].
    rewrite poke_empty_frame_close. cbv beta iota.
    match goal with
    | |- context [SerializeEnvelopePostscript _ _ _ _ ?h] =>
        assert (Hh : h = poke buffer contents m)
    end.
    { change (le_bytes 4 (- (8)) ++ le_bytes 4 0 ++ [])
        with (closed_list_frame 0 []).
      change (le_bytes 4 (- (8 + Z.of_nat (length P3)))
              ++ le_bytes 4 (GetNClusters desc) ++ P3)
        with (closed_list_frame (GetNClusters desc) P3).
      change (le_bytes 4 (- (8 + Z.of_nat (length P4)))
              ++ le_bytes 4 (Z.of_nat (length (fClusterGroups context))) ++ P4)
        with (closed_list_frame (Z.of_nat (length (fClusterGroups context))) P4).
      rewrite Econt, !poke_app.
      repeat (apply poke_eq;
              [unfold closed_list_frame, f5, f4, f3;
               rewrite ?length_app, ?length_le_bytes; cbn [length]; lia
              |reflexivity|]).
      reflexivity. }
    rewrite Hh, where_real by done.
    replace (to_uint 32 (f5 + 8 + 0 - buffer))
      with (Z.of_nat (length contents))
      by (rewrite to_uint_id; [unfold f5, f4, f3; lia|unfold in_uint; lia]).
    replace (f5 + 8 + 0) with (buffer + Z.of_nat (length contents))
      by (unfold f5, f4, f3; lia).
    by rewrite Hpost.
  - by rewrite Hbytes.
Qed.

End FooterProofs.

Lemma SerializeFooterV1_layout_witness :
  SerializeFooterV1 crc32_ieee (fun _ => 2)
    (fun _ _ => two_column_cluster)
    2 100 one_field_desc two_cluster_context (calloc 100 118)
  = Ok (tt,
        poke 100
          (footer_bytes crc32_ieee (fun _ => 2)
             (fun _ _ => two_column_cluster)
             one_field_desc two_cluster_context)
          (calloc 100 118)) /\
  DeserializeEnvelope crc32_ieee 100 118
    (poke 100
       (footer_bytes crc32_ieee (fun _ => 2)
          (fun _ _ => two_column_cluster)
          one_field_desc two_cluster_context)
       (calloc 100 118))
  = Ok (4,
        poke 100
          (footer_bytes crc32_ieee (fun _ => 2)
             (fun _ _ => two_column_cluster)
             one_field_desc two_cluster_context)
          (calloc 100 118)).
Proof.
  apply (SerializeFooterV1_layout crc32_ieee (fun _ => 2)
           (fun _ _ => two_column_cluster)
           one_field_desc two_cluster_context 2 100 (calloc 100 118)).
  - lia.
  - cbv beta. lia.
  - cbn. lia.
  - cbn. lia.
  - repeat constructor; unfold in_uint; cbn; lia.
  - cbn. lia.
  - repeat constructor; unfold in_uint; cbn; lia.
  - vm_compute. reflexivity.
  - unfold in_uint. split; [apply Z.leb_le|apply Z.ltb_lt];
      vm_compute; reflexivity.
  - apply (allocated_b_correct _ _ 118). vm_compute. reflexivity.
Defined.

(** ** Clusters and page lists on a real buffer *)

Lemma InsertPhysColumnIds_run columnIds context physColumnIds m :
  InsertPhysColumnIds columnIds context physColumnIds m
  = match phys_column_ids context columnIds physColumnIds with
    | Some s => Ok (s, m)
    | None => Throw std_out_of_range
    end.
Proof.
  revert physColumnIds.
  induction columnIds as [|id rest IH]; intros physColumnIds; [done|].
  cbn [InsertPhysColumnIds phys_column_ids]. unfold bind, GetPhysClusterId.
  destruct (fMem2PhysClusterIDs context !! id); [apply IH|done].
Qed.

Lemma length_page_info_bytes pi :
  writable_locator (RPageInfo.fLocator pi) ->
  4 <= Z.of_nat (length (page_info_bytes pi)) < 2 ^ 25.
Proof.
  intros Hs. pose proof (length_writable_locator_bytes _ Hs).
  unfold page_info_bytes. rewrite length_app, length_le_bytes. lia.
Qed.

Lemma SerializePageInfos_run pageInfos buffer pos m :
  0 < buffer -> 0 < pos ->
  Forall (fun pi => writable_locator (RPageInfo.fLocator pi)) pageInfos ->
  allocated m pos
    (Z.of_nat (length (concat (map page_info_bytes pageInfos)))) ->
  SerializePageInfos pageInfos buffer pos m
  = Ok (pos + Z.of_nat (length (concat (map page_info_bytes pageInfos))),
        poke pos (concat (map page_info_bytes pageInfos)) m).
Proof.
  intros Hb. revert pos m.
  induction pageInfos as [|pi rest IH]; intros pos m Hpos Hall Ha.
  - cbn. unfold ret. do 2 f_equal. lia.
  - apply Forall_cons in Hall as [Hs Hall].
    pose proof (length_writable_locator_bytes _ Hs) as Hll.
    cbn [map concat] in *. unfold page_info_bytes at 1 in Ha.
    rewrite !length_app, length_le_bytes in Ha.
    cbn [SerializePageInfos]. unfold bind at 1.
    rewrite where_real by done.
    rewrite SerializeUInt32_poke
      by (unfold nullptr; lia || apply (allocated_weaken _ _ _ _ _ Ha); lia).
    rewrite le_bytes_to_uint32.
    unfold bind at 1. rewrite where_real by done.
    rewrite SerializeLocator_writes;
      [|done|lia|
       apply allocated_poke, (allocated_weaken _ _ _ _ _ Ha); lia].
    rewrite IH;
      [|lia|done|
       do 2 apply allocated_poke; apply (allocated_weaken _ _ _ _ _ Ha); lia].
    f_equal. f_equal.
    + unfold page_info_bytes. rewrite !length_app, length_le_bytes. lia.
    + unfold page_info_bytes at 2. rewrite <- app_assoc, !poke_app.
      rewrite length_le_bytes. apply poke_eq; [lia|done|done].
Qed.

Lemma length_closed_list_frame nitems payload :
  Z.of_nat (length (closed_list_frame nitems payload))
  = 8 + Z.of_nat (length payload).
Proof.
  unfold closed_list_frame. rewrite !length_app, !length_le_bytes. lia.
Qed.

Lemma SerializeClusterV1_for_run cluster context physIds ids buffer pos m :
  0 < buffer -> 0 < pos ->
  mem_cluster_ids context physIds = Some ids ->
  (forall id, Forall (fun pi => writable_locator (RPageInfo.fLocator pi))
                (fPageInfos (GetPageRange cluster id))) ->
  Z.of_nat (length (concat (map (fun id =>
                       closed_list_frame 0
                         (page_range_bytes (GetPageRange cluster id)))
                    ids))) < 2 ^ 31 ->
  allocated m pos
    (Z.of_nat (length (concat (map (fun id =>
                       closed_list_frame 0
                         (page_range_bytes (GetPageRange cluster id)))
                    ids)))) ->
  SerializeClusterV1_for physIds cluster context buffer pos m
  = Ok (pos + Z.of_nat (length (concat (map (fun id =>
                       closed_list_frame 0
                         (page_range_bytes (GetPageRange cluster id)))
                    ids))),
        poke pos
          (concat (map (fun id =>
                          closed_list_frame 0
                            (page_range_bytes (GetPageRange cluster id)))
                       ids)) m).
Proof.
  intros Hb Hpos Hmem Hst. revert ids pos m Hpos Hmem.
  induction physIds as [|physId rest IH]; intros ids pos m Hpos Hmem Hlt Ha.
  - injection Hmem as <-. cbn. unfold ret. do 2 f_equal. lia.
  - cbn [mem_cluster_ids] in Hmem.
    destruct (fPhys2MemClusterIDs context !! Z.to_nat physId) as [id|] eqn:Eid;
      [|done].
    destruct (mem_cluster_ids context rest) as [ids'|] eqn:Erest; [|done].
    injection Hmem as <-. cbn [map concat] in *.
    set (pages := page_range_bytes (GetPageRange cluster id)) in *.
    set (tail := concat (map _ ids')) in *.
    rewrite length_app in *.
    pose proof (length_closed_list_frame 0 pages) as Hfr.
    cbn [SerializeClusterV1_for]. unfold bind at 1.
    unfold GetMemClusterId. rewrite Eid. unfold ret at 1.
    unfold bind at 1. rewrite where_real by done.
    rewrite SerializeListFramePreamble_poke
      by (done || lia || apply (allocated_weaken _ _ _ _ _ Ha); lia).
    unfold bind at 1.
    rewrite SerializePageInfos_run;
      [|done|lia|apply Hst|
       fold (page_range_bytes (GetPageRange cluster id)); fold pages;
       do 2 apply allocated_poke; apply (allocated_weaken _ _ _ _ _ Ha); lia].
    fold (page_range_bytes (GetPageRange cluster id)). fold pages.
    unfold bind at 1.
    replace (pos + 8 + Z.of_nat (length pages) - pos)
      with (8 + Z.of_nat (length pages)) by lia.
    rewrite (to_int_id 32 (8 + Z.of_nat (length pages)))
      by (lia || (unfold in_int; lia)).
    rewrite SerializeFramePostscript_list;
      [|lia|lia|
       rewrite !peek_poke_disjoint by (rewrite ?length_le_bytes; lia);
       apply peek_poke_le].
    rewrite poke_frame_close.
    fold (closed_list_frame 0 pages).
    rewrite (IH ids');
      [|lia|done|fold tail; lia|
       fold tail; apply allocated_poke, (allocated_weaken _ _ _ _ _ Ha); lia].
    fold tail. f_equal. f_equal; [lia|].
    rewrite poke_app. apply poke_eq; [lia|done|done].
Qed.

(** X24: [SerializeClusterV1] looks the column IDs of the cluster up in
    the cluster-ID map of the context.  On a real buffer it fails with
    [std::out_of_range] when one of them is not a key of that map.  When
    all are, the physical IDs found are indices of the cluster-ID vector,
    the locator of every page is one that [SerializeLocator] accepts
    ([writable_locator]: inline with bytes-on-storage below [2^31], or a
    URL shorter than [2^24] bytes, whatever its position and
    bytes-on-storage), the envelope stays below 2 GiB and the checksum is
    a 32-bit value, it writes exactly [cluster_bytes] at [buffer]: the
    preamble, a
    list frame holding one list frame per ID in ascending physical order,
    each with the pages (element count, locator) of the range that the
    vector entry names, and the CRC32 of all that; both levels of list
    frames carry the item count 0.  [DeserializeEnvelope] accepts the
    result. *)
Theorem SerializeClusterV1_layout R__crc32 buffer cluster context m :
  0 < buffer ->
  (phys_column_ids context (GetColumnIds cluster) [] = None ->
   allocated m buffer 12 ->
   SerializeClusterV1 R__crc32 buffer cluster context m
   = Throw std_out_of_range) /\
  (forall physIds ids,
     phys_column_ids context (GetColumnIds cluster) [] = Some physIds ->
     mem_cluster_ids context physIds = Some ids ->
     (forall id, Forall (fun pi => writable_locator (RPageInfo.fLocator pi))
                   (fPageInfos (GetPageRange cluster id))) ->
     Z.of_nat (length (cluster_bytes R__crc32 cluster ids)) < 2 ^ 31 ->
     in_uint 32 (R__crc32 (R__crc32 0 []) (cluster_contents cluster ids)) ->
     allocated m buffer
       (Z.of_nat (length (cluster_bytes R__crc32 cluster ids))) ->
     SerializeClusterV1 R__crc32 buffer cluster context m
       = Ok (tt, poke buffer (cluster_bytes R__crc32 cluster ids) m) /\
     DeserializeEnvelope R__crc32 buffer
       (Z.of_nat (length (cluster_bytes R__crc32 cluster ids)))
       (poke buffer (cluster_bytes R__crc32 cluster ids) m)
     = Ok (4, poke buffer (cluster_bytes R__crc32 cluster ids) m)).
Proof.
  intros Hb. split.
  - intros Hnone Ha. unfold SerializeClusterV1, bind.
    rewrite where_real by done.
    rewrite SerializeEnvelopePreamble_poke by side Ha. cbv beta iota.
    rewrite where_real by done.
    rewrite SerializeListFramePreamble_poke by (done || lia || alloc_solve Ha).
    cbv beta iota. by rewrite InsertPhysColumnIds_run, Hnone.
  - intros physIds ids Hphys Hmem Hst Hsize Hcrc Ha.
    set (contents := cluster_contents cluster ids) in *.
    set (bytes := cluster_bytes R__crc32 cluster ids) in *.
    set (P := concat (map (fun id =>
                             closed_list_frame 0
                               (page_range_bytes (GetPageRange cluster id)))
                          ids)).
    assert (Econt : contents = [1; 0; 1; 0] ++ closed_list_frame 0 P)
      by reflexivity.
    assert (Hlen : Z.of_nat (length contents) = 12 + Z.of_nat (length P)).
    { rewrite Econt, length_app, Nat2Z.inj_add, length_closed_list_frame.
      cbn [length]. lia. }
    assert (Hbytes : Z.of_nat (length bytes) = Z.of_nat (length contents) + 4).
    { unfold bytes, cluster_bytes. fold contents.
      rewrite length_app, length_le_bytes. lia. }
    assert (Hheap : poke (buffer + Z.of_nat (length contents))
                      (le_bytes 4 (R__crc32 (R__crc32 0 []) contents))
                      (poke buffer contents m)
                    = poke buffer bytes m).
    { unfold bytes, cluster_bytes. fold contents. by rewrite poke_app. }
    assert (Henv :
      SerializeEnvelopePostscript R__crc32 buffer (Z.of_nat (length contents))
        (buffer + Z.of_nat (length contents)) (poke buffer contents m)
        = Ok (4, poke buffer bytes m) /\
      DeserializeEnvelope R__crc32 buffer (Z.of_nat (length contents) + 4)
        (poke buffer bytes m) = Ok (4, poke buffer bytes m)).
    { rewrite <- Hheap.
      apply (SerializeEnvelopePostscript_accepted R__crc32 buffer
               (closed_list_frame 0 P) (poke buffer contents m)).
      - done.
      - change (Z.of_nat (length contents) < 2 ^ 32 - 4). lia.
      - exact Hcrc.
      - apply peek_poke_same.
      - change (allocated (poke buffer contents m)
                  (buffer + Z.of_nat (length contents)) 4).
        apply allocated_poke, (allocated_weaken _ _ _ _ _ Ha); lia. }
    destruct Henv as [Hpost Hread].
    split; [|by rewrite Hbytes].
    unfold SerializeClusterV1, bind.
    rewrite where_real by done.
    rewrite SerializeEnvelopePreamble_poke by side Ha. cbv beta iota.
    rewrite where_real by done.
    rewrite SerializeListFramePreamble_poke by (done || lia || alloc_solve Ha).
    cbv beta iota. rewrite InsertPhysColumnIds_run, Hphys.
    rewrite (SerializeClusterV1_for_run cluster context physIds ids);
      [|done|lia|done|done|fold P; lia|fold P; alloc_solve Ha].
    fold P. cbv beta iota.
    replace (buffer + 4 + 8 + Z.of_nat (length P) - (buffer + 4))
      with (8 + Z.of_nat (length P)) by lia.
    rewrite (to_int_id 32 (8 + Z.of_nat (length P)))
      by (lia || (unfold in_int; lia)).
    rewrite SerializeFramePostscript_list;
      [|lia|lia|
       rewrite !peek_poke_disjoint by (rewrite ?length_le_bytes; lia);
       apply peek_poke_le].
    rewrite poke_frame_close. fold (closed_list_frame 0 P).
    replace (poke (buffer + 4) (closed_list_frame 0 P)
               (poke buffer [1; 0; 1; 0] m))
      with (poke buffer contents m)
      by (rewrite Econt, poke_app; apply poke_eq; [cbn [length]; lia|done|done]).
    rewrite where_real by done.
    replace (to_uint 32 (buffer + 4 + 8 + Z.of_nat (length P) + 0 - buffer))
      with (Z.of_nat (length contents))
      by (rewrite to_uint_id; [lia|unfold in_uint; lia]).
    replace (buffer + 4 + 8 + Z.of_nat (length P) + 0)
      with (buffer + Z.of_nat (length contents)) by lia.
    by rewrite Hpost.
Qed.

Lemma length_set_insert x s : (length (set_insert x s) <= S (length s))%nat.
Proof.
  induction s as [|y s IH]; cbn [set_insert length]; [lia|].
  destruct (x <? y); [cbn [length]; lia|].
  destruct (x =? y); cbn [length]; lia.
Qed.

Lemma length_phys_column_ids context columnIds physColumnIds s :
  phys_column_ids context columnIds physColumnIds = Some s ->
  (length s <= length physColumnIds + length columnIds)%nat.
Proof.
  revert physColumnIds.
  induction columnIds as [|id rest IH]; intros physColumnIds H.
  - injection H as <-. lia.
  - cbn [phys_column_ids] in H.
    destruct (fMem2PhysClusterIDs context !! id) as [p|]; [|done].
    apply IH in H. pose proof (length_set_insert p physColumnIds).
    cbn [length]. lia.
Qed.

Lemma length_mem_cluster_ids context physIds ids :
  mem_cluster_ids context physIds = Some ids -> length ids = length physIds.
Proof.
  revert ids. induction physIds as [|p rest IH]; intros ids H.
  - by injection H as <-.
  - cbn [mem_cluster_ids] in H.
    destruct (fPhys2MemClusterIDs context !! Z.to_nat p); [|done].
    destruct (mem_cluster_ids context rest) as [ids'|]; [|done].
    injection H as <-. cbn [length]. by rewrite (IH ids').
Qed.

Lemma SerializePageListV1_columns_run clusterDesc context physIds ids
    buffer pos m :
  0 < buffer -> 0 < pos ->
  mem_cluster_ids context physIds = Some ids ->
  (forall id, Forall (fun pi => writable_locator (RPageInfo.fLocator pi))
                (fPageInfos (GetPageRange clusterDesc id))) ->
  (forall id,
     Z.of_nat (length (fPageInfos (GetPageRange clusterDesc id))) < 2 ^ 28) ->
  Z.of_nat (length (concat (map (fun id =>
                       closed_list_frame
                         (Z.of_nat
                            (length (fPageInfos (GetPageRange clusterDesc id))))
                         (page_range_bytes (GetPageRange clusterDesc id)))
                    ids))) < 2 ^ 31 ->
  allocated m pos
    (Z.of_nat (length (concat (map (fun id =>
                       closed_list_frame
                         (Z.of_nat
                            (length (fPageInfos (GetPageRange clusterDesc id))))
                         (page_range_bytes (GetPageRange clusterDesc id)))
                    ids)))) ->
  SerializePageListV1_columns physIds clusterDesc context buffer pos m
  = Ok (pos + Z.of_nat (length (concat (map (fun id =>
                       closed_list_frame
                         (Z.of_nat
                            (length (fPageInfos (GetPageRange clusterDesc id))))
                         (page_range_bytes (GetPageRange clusterDesc id)))
                    ids))),
        poke pos
          (concat (map (fun id =>
                       closed_list_frame
                         (Z.of_nat
                            (length (fPageInfos (GetPageRange clusterDesc id))))
                         (page_range_bytes (GetPageRange clusterDesc id)))
                    ids)) m).
Proof.
  intros Hb Hpos Hmem Hst Hcount. revert ids pos m Hpos Hmem.
  induction physIds as [|physId rest IH]; intros ids pos m Hpos Hmem Hlt Ha.
  - injection Hmem as <-. cbn. unfold ret. do 2 f_equal. lia.
  - cbn [mem_cluster_ids] in Hmem.
    destruct (fPhys2MemClusterIDs context !! Z.to_nat physId) as [id|] eqn:Eid;
      [|done].
    destruct (mem_cluster_ids context rest) as [ids'|] eqn:Erest; [|done].
    injection Hmem as <-. cbn [map concat] in *.
    set (pages := page_range_bytes (GetPageRange clusterDesc id)) in *.
    set (npages := Z.of_nat (length (fPageInfos (GetPageRange clusterDesc id))))
      in *.
    set (tail := concat (map _ ids')) in *.
    rewrite length_app in *.
    pose proof (length_closed_list_frame npages pages) as Hfr.
    pose proof (Hcount id) as Hnp. fold npages in Hnp.
    cbn [SerializePageListV1_columns]. unfold bind at 1.
    unfold GetMemClusterId. rewrite Eid. unfold ret at 1.
    unfold bind at 1. rewrite where_real by done. fold npages.
    rewrite (to_uint_id 32 npages) by (unfold in_uint; lia).
    rewrite SerializeListFramePreamble_poke
      by (done || lia || apply (allocated_weaken _ _ _ _ _ Ha); lia).
    unfold bind at 1.
    rewrite SerializePageInfos_run;
      [|done|lia|apply Hst|
       fold (page_range_bytes (GetPageRange clusterDesc id)); fold pages;
       do 2 apply allocated_poke; apply (allocated_weaken _ _ _ _ _ Ha); lia].
    fold (page_range_bytes (GetPageRange clusterDesc id)). fold pages.
    unfold bind at 1.
    replace (pos + 8 + Z.of_nat (length pages) - pos)
      with (8 + Z.of_nat (length pages)) by lia.
    rewrite (to_int_id 32 (8 + Z.of_nat (length pages)))
      by (lia || (unfold in_int; lia)).
    rewrite SerializeFramePostscript_list;
      [|lia|lia|
       rewrite !peek_poke_disjoint by (rewrite ?length_le_bytes; lia);
       apply peek_poke_le].
    rewrite poke_frame_close.
    fold (closed_list_frame npages pages).
    rewrite (IH ids');
      [|lia|done|fold tail; lia|
       fold tail; apply allocated_poke, (allocated_weaken _ _ _ _ _ Ha); lia].
    fold tail. f_equal. f_equal; [lia|].
    rewrite poke_app. apply poke_eq; [lia|done|done].
Qed.

Section PageListProofs.

Variable R__crc32 : Z -> list Z -> Z.
Variable GetClusterDescriptor : RNTupleDescriptor -> Z -> RClusterDescriptor.
Variable desc : RNTupleDescriptor.
Variable context : RContext.

Hypothesis locators_writable :
  forall memId id,
    Forall (fun pi => writable_locator (RPageInfo.fLocator pi))
      (fPageInfos (GetPageRange (GetClusterDescriptor desc memId) id)).
Hypothesis pages_count :
  forall memId id,
    Z.of_nat (length (fPageInfos
                        (GetPageRange (GetClusterDescriptor desc memId) id)))
    < 2 ^ 28.
Hypothesis columns_count :
  forall memId,
    Z.of_nat (length (GetColumnIds (GetClusterDescriptor desc memId)))
    < 2 ^ 28.

Lemma SerializePageListV1_clusters_run physClusterIDs payload buffer pos m :
  0 < buffer -> 0 < pos ->
  page_list_clusters GetClusterDescriptor desc context physClusterIDs
    = Some payload ->
  Z.of_nat (length payload) < 2 ^ 31 ->
  allocated m pos (Z.of_nat (length payload)) ->
  SerializePageListV1_clusters GetClusterDescriptor physClusterIDs desc
    context buffer pos m
  = Ok (pos + Z.of_nat (length payload), poke pos payload m).
Proof.
  intros Hb. revert payload pos m.
  induction physClusterIDs as [|clusterId rest IH];
    intros payload pos m Hpos Hpl Hlt Ha.
  - injection Hpl as <-. cbn. unfold ret. do 2 f_equal. lia.
  - cbn [page_list_clusters] in Hpl.
    destruct (fPhys2MemClusterIDs context !! Z.to_nat clusterId)
      as [memId|] eqn:Eid; [|done].
    destruct (phys_column_ids context _ []) as [physIds|] eqn:Ephys; [|done].
    destruct (mem_cluster_ids context physIds) as [ids|] eqn:Emem; [|done].
    destruct (page_list_clusters _ desc context rest) as [tail|] eqn:Erest;
      [|done].
    cbn [option_map] in Hpl. apply (inj Some) in Hpl. subst payload.
    set (cd := GetClusterDescriptor desc memId) in *.
    pose proof (length_phys_column_ids _ _ _ _ Ephys) as Hlp.
    pose proof (length_mem_cluster_ids _ _ _ Emem) as Hlm.
    pose proof (columns_count memId) as Hcc. fold cd in Hcc.
    cbn [length] in Hlp.
    unfold page_list_columns in *.
    set (P := concat (map _ ids)) in *.
    pose proof (length_closed_list_frame (Z.of_nat (length ids)) P) as Hfr.
    rewrite length_app in *.
    cbn [SerializePageListV1_clusters]. unfold bind at 1.
    unfold GetMemClusterId. rewrite Eid. unfold ret at 1. fold cd.
    unfold bind at 1. rewrite InsertPhysColumnIds_run, Ephys.
    unfold bind at 1. rewrite where_real by done.
    rewrite (to_uint_id 32 (Z.of_nat (length physIds)))
      by (unfold in_uint; lia).
    rewrite SerializeListFramePreamble_poke
      by (done || lia || apply (allocated_weaken _ _ _ _ _ Ha); lia).
    unfold bind at 1.
    rewrite (SerializePageListV1_columns_run cd context physIds ids);
      [|done|lia|done|apply locators_writable|apply pages_count|
       fold P; lia|
       fold P; do 2 apply allocated_poke;
       apply (allocated_weaken _ _ _ _ _ Ha); lia].
    fold P. unfold bind at 1.
    replace (pos + 8 + Z.of_nat (length P) - pos)
      with (8 + Z.of_nat (length P)) by lia.
    rewrite (to_int_id 32 (8 + Z.of_nat (length P)))
      by (lia || (unfold in_int; lia)).
    rewrite SerializeFramePostscript_list;
      [|lia|lia|
       rewrite !peek_poke_disjoint by (rewrite ?length_le_bytes; lia);
       apply peek_poke_le].
    rewrite poke_frame_close. rewrite <- Hlm.
    fold (closed_list_frame (Z.of_nat (length ids)) P).
    rewrite (IH tail);
      [|lia|done|lia|
       apply allocated_poke, (allocated_weaken _ _ _ _ _ Ha); lia].
    f_equal. f_equal; [lia|].
    rewrite poke_app. apply poke_eq; [lia|done|done].
Qed.

End PageListProofs.

(** X25: [SerializePageListV1] on a real buffer.  When every lookup on the
    way succeeds (the physical cluster IDs are indices of the cluster-ID
    vector, the column IDs of each cluster are keys of the cluster-ID map,
    the physical IDs found are again indices of the vector), the lists
    have fewer than [2^28] items, the locator of every page is one that
    [SerializeLocator] accepts ([writable_locator]: inline with
    bytes-on-storage below [2^31], or a URL shorter than [2^24] bytes,
    whatever its position and bytes-on-storage), the envelope stays below
    2 GiB and the checksum is a 32-bit value, it writes
    exactly [page_list_bytes] at [buffer]: the preamble, a list frame with
    one list frame per cluster, each holding one list frame per page
    range with its pages, all with their item counts, and the CRC32 of
    all that.  [DeserializeEnvelope] accepts the result. *)
Theorem SerializePageListV1_layout R__crc32 GetClusterDescriptor buffer desc
    physClusterIDs context m payload :
  0 < buffer ->
  Z.of_nat (length physClusterIDs) < 2 ^ 28 ->
  page_list_clusters GetClusterDescriptor desc context physClusterIDs
    = Some payload ->
  (forall memId id,
     Forall (fun pi => writable_locator (RPageInfo.fLocator pi))
       (fPageInfos (GetPageRange (GetClusterDescriptor desc memId) id))) ->
  (forall memId id,
     Z.of_nat (length (fPageInfos
                         (GetPageRange (GetClusterDescriptor desc memId) id)))
     < 2 ^ 28) ->
  (forall memId,
     Z.of_nat (length (GetColumnIds (GetClusterDescriptor desc memId)))
     < 2 ^ 28) ->
  Z.of_nat (length (page_list_bytes R__crc32 (length physClusterIDs) payload))
    < 2 ^ 31 ->
  in_uint 32 (R__crc32 (R__crc32 0 [])
                (page_list_contents (length physClusterIDs) payload)) ->
  allocated m buffer
    (Z.of_nat (length (page_list_bytes R__crc32 (length physClusterIDs)
                         payload))) ->
  SerializePageListV1 R__crc32 GetClusterDescriptor buffer desc
    physClusterIDs context m
    = Ok (tt, poke buffer
                (page_list_bytes R__crc32 (length physClusterIDs) payload) m) /\
  DeserializeEnvelope R__crc32 buffer
    (Z.of_nat (length (page_list_bytes R__crc32 (length physClusterIDs)
                         payload)))
    (poke buffer (page_list_bytes R__crc32 (length physClusterIDs) payload) m)
  = Ok (4, poke buffer
             (page_list_bytes R__crc32 (length physClusterIDs) payload) m).
Proof.
  intros Hb Hn Hpl Hst Hpages Hcols Hsize Hcrc Ha.
  set (n := length physClusterIDs) in *.
  set (contents := page_list_contents n payload) in *.
  set (bytes := page_list_bytes R__crc32 n payload) in *.
  assert (Econt : contents
                  = [1; 0; 1; 0] ++ closed_list_frame (Z.of_nat n) payload)
    by reflexivity.
  assert (Hlen : Z.of_nat (length contents) = 12 + Z.of_nat (length payload)).
  { rewrite Econt, length_app, Nat2Z.inj_add, length_closed_list_frame.
    cbn [length]. lia. }
  assert (Hbytes : Z.of_nat (length bytes) = Z.of_nat (length contents) + 4).
  { unfold bytes, page_list_bytes. fold contents.
    rewrite length_app, length_le_bytes. lia. }
  assert (Hheap : poke (buffer + Z.of_nat (length contents))
                    (le_bytes 4 (R__crc32 (R__crc32 0 []) contents))
                    (poke buffer contents m)
                  = poke buffer bytes m).
  { unfold bytes, page_list_bytes. fold contents. by rewrite poke_app. }
  assert (Henv :
    SerializeEnvelopePostscript R__crc32 buffer (Z.of_nat (length contents))
      (buffer + Z.of_nat (length contents)) (poke buffer contents m)
      = Ok (4, poke buffer bytes m) /\
    DeserializeEnvelope R__crc32 buffer (Z.of_nat (length contents) + 4)
      (poke buffer bytes m) = Ok (4, poke buffer bytes m)).
  { rewrite <- Hheap.
    apply (SerializeEnvelopePostscript_accepted R__crc32 buffer
             (closed_list_frame (Z.of_nat n) payload)
             (poke buffer contents m)).
    - done.
    - change (Z.of_nat (length contents) < 2 ^ 32 - 4). lia.
    - exact Hcrc.
    - apply peek_poke_same.
    - change (allocated (poke buffer contents m)
                (buffer + Z.of_nat (length contents)) 4).
      apply allocated_poke, (allocated_weaken _ _ _ _ _ Ha); lia. }
  destruct Henv as [Hpost Hread].
  split; [|by rewrite Hbytes].
  unfold SerializePageListV1, bind. fold n.
  rewrite where_real by done.
  rewrite SerializeEnvelopePreamble_poke by side Ha. cbv beta iota.
  rewrite where_real by done.
  rewrite (to_uint_id 32 (Z.of_nat n)) by (unfold in_uint; lia).
  rewrite SerializeListFramePreamble_poke by (done || lia || alloc_solve Ha).
  cbv beta iota.
  rewrite (SerializePageListV1_clusters_run GetClusterDescriptor desc context
             Hst Hpages Hcols physClusterIDs payload);
    [|done|lia|done|lia|alloc_solve Ha].
  cbv beta iota.
  replace (buffer + 4 + 8 + Z.of_nat (length payload) - (buffer + 4))
    with (8 + Z.of_nat (length payload)) by lia.
  rewrite (to_int_id 32 (8 + Z.of_nat (length payload)))
    by (lia || (unfold in_int; lia)).
  rewrite SerializeFramePostscript_list;
    [|lia|lia|
     rewrite !peek_poke_disjoint by (rewrite ?length_le_bytes; lia);
     apply peek_poke_le].
  rewrite poke_frame_close. fold (closed_list_frame (Z.of_nat n) payload).
  replace (poke (buffer + 4) (closed_list_frame (Z.of_nat n) payload)
             (poke buffer [1; 0; 1; 0] m))
    with (poke buffer contents m)
    by (rewrite Econt, poke_app; apply poke_eq; [cbn [length]; lia|done|done]).
  cbv beta iota. rewrite where_real by done.
  replace (to_uint 32 (buffer + 4 + 8 + Z.of_nat (length payload) + 0 - buffer))
    with (Z.of_nat (length contents))
    by (rewrite to_uint_id; [lia|unfold in_uint; lia]).
  replace (buffer + 4 + 8 + Z.of_nat (length payload) + 0)
    with (buffer + Z.of_nat (length contents)) by lia.
  by rewrite Hpost.
Qed.

Lemma SerializeClusterV1_layout_witness :
  SerializeClusterV1 crc32_ieee 100 two_column_cluster two_cluster_context
    (calloc 100 74)
  = Ok (tt, poke 100 (cluster_bytes crc32_ieee two_column_cluster [7; 9])
              (calloc 100 74)) /\
  DeserializeEnvelope crc32_ieee 100 74
    (poke 100 (cluster_bytes crc32_ieee two_column_cluster [7; 9])
       (calloc 100 74))
  = Ok (4, poke 100 (cluster_bytes crc32_ieee two_column_cluster [7; 9])
             (calloc 100 74)).
Proof.
  destruct (SerializeClusterV1_layout crc32_ieee 100 two_column_cluster
              two_cluster_context (calloc 100 74)) as [_ H]; [lia|].
  apply (H [0; 1] [7; 9]).
  - reflexivity.
  - reflexivity.
  - intros id. cbn. destruct (id =? 7);
      repeat constructor; unfold in_uint; cbn; lia.
  - vm_compute. reflexivity.
  - unfold in_uint. split; [apply Z.leb_le|apply Z.ltb_lt];
      vm_compute; reflexivity.
  - apply (allocated_b_correct _ _ 74). vm_compute. reflexivity.
Defined.

Lemma SerializePageListV1_layout_witness :
  exists payload,
    page_list_clusters (fun _ _ => two_column_cluster) one_field_desc
      two_cluster_context [0; 1] = Some payload /\
    SerializePageListV1 crc32_ieee (fun _ _ => two_column_cluster) 100
      one_field_desc [0; 1] two_cluster_context (calloc 100 148)
    = Ok (tt, poke 100 (page_list_bytes crc32_ieee 2 payload)
                (calloc 100 148)) /\
    DeserializeEnvelope crc32_ieee 100 148
      (poke 100 (page_list_bytes crc32_ieee 2 payload) (calloc 100 148))
    = Ok (4, poke 100 (page_list_bytes crc32_ieee 2 payload)
               (calloc 100 148)).
Proof.
  eexists. split; [vm_compute; reflexivity|].
  apply (SerializePageListV1_layout crc32_ieee (fun _ _ => two_column_cluster)
           100 one_field_desc [0; 1] two_cluster_context (calloc 100 148)).
  - lia.
  - cbn. lia.
  - vm_compute. reflexivity.
  - intros memId id. cbn. destruct (id =? 7);
      repeat constructor; unfold in_uint; cbn; lia.
  - intros memId id. cbn. destruct (id =? 7); cbn; lia.
  - intros memId. cbn. lia.
  - vm_compute. reflexivity.
  - unfold in_uint. split; [apply Z.leb_le|apply Z.ltb_lt];
      vm_compute; reflexivity.
  - apply (allocated_b_correct _ _ 148). vm_compute. reflexivity.
Defined.
